(** * asg-ebs: finding or creating, attaching, formatting and mounting an
    EBS volume

    A shallow embedding of [main.go].  The EC2 service, the local operating
    system and the clock are external: they are an oracle [Env S] over an
    arbitrary state [S], and every call of the program to them is recorded,
    with its request and its answer, in the trace of the computation.  The
    operation set [AsgEbs] of the source is a class, [runAsgEbs] is written
    against the class and records every invocation it makes, and [Aws] holds
    the methods of the one implementation, [AwsAsgEbs].

    A computation ends by returning, by [os.Exit] (logrus' [Fatal]), by a
    panic, or by the fatal stack overflow of the Go runtime: [waitForFile]
    calls itself once per poll and Go keeps a frame for every call, so the
    number of frames of [waitForFile] the goroutine stack holds is a
    parameter of the model, [stack], and the call that finds no room left
    ends the process (fatal error: stack overflow, exit status 2).

    The start-up, [NewAwsAsgEbs] and [main], has the instance metadata
    service as one more oracle, [Metadata S], and a trace of its own that
    holds the trace of the run.

    Not modelled: the parsing of the command line by kingpin ([main] is
    taken from the point where the flags are parsed; [CreateTagsValue.Set],
    which kingpin calls on a tag flag, is modelled), the fields of log
    entries, and the construction of the SDK client, which makes no
    request. *)

From Stdlib Require Import ZArith String Ascii List Sorting.Sorted Sorting.Permutation Lia.
From stdpp Require Import base list strings gmap pretty.

Open Scope Z_scope.

(** * The program *)

(** ** Go values *)

(** The concrete types behind Go's [error] interface that this program can
    hold: [errors.New], the program's own timeout type (main.go:24), an
    [awserr.Error] of the SDK with its code and message, the [*os.PathError]
    of a file-system call (what [os.IsNotExist] inspects), and the
    [*exec.ExitError] of a command. *)
Inductive error : Type :=
| errorString (s : string)
| createFileSystemOnVolumeTimeout
| awserr (code message : string)
| PathError (op path : string) (notExist : bool)
| ExitError (status : Z).

(* main.go:26 and the [Error] methods of the library types *)
Definition Error (e : error) : string :=
  match e with
  | errorString s => s
  | createFileSystemOnVolumeTimeout => "Volume Timeout"
  | awserr code message => code +:+ ": " +:+ message
  | PathError op path _ => op +:+ " " +:+ path
  | ExitError _ => "exit status"
  end.

Definition errors_New (s : string) : error := errorString s.

(* os.IsNotExist: false on the nil error *)
Definition os_IsNotExist (err : option error) : bool :=
  match err with
  | Some (PathError _ _ notExist) => notExist
  | _ => false
  end.

(** The result of an SDK call [(out, err)]: the program reads [out] only
    when [err == nil]. *)
Inductive result (A : Type) : Type :=
| Ok (a : A)
| Err (e : error).
Arguments Ok {A} a.
Arguments Err {A} e.

(** [time.Time] as an instant in nanoseconds, [time.Duration] as an int64
    count of nanoseconds. *)
Definition Time := Z.

Definition Duration := Z.

Definition minDuration : Duration := - 2 ^ 63.
Definition maxDuration : Duration := 2 ^ 63 - 1.
Definition Second : Duration := 1000000000.

(* int64 arithmetic wraps *)
Definition wrap64 (z : Z) : Z := (z + 2 ^ 63) mod 2 ^ 64 - 2 ^ 63.

(* Time.Sub saturates at the ends of the Duration range *)
Definition Time_Sub (t u : Time) : Duration :=
  let d := t - u in
  if d <? minDuration then minDuration
  else if maxDuration <? d then maxDuration
  else d.

(* Time.Before *)
Definition Before (t u : Time) : bool := t <? u.

(** ** How a computation ends *)

Inductive outcome (A : Type) : Type :=
| Normal (a : A)             (* the function returned *)
| Exited (status : Z)        (* os.Exit, reached through log.Fatal *)
| Panicked (msg : string)    (* a run-time panic *)
| StackOverflow.             (* the runtime's fatal error: stack overflow *)
Arguments Normal {A} a.
Arguments Exited {A} status.
Arguments Panicked {A} msg.
Arguments StackOverflow {A}.

(** A computation over a state [St] that emits events [Ev]. *)
Definition M (St Ev A : Type) : Type := St -> outcome A * St * list Ev.

Section Monad.
Context {St Ev : Type}.

Definition ret {A} (a : A) : M St Ev A := fun s => (Normal a, s, []).

Definition bind {A B} (m : M St Ev A) (f : A -> M St Ev B) : M St Ev B :=
  fun s =>
    let '(o, s1, t1) := m s in
    match o with
    | Normal a => let '(o2, s2, t2) := f a s1 in (o2, s2, t1 ++ t2)
    | Exited c => (Exited c, s1, t1)
    | Panicked msg => (Panicked msg, s1, t1)
    | StackOverflow => (StackOverflow, s1, t1)
    end.

Definition emit (e : Ev) : M St Ev unit := fun s => (Normal tt, s, [e]).

Definition stop {A} (o : outcome A) : M St Ev A := fun s => (o, s, []).

(* one call to the outside: the oracle answers, the event records it *)
Definition ask {A} (f : St -> A * St) (ev : A -> Ev) : M St Ev A :=
  fun s => let '(a, s') := f s in (Normal a, s', [ev a]).

End Monad.

Declare Scope prog_scope.
Delimit Scope prog_scope with prog.
Notation "'let*' x ':=' m 'in' k" := (bind m (fun x => k))
  (at level 10, x pattern, m at level 100, k at level 200) : prog_scope.
Notation "m ;; k" := (bind m (fun _ => k))
  (at level 100, right associativity) : prog_scope.
Open Scope prog_scope.

(** ** The EC2 API, as far as the program uses it *)

(* aws.String(x) is a non-nil pointer; a request field the program always
   sets is a plain value, a field it may leave nil is an option. *)
Record Filter := { flt_Name : string; flt_Values : list string }.

Record Tag := { tag_Key : string; tag_Value : string }.

Record DescribeVolumesInput :=
  { dvi_Filters : list Filter; dvi_VolumeIds : list string }.

Record DescribeSnapshotsInput := { dsi_Filters : list Filter }.

Record Volume :=
  { vol_VolumeId : option string;
    vol_AvailabilityZone : string;
    vol_State : string;
    vol_Tags : list Tag }.

(* the service sets StartTime on every snapshot it describes *)
Record Snapshot :=
  { snap_SnapshotId : option string;
    snap_StartTime : Time }.

Record CreateVolumeInput :=
  { cvi_AvailabilityZone : string;
    cvi_Size : Z;
    cvi_VolumeType : string;
    cvi_SnapshotId : option string }.

Record CreateTagsInput :=
  { cti_Resources : list (option string); cti_Tags : list Tag }.

Record AttachVolumeInput :=
  { avi_VolumeId : string; avi_Device : string; avi_InstanceId : string }.

Record EbsInstanceBlockDeviceSpecification :=
  { ebs_DeleteOnTermination : bool; ebs_VolumeId : string }.

Record InstanceBlockDeviceMappingSpecification :=
  { bdm_DeviceName : string; bdm_Ebs : EbsInstanceBlockDeviceSpecification }.

Record ModifyInstanceAttributeInput :=
  { mia_Attribute : string;
    mia_InstanceId : string;
    mia_BlockDeviceMappings : list InstanceBlockDeviceMappingSpecification }.

Inductive Level := Info | Warn | Fatal.

(** Every call that leaves the program, with its answer.  Log entries keep
    their level and message; their fields are not modelled. *)
Inductive event : Type :=
| EDescribeVolumes (i : DescribeVolumesInput) (r : result (list Volume))
| EDescribeSnapshots (i : DescribeSnapshotsInput) (r : result (list Snapshot))
| ECreateVolume (i : CreateVolumeInput) (r : result Volume)
| ECreateTags (i : CreateTagsInput) (r : option error)
| EDeleteVolume (volumeId : string) (r : option error)
| EWaitUntilVolumeAvailable (i : DescribeVolumesInput) (r : option error)
| EAttachVolume (i : AttachVolumeInput) (r : option error)
| EWaitUntilVolumeInUse (i : DescribeVolumesInput) (r : option error)
| EModifyInstanceAttribute (i : ModifyInstanceAttributeInput) (r : option error)
| EStat (name : string) (r : option error)
| EReadFile (name : string) (r : string * option error)
| EMkdirAll (path : string) (perm : Z) (r : option error)
| ECombinedOutput (cmd : string) (args : list string) (r : string * option error)
| ENow (t : Time)
| ELog (l : Level) (msg : string).

(* a request to the EC2 control plane *)
Definition control_plane (e : event) : bool :=
  match e with
  | EDescribeVolumes _ _ | EDescribeSnapshots _ _ | ECreateVolume _ _
  | ECreateTags _ _ | EDeleteVolume _ _ | EWaitUntilVolumeAvailable _ _
  | EAttachVolume _ _ | EWaitUntilVolumeInUse _ _
  | EModifyInstanceAttribute _ _ => true
  | _ => false
  end.

(* a request that changes control-plane state *)
Definition mutating (e : event) : bool :=
  match e with
  | ECreateVolume _ _ | ECreateTags _ _ | EDeleteVolume _ _
  | EAttachVolume _ _ | EModifyInstanceAttribute _ _ => true
  | _ => false
  end.

(** The outside world: the EC2 endpoints, the file system, the command
    runner and the clock, each answering from a state it may change. *)
Class Env (S : Type) : Type :=
  { ec2_DescribeVolumes : DescribeVolumesInput -> S -> result (list Volume) * S;
    ec2_DescribeSnapshots : DescribeSnapshotsInput -> S -> result (list Snapshot) * S;
    ec2_CreateVolume : CreateVolumeInput -> S -> result Volume * S;
    ec2_CreateTags : CreateTagsInput -> S -> option error * S;
    ec2_WaitUntilVolumeAvailable : DescribeVolumesInput -> S -> option error * S;
    ec2_AttachVolume : AttachVolumeInput -> S -> option error * S;
    ec2_WaitUntilVolumeInUse : DescribeVolumesInput -> S -> option error * S;
    ec2_ModifyInstanceAttribute : ModifyInstanceAttributeInput -> S -> option error * S;
    os_Stat : string -> S -> option error * S;
    ioutil_ReadFile : string -> S -> (string * option error) * S;
    os_MkdirAll : string -> Z -> S -> option error * S;
    exec_CombinedOutput : string -> list string -> S -> (string * option error) * S;
    time_Now : S -> Time * S }.

(** ** strings.Contains *)

Fixpoint Contains (s substr : string) : bool :=
  if String.prefix substr s then true
  else match s with
       | EmptyString => false
       | String _ s' => Contains s' substr
       end.

(** ** The free functions of main.go *)

Section Functions.
Context {S : Type} {E : Env S}.

Definition log (l : Level) (msg : string) : M S event unit := emit (ELog l msg).

(* time.Since(t) = time.Now().Sub(t) *)
Definition time_Since (t : Time) : M S event Duration :=
  let* now := ask time_Now ENow in
  ret (Time_Sub now t).

(* main.go:36.  The call at main.go:43 is a real call, no tail call: every
   poll that misses the file adds a frame.  [stack] is the number of frames
   of waitForFile the goroutine stack still holds; a call that finds none
   left ends the process in the runtime's stack overflow. *)
Fixpoint waitForFile (stack : nat) (file : string) (timeout : Duration)
  : M S event (option error) :=
  match stack with
  | O => stop StackOverflow
  | Datatypes.S stack' =>
      let* startTime := ask time_Now ENow in
      let* err := ask (os_Stat file) (EStat file) in
      match err with
      | None => ret None
      | Some _ =>
          let* since := time_Since startTime in
          let newTimeout := wrap64 (timeout - since) in
          if 0 <? newTimeout then waitForFile stack' file newTimeout
          else ret (Some (errors_New ("File " +:+ file +:+ " not found")))
      end
  end.

(* main.go:49 *)
Definition run (cmd : string) (args : list string) : M S event (option error) :=
  log Info "Running command" ;;
  let* (out, err) := ask (exec_CombinedOutput cmd args) (ECombinedOutput cmd args) in
  match err with
  | Some e => log Info "Error running command" ;; ret (Some e)
  | None => ret None
  end.

(* main.go:59: the bytes read are returned whether or not the read failed *)
Definition slurpFile (file : string) : M S event string :=
  let* (v, err) := ask (ioutil_ReadFile file) (EReadFile file) in
  match err with
  | Some _ => log Info "Failed to read file" ;; ret v
  | None => ret v
  end.

End Functions.

(** ** sort.Sort

    The library routine is not stable and its algorithm depends on the length
    of the slice; the program only relies on its contract, so it is a
    parameter here: the slice sorted by [less]. *)

Class GoSort : Type :=
  sort_Sort : forall A : Type, (A -> A -> bool) -> list A -> list A.

(* sort.Reverse: Less(i, j) of the wrapper is Less(j, i) of the wrapped *)
Definition sort_Reverse {A} (less : A -> A -> bool) : A -> A -> bool :=
  fun a b => less b a.

(* main.go:30: ByStartTime.Less *)
Definition ByStartTime_Less (a b : Snapshot) : bool :=
  Before (snap_StartTime a) (snap_StartTime b).

(** ** The operation set (main.go:67) *)

Class AsgEbs (St : Type) : Type :=
  { checkDevice : string -> M St event (option error);
    checkMountPoint : string -> M St event (option error);
    findVolume : string -> string -> M St event (option string * option error);
    attachVolume : string -> string -> bool -> M St event (option error);
    findSnapshot : string -> string -> M St event (option string * option error);
    createVolume : Z -> string -> string -> gmap string string -> option string ->
                   M St event (option string * option error);
    mountVolume : string -> string -> M St event (option error);
    makeFileSystem : string -> Z -> string -> M St event (option error);
    waitUntilVolumeAvailable : string -> M St event (option error) }.

(** ** The AWS implementation (main.go:79) *)

Record AwsAsgEbs :=
  { Region : string; AvailabilityZone : string; InstanceId : string }.

Module Aws.
Section Methods.
Context {S : Type} {E : Env S} {sorter : GoSort}.
(* the frames of waitForFile the stack holds when attachVolume calls it *)
Variable stack : nat.
Variable awsAsgEbs : AwsAsgEbs.

(* main.go:123 *)
Definition findVolume_params (tagKey tagValue : string) : DescribeVolumesInput :=
  {| dvi_Filters :=
       [ {| flt_Name := "tag:" +:+ tagKey; flt_Values := [tagValue] |};
         {| flt_Name := "tag:filesystem"; flt_Values := ["true"%string] |};
         {| flt_Name := "status"; flt_Values := ["available"%string] |};
         {| flt_Name := "availability-zone";
            flt_Values := [AvailabilityZone awsAsgEbs] |} ];
     dvi_VolumeIds := [] |}.

(* main.go:120 *)
Definition findVolume (tagKey tagValue : string)
  : M S event (option string * option error) :=
  let params := findVolume_params tagKey tagValue in
  let* describeVolumesOutput := ask (ec2_DescribeVolumes params) (EDescribeVolumes params) in
  match describeVolumesOutput with
  | Err err => ret (None, Some err)
  | Ok [] => ret (None, None)
  | Ok (v :: _) => ret (vol_VolumeId v, None)
  end.

(* main.go:165 *)
Definition describeSnapshotsInput (tagKey tagValue : string) : DescribeSnapshotsInput :=
  {| dsi_Filters :=
       [ {| flt_Name := "tag:" +:+ tagKey; flt_Values := [tagValue] |};
         {| flt_Name := "status"; flt_Values := ["completed"%string] |} ] |}.

(* main.go:162 *)
Definition findSnapshot (tagKey tagValue : string)
  : M S event (option string * option error) :=
  let input := describeSnapshotsInput tagKey tagValue in
  let* describeSnapshotsOutput := ask (ec2_DescribeSnapshots input) (EDescribeSnapshots input) in
  match describeSnapshotsOutput with
  | Err err => ret (None, Some err)
  | Ok snapshots =>
      let snapshots := sort_Sort _ (sort_Reverse ByStartTime_Less) snapshots in
      match snapshots with
      | [] => ret (None, None)
      | s0 :: _ => ret (snap_SnapshotId s0, None)
      end
  end.

(* main.go:215: Name, filesystem, then the caller's tags in the order the
   map is ranged over, which Go leaves unspecified *)
Definition createVolume_tags (createName filesystem : string)
    (createTags : gmap string string) : list Tag :=
  [ {| tag_Key := "Name"; tag_Value := createName |};
    {| tag_Key := "filesystem"; tag_Value := filesystem |} ]
  ++ map (fun kv => {| tag_Key := fst kv; tag_Value := snd kv |}) (map_to_list createTags).

(* main.go:195 *)
Definition createVolume (createSize : Z) (createName createVolumeType : string)
    (createTags : gmap string string) (snapshotId : option string)
  : M S event (option string * option error) :=
  let filesystem : string :=
    match snapshotId with Some _ => "true" | None => "false" end in
  let createVolumeInput :=
    {| cvi_AvailabilityZone := AvailabilityZone awsAsgEbs;
       cvi_Size := createSize;
       cvi_VolumeType := createVolumeType;
       cvi_SnapshotId := snapshotId |} in
  let* r := ask (ec2_CreateVolume createVolumeInput) (ECreateVolume createVolumeInput) in
  match r with
  | Err err => ret (None, Some err)
  | Ok vol =>
      let createTagsInput :=
        {| cti_Resources := [vol_VolumeId vol];
           cti_Tags := createVolume_tags createName filesystem createTags |} in
      let* err := ask (ec2_CreateTags createTagsInput) (ECreateTags createTagsInput) in
      match err with
      | Some e => ret (vol_VolumeId vol, Some e)
      | None => ret (vol_VolumeId vol, None)
      end
  end.

(* main.go:246: whatever the waiter reports, the error returned is the
   program's own timeout value *)
Definition waitUntilVolumeAvailable (volumeId : string) : M S event (option error) :=
  let describeVolumeInput := {| dvi_Filters := []; dvi_VolumeIds := [volumeId] |} in
  let* err := ask (ec2_WaitUntilVolumeAvailable describeVolumeInput)
                  (EWaitUntilVolumeAvailable describeVolumeInput) in
  match err with
  | Some _ => ret (Some createFileSystemOnVolumeTimeout)
  | None => ret None
  end.

(* main.go:259 *)
Definition attachVolume (volumeId attachAs : string) (deleteOnTermination : bool)
  : M S event (option error) :=
  let attachVolumeInput :=
    {| avi_VolumeId := volumeId; avi_Device := attachAs;
       avi_InstanceId := InstanceId awsAsgEbs |} in
  let* err := ask (ec2_AttachVolume attachVolumeInput) (EAttachVolume attachVolumeInput) in
  match err with
  | Some e => ret (Some e)
  | None =>
      let describeVolumeInput := {| dvi_Filters := []; dvi_VolumeIds := [volumeId] |} in
      let* err := ask (ec2_WaitUntilVolumeInUse describeVolumeInput)
                      (EWaitUntilVolumeInUse describeVolumeInput) in
      match err with
      | Some e => ret (Some e)
      | None =>
          let* err :=
            if deleteOnTermination then
              let modifyInstanceAttributeInput :=
                {| mia_Attribute := "blockDeviceMapping";
                   mia_InstanceId := InstanceId awsAsgEbs;
                   mia_BlockDeviceMappings :=
                     [ {| bdm_DeviceName := attachAs;
                          bdm_Ebs := {| ebs_DeleteOnTermination := true;
                                        ebs_VolumeId := volumeId |} |} ] |} in
              ask (ec2_ModifyInstanceAttribute modifyInstanceAttributeInput)
                  (EModifyInstanceAttribute modifyInstanceAttributeInput)
            else ret None in
          match err with
          | Some e => ret (Some e)
          | None =>
              let* err := waitForFile stack ("/dev/" +:+ attachAs) (60 * Second) in
              match err with
              | Some e => ret (Some e)
              | None => ret None
              end
          end
      end
  end.

(* main.go:308 *)
Definition makeFileSystem (device : string) (mkfsInodeRatio : Z) (volumeId : string)
  : M S event (option error) :=
  let* err := run "/usr/sbin/mkfs.ext4" ["-i"%string; pretty mkfsInodeRatio; device] in
  match err with
  | Some e => ret (Some e)
  | None =>
      let tags := [ {| tag_Key := "filesystem"; tag_Value := "true" |} ] in
      let createTagsInput :=
        {| cti_Resources := [Some volumeId]; cti_Tags := tags |} in
      let* err := ask (ec2_CreateTags createTagsInput) (ECreateTags createTagsInput) in
      match err with
      | Some e => ret (Some e)
      | None => ret None
      end
  end.

(* main.go:332 *)
Definition mountVolume (device mountPoint : string) : M S event (option error) :=
  let* err := ask (os_MkdirAll mountPoint 493) (EMkdirAll mountPoint 493) in
  match err with
  | Some e => ret (Some e)
  | None => run "/bin/mount" [device; mountPoint]
  end.

(* main.go:340 *)
Definition checkDevice (device : string) : M S event (option error) :=
  let* err := ask (os_Stat device) (EStat device) in
  if negb (os_IsNotExist err) then ret (Some (errors_New "Device exists"))
  else ret None.

(* main.go:347 *)
Definition checkMountPoint (mountPoint : string) : M S event (option error) :=
  let* mounts := slurpFile "/proc/mounts" in
  if Contains mounts mountPoint then ret (Some (errors_New "Already mounted"))
  else ret None.

End Methods.
End Aws.

#[global] Instance AwsAsgEbs_AsgEbs {S : Type} {E : Env S} {sorter : GoSort}
    (stack : nat) (awsAsgEbs : AwsAsgEbs) : AsgEbs S :=
  {| checkDevice := Aws.checkDevice;
     checkMountPoint := Aws.checkMountPoint;
     findVolume := Aws.findVolume awsAsgEbs;
     attachVolume := Aws.attachVolume stack awsAsgEbs;
     findSnapshot := Aws.findSnapshot;
     createVolume := Aws.createVolume awsAsgEbs;
     mountVolume := Aws.mountVolume;
     makeFileSystem := Aws.makeFileSystem;
     waitUntilVolumeAvailable := Aws.waitUntilVolumeAvailable |}.

(** ** The orchestrator (main.go:378) *)

(* main.go:458: kingpin hands out non-nil pointers, so the fields are values *)
Record Config :=
  { cfg_tagKey : string;
    cfg_tagValue : string;
    cfg_attachAs : string;
    cfg_mountPoint : string;
    cfg_createSize : Z;
    cfg_mkfsInodeRatio : Z;
    cfg_createName : string;
    cfg_createVolumeType : string;
    cfg_createTags : gmap string string;
    cfg_deleteOnTermination : bool;
    cfg_snapshotName : string;
    cfg_maxRetries : Z }.

(** An invocation of an operation of [AsgEbs] by [runAsgEbs]: its arguments
    and how it ended. *)
Inductive call : Type :=
| CcheckDevice (device : string) (r : outcome (option error))
| CcheckMountPoint (mountPoint : string) (r : outcome (option error))
| CfindVolume (tagKey tagValue : string) (r : outcome (option string * option error))
| CattachVolume (volumeId attachAs : string) (deleteOnTermination : bool)
    (r : outcome (option error))
| CfindSnapshot (tagKey tagValue : string) (r : outcome (option string * option error))
| CcreateVolume (createSize : Z) (createName createVolumeType : string)
    (createTags : gmap string string) (snapshotId : option string)
    (r : outcome (option string * option error))
| CmountVolume (device mountPoint : string) (r : outcome (option error))
| CmakeFileSystem (device : string) (mkfsInodeRatio : Z) (volumeId : string)
    (r : outcome (option error))
| CwaitUntilVolumeAvailable (volumeId : string) (r : outcome (option error)).

(** The trace of a run: the invocations, what each implementation did
    within them, and the orchestrator's own log entries. *)
Inductive run_event : Type :=
| Invoke (c : call)
| Within (e : event)
| Logged (l : Level) (msg : string).

Definition invoke {St A} (c : outcome A -> call) (m : M St event A) : M St run_event A :=
  fun s => let '(o, s', t) := m s in (o, s', Invoke (c o) :: map Within t).

(* the invocations of a trace, in order *)
Fixpoint calls (t : list run_event) : list call :=
  match t with
  | [] => []
  | Invoke c :: t' => c :: calls t'
  | _ :: t' => calls t'
  end.

(* what the implementations did, in order *)
Fixpoint inner (t : list run_event) : list event :=
  match t with
  | [] => []
  | Within e :: t' => e :: inner t'
  | _ :: t' => inner t'
  end.

Section Orchestrator.
Context {St : Type} {impl : AsgEbs St}.
Variable cfg : Config.

Definition Log (l : Level) (msg : string) : M St run_event unit := emit (Logged l msg).

Definition Log_Fatal {A} (msg : string) : M St run_event A :=
  emit (Logged Fatal msg) ;; stop (Exited 1).

(* if err != nil { log...Fatal(msg) } *)
Definition fatalIf (err : option error) (msg : string) : M St run_event unit :=
  match err with
  | Some _ => Log_Fatal msg
  | None => ret tt
  end.

(* *p *)
Definition deref (p : option string) : M St run_event string :=
  match p with
  | Some v => ret v
  | None => stop (Panicked "invalid memory address or nil pointer dereference")
  end.

(* main.go:397-413, over the values i takes; volumeId is the variable
   the loop assigns *)
Fixpoint reuseLoop (attempts : list Z) (volumeId : option string)
  : M St run_event (option string) :=
  match attempts with
  | [] => ret volumeId
  | i :: attempts' =>
      let* (volumeId, err) :=
        invoke (CfindVolume (cfg_tagKey cfg) (cfg_tagValue cfg))
               (findVolume (cfg_tagKey cfg) (cfg_tagValue cfg)) in
      fatalIf err "Failed to find volume" ;;
      match volumeId with
      | None => ret None
      | Some v =>
          Log Info "Trying to attach existing volume" ;;
          let* err :=
            invoke (CattachVolume v (cfg_attachAs cfg) (cfg_deleteOnTermination cfg))
                   (attachVolume v (cfg_attachAs cfg) (cfg_deleteOnTermination cfg)) in
          match err with
          | Some _ => Log Warn "Failed to attach volume" ;; reuseLoop attempts' (Some v)
          | None => ret (Some v)
          end
      end
  end.

(* main.go:396-419: the volume and the snapshot the branch leaves *)
Definition acquire : M St run_event (option string * option string) :=
  if (cfg_snapshotName cfg =? EmptyString)%string then
    let* volumeId := reuseLoop (seqZ 1 10) None in
    ret (volumeId, None)
  else
    let* (snapshotId, err) :=
      invoke (CfindSnapshot "Name" (cfg_snapshotName cfg))
             (findSnapshot "Name" (cfg_snapshotName cfg)) in
    fatalIf err "Failed to find snapshot" ;;
    ret (None, snapshotId).

(* main.go:421-440: the volume and createFileSystemOnVolume *)
Definition provision (volumeId snapshotId : option string)
  : M St run_event (option string * bool) :=
  match volumeId with
  | Some _ => ret (volumeId, false)
  | None =>
      Log Info "Creating new volume" ;;
      let* (volumeId, err) :=
        invoke (CcreateVolume (cfg_createSize cfg) (cfg_createName cfg)
                  (cfg_createVolumeType cfg) (cfg_createTags cfg) snapshotId)
               (createVolume (cfg_createSize cfg) (cfg_createName cfg)
                  (cfg_createVolumeType cfg) (cfg_createTags cfg) snapshotId) in
      fatalIf err "Failed to create new volume" ;;
      let* v := deref volumeId in
      Log Info "Waiting until new volume is available" ;;
      let* err := invoke (CwaitUntilVolumeAvailable v) (waitUntilVolumeAvailable v) in
      fatalIf err "Waiting for volume timed out" ;;
      let createFileSystemOnVolume :=
        match snapshotId with None => true | Some _ => false end in
      Log Info "Attaching volume" ;;
      let* err :=
        invoke (CattachVolume v (cfg_attachAs cfg) (cfg_deleteOnTermination cfg))
               (attachVolume v (cfg_attachAs cfg) (cfg_deleteOnTermination cfg)) in
      fatalIf err "Failed to attach volume" ;;
      ret (volumeId, createFileSystemOnVolume)
  end.

(* main.go:442-455 *)
Definition finish (volumeId : option string) (createFileSystemOnVolume : bool)
  : M St run_event unit :=
  let attachAsDevice := "/dev/" +:+ cfg_attachAs cfg in
  (if createFileSystemOnVolume then
     Log Info "Creating file system on new volume" ;;
     let* v := deref volumeId in
     let* err :=
       invoke (CmakeFileSystem attachAsDevice (cfg_mkfsInodeRatio cfg) v)
              (makeFileSystem attachAsDevice (cfg_mkfsInodeRatio cfg) v) in
     fatalIf err "Failed to create file system"
   else ret tt) ;;
  Log Info "Mounting volume" ;;
  let* err :=
    invoke (CmountVolume attachAsDevice (cfg_mountPoint cfg))
           (mountVolume attachAsDevice (cfg_mountPoint cfg)) in
  fatalIf err "Failed to mount volume".

(* main.go:385-394 *)
Definition preconditions : M St run_event unit :=
  let attachAsDevice := "/dev/" +:+ cfg_attachAs cfg in
  let* err := invoke (CcheckDevice attachAsDevice) (checkDevice attachAsDevice) in
  fatalIf err "Device already exists" ;;
  let* err := invoke (CcheckMountPoint (cfg_mountPoint cfg))
                     (checkMountPoint (cfg_mountPoint cfg)) in
  fatalIf err "Already mounted".

(* main.go:378 *)
Definition runAsgEbs : M St run_event unit :=
  preconditions ;;
  let* (volumeId, snapshotId) := acquire in
  let* (volumeId, createFileSystemOnVolume) := provision volumeId snapshotId in
  finish volumeId createFileSystemOnVolume.

End Orchestrator.

(** ** The command line: tags for a new volume (main.go:354) *)

(* strings.Index: the offset of the first occurrence of [substr] in [s],
   [None] for Go's -1 *)
Fixpoint Index (s substr : string) : option nat :=
  if String.prefix substr s then Some 0%nat
  else match s with
       | EmptyString => None
       | String _ s' => option_map Datatypes.S (Index s' substr)
       end.

(* strings.SplitN for a separator that is not empty and a count that is not
   negative, which is how the program calls it: nil for a count of 0, else
   at most [n] pieces, the last of them the rest of [s] uncut *)
Fixpoint SplitN (s sep : string) (n : nat) : list string :=
  match n with
  | O => []
  | Datatypes.S O => [s]
  | Datatypes.S n' =>
      match Index s sep with
      | None => [s]
      | Some m =>
          String.substring 0 m s
          :: SplitN (String.substring (m + String.length sep)
                       (String.length s - (m + String.length sep)) s) sep n'
      end
  end.

(* fmt.Errorf *)
Definition fmt_Errorf (msg : string) : error := errorString msg.

(* main.go:356: the map is a reference in Go; here the map after the call is
   returned beside the error *)
Definition CreateTagsValue_Set (v : gmap string string) (str : string)
  : gmap string string * option error :=
  let parts := SplitN str "=" 2 in
  if negb (length parts =? 2)%nat then
    (v, Some (fmt_Errorf ("expected KEY=VALUE got '" +:+ str +:+ "'")))
  else
    let key := nth 0 parts EmptyString in
    let value := nth 1 parts EmptyString in
    (<[key := value]> v, None).

(* main.go:367 *)
Definition CreateTagsValue_String (v : gmap string string) : string := EmptyString.

(** ** Start-up (main.go:86, main.go:473)

    The instance metadata service is one more part of the outside world;
    the lookups and the log entries of the start-up come before the trace
    of the run. *)

Class Metadata (S : Type) : Type :=
  { ec2metadata_Region : S -> result string * S;
    ec2metadata_GetMetadata : string -> S -> result string * S }.

Inductive main_event : Type :=
| MRegion (r : result string)
| MGetMetadata (p : string) (r : result string)
| MLog (l : Level) (msg : string)
| MRun (e : run_event).

Section Startup.
Context {S : Type} {E : Env S} {sorter : GoSort} {metadata : Metadata S}.

(* if err != nil { log...Fatal(msg) }, then the value is used *)
Definition fatalUnless (r : result string) (msg : string) : M S main_event string :=
  match r with
  | Err _ => emit (MLog Fatal msg) ;; stop (Exited 1)
  | Ok v => ret v
  end.

(* main.go:86: the SDK configuration built at the end makes no request *)
Definition NewAwsAsgEbs (maxRetries : Z) : M S main_event AwsAsgEbs :=
  let* r := ask ec2metadata_Region MRegion in
  let* region := fatalUnless r "Failed to get region from instance metadata" in
  emit (MLog Info "Setting region") ;;
  let* r := ask (ec2metadata_GetMetadata "placement/availability-zone")
                (MGetMetadata "placement/availability-zone") in
  let* availabilityZone :=
    fatalUnless r "Failed to get availability zone from instance metadata" in
  emit (MLog Info "Setting availability zone") ;;
  let* r := ask (ec2metadata_GetMetadata "instance-id") (MGetMetadata "instance-id") in
  let* instanceId := fatalUnless r "Failed to get instance id from instance metadata" in
  emit (MLog Info "Setting instance id") ;;
  ret {| Region := region; AvailabilityZone := availabilityZone;
         InstanceId := instanceId |}.

(* the run, as part of main *)
Definition running {A} (m : M S run_event A) : M S main_event A :=
  fun s => let '(o, s', t) := m s in (o, s', map MRun t).

(* main.go:473, from the point where kingpin.Parse has filled [cfg] *)
Definition main (stack : nat) (cfg : Config) : M S main_event unit :=
  let* awsAsgEbs := NewAwsAsgEbs (cfg_maxRetries cfg) in
  running (runAsgEbs (impl := AwsAsgEbs_AsgEbs stack awsAsgEbs) cfg).

End Startup.

(** * The vocabulary of the statements *)

(** ** Substrings and the mount table *)

(* [sub] occurs in [s] *)
Definition occurs_in (sub s : string) : Prop :=
  exists pre post : string, s = pre +:+ sub +:+ post.

(* the text cut at every [c] *)
Fixpoint split_on (c : ascii) (s : string) : list string :=
  match s with
  | EmptyString => [EmptyString]
  | String a s' =>
      if Ascii.eqb a c then EmptyString :: split_on c s'
      else match split_on c s' with
           | [] => [String a EmptyString]
           | w :: ws => String a w :: ws
           end
  end.

(* proc(5): one mount per line, the fields of a line separated by a space;
   the first field is the device, the second the mount point *)
Definition mount_entries (table : string) : list (list string) :=
  map (split_on " "%char) (split_on "010"%char table).

Definition mount_fields (table : string) : list string :=
  concat (mount_entries table).

Definition mounted_at (table : string) : list string :=
  omap (fun entry => entry !! 1%nat) (mount_entries table).

(* the bytes [slurpFile] gets for the mount table in state [s] *)
Definition mounts_read {S : Type} {E : Env S} (s : S) : string :=
  fst (fst (ioutil_ReadFile "/proc/mounts" s)).

(** ** What the service's filters mean

    DescribeVolumes returns the volumes that satisfy every filter of the
    request; a filter is satisfied when one of its values fits. *)

Definition has_tag (v : Volume) (key value : string) : bool :=
  existsb (fun t => String.eqb (tag_Key t) key && String.eqb (tag_Value t) value)
          (vol_Tags v).

Definition filter_holds (f : Filter) (v : Volume) : bool :=
  match flt_Name f with
  | String "t" (String "a" (String "g" (String ":" key))) =>
      existsb (has_tag v key) (flt_Values f)
  | name =>
      if String.eqb name "status" then
        existsb (String.eqb (vol_State v)) (flt_Values f)
      else if String.eqb name "availability-zone" then
        existsb (String.eqb (vol_AvailabilityZone v)) (flt_Values f)
      else false
  end.

Definition satisfies (fs : list Filter) (v : Volume) : bool :=
  forallb (fun f => filter_holds f v) fs.

(* a volume findVolume is after: the tag asked for, a file system, free,
   and in the zone of the instance *)
Definition eligible (a : AwsAsgEbs) (tagKey tagValue : string) (v : Volume) : Prop :=
  has_tag v tagKey tagValue = true
  /\ has_tag v "filesystem" "true" = true
  /\ vol_State v = "available"%string
  /\ vol_AvailabilityZone v = AvailabilityZone a.

(** ** Requests and errors *)

(* the errors of an SDK waiter carry the code ResourceNotReady: "exceeded
   <n> wait attempts" when the attempts are used up, which is the deadline,
   and "failed waiting for successful resource state" when the resource
   reached a state the waiter gives up on, for a volume the state deleted *)
Definition deadline_elapsed (e : error) : Prop :=
  exists rest, e = awserr "ResourceNotReady" ("exceeded" +:+ rest).

Definition waitInput (volumeId : string) : DescribeVolumesInput :=
  {| dvi_Filters := []; dvi_VolumeIds := [volumeId] |}.

Definition createVolumeInput (a : AwsAsgEbs) (createSize : Z)
    (createVolumeType : string) (snapshotId : option string) : CreateVolumeInput :=
  {| cvi_AvailabilityZone := AvailabilityZone a;
     cvi_Size := createSize;
     cvi_VolumeType := createVolumeType;
     cvi_SnapshotId := snapshotId |}.

(* the value of the filesystem tag that goes with a snapshot id *)
Definition filesystem_for (snapshotId : option string) : string :=
  match snapshotId with Some _ => "true" | None => "false" end.

Definition createTagsInput (vol : Volume) (createName : string)
    (createTags : gmap string string) (snapshotId : option string) : CreateTagsInput :=
  {| cti_Resources := [vol_VolumeId vol];
     cti_Tags := Aws.createVolume_tags createName (filesystem_for snapshotId) createTags |}.

Definition mkfs_args (device : string) (mkfsInodeRatio : Z) : list string :=
  ["-i"%string; pretty mkfsInodeRatio; device].

(* the request makeFileSystem marks a formatted volume with *)
Definition formattedInput (volumeId : string) : CreateTagsInput :=
  {| cti_Resources := [Some volumeId];
     cti_Tags := [ {| tag_Key := "filesystem"; tag_Value := "true" |} ] |}.

(** ** Sorting *)

(* what sort.Sort promises for [less] on the slice [l]: the same elements,
   no element before one it is less than *)
Definition sorts {A} (sorter : GoSort) (less : A -> A -> bool) (l : list A) : Prop :=
  Permutation (sort_Sort (GoSort := sorter) A less l) l
  /\ Sorted (fun a b => less b a = false) (sort_Sort (GoSort := sorter) A less l).

Definition newest_first : Snapshot -> Snapshot -> bool := sort_Reverse ByStartTime_Less.

(** ** Polls of waitForFile *)

(* one poll: the clock is read, the file is looked for, the clock is read
   again.  In the states of [reach] a poll misses the file and takes time,
   at most [d] nanoseconds, and leads to such a state again *)
Definition polls_miss_within {S : Type} {E : Env S}
    (d : Duration) (file : string) (reach : S -> Prop) : Prop :=
  forall s : S, reach s ->
    let '(t0, s1) := time_Now s in
    let '(r, s2) := os_Stat file s1 in
    let '(t1, s3) := time_Now s2 in
    r <> None /\ t0 < t1 <= t0 + d /\ reach s3.

(* the instants at which the polls of a trace started *)
Fixpoint poll_starts (t : list event) : list Time :=
  match t with
  | ENow t0 :: EStat _ _ :: rest =>
      t0 :: match rest with
            | ENow _ :: t' => poll_starts t'
            | _ => []
            end
  | _ => []
  end.

(* the time the program measured for the polls of a trace *)
Fixpoint measured (t : list event) : Duration :=
  match t with
  | ENow t0 :: EStat _ _ :: ENow t1 :: t' => Time_Sub t1 t0 + measured t'
  | _ => 0
  end.

(* the answers to the existence checks of a trace *)
Fixpoint stats (t : list event) : list (option error) :=
  match t with
  | [] => []
  | EStat _ r :: t' => r :: stats t'
  | _ :: t' => stats t'
  end.

Definition not_found (file : string) : error :=
  errors_New ("File " +:+ file +:+ " not found").

(** ** Invocations of a run *)

Definition is_check (c : call) : Prop :=
  match c with
  | CcheckDevice _ _ | CcheckMountPoint _ _ => True
  | _ => False
  end.

Definition is_makeFileSystem (c : call) : Prop :=
  match c with
  | CmakeFileSystem _ _ _ _ => True
  | _ => False
  end.

Definition is_createVolume (c : call) : Prop :=
  match c with
  | CcreateVolume _ _ _ _ _ _ => True
  | _ => False
  end.

Definition is_findVolume (c : call) : Prop :=
  match c with
  | CfindVolume _ _ _ => True
  | _ => False
  end.

Definition is_mountVolume (c : call) : Prop :=
  match c with
  | CmountVolume _ _ _ => True
  | _ => False
  end.

Definition wait_or_attach (c : call) : Prop :=
  match c with
  | CwaitUntilVolumeAvailable _ _ | CattachVolume _ _ _ _ => True
  | _ => False
  end.

(* an attachVolume that returned nil *)
Definition attached (c : call) : Prop :=
  match c with
  | CattachVolume _ _ _ (Normal None) => True
  | _ => False
  end.

(* createFileSystemOnVolume, as main.go:432 sets it *)
Definition blank (snapshotId : option string) : bool :=
  match snapshotId with None => true | Some _ => false end.

Section Passes.
Variable cfg : Config.

(** One pass through the body of the reuse loop: findVolume, and
    attachVolume on the volume found when findVolume returned one and no
    error. *)
Inductive iteration : list call -> Prop :=
| iteration_no_match r :
    (forall v, r <> Normal (Some v, None)) ->
    iteration [CfindVolume (cfg_tagKey cfg) (cfg_tagValue cfg) r]
| iteration_match v r :
    iteration [CfindVolume (cfg_tagKey cfg) (cfg_tagValue cfg) (Normal (Some v, None));
               CattachVolume v (cfg_attachAs cfg) (cfg_deleteOnTermination cfg) r].

(* a pass whose volume could not be attached *)
Definition lost (it : list call) : Prop :=
  exists v e,
    it = [CfindVolume (cfg_tagKey cfg) (cfg_tagValue cfg) (Normal (Some v, None));
          CattachVolume v (cfg_attachAs cfg) (cfg_deleteOnTermination cfg)
            (Normal (Some e))].

End Passes.

Section Shapes.
Variable cfg : Config.

Definition attachAsDevice : string := "/dev/" +:+ cfg_attachAs cfg.

(* the search: the passes of the reuse loop, or the one snapshot lookup *)
Definition found_shape (found made done : list call) : Prop :=
  if (cfg_snapshotName cfg =? EmptyString)%string then
    exists passes,
      found = concat passes
      /\ (length passes <= 10)%nat
      /\ Forall (iteration cfg) passes
      /\ (Forall (lost cfg) passes -> length passes = 10%nat ->
          made = []
          /\ exists r, done = [CmountVolume attachAsDevice (cfg_mountPoint cfg) r])
  else found = []
       \/ exists r, found = [CfindSnapshot "Name" (cfg_snapshotName cfg) r].

(* the creation: absent, or createVolume and then the wait and the
   attachment, after a search in which nothing was attached; what follows
   an attachment depends on the snapshot id createVolume was given *)
Definition made_shape (found made done : list call) : Prop :=
  made = []
  \/ exists snapshotId r rest,
       made = CcreateVolume (cfg_createSize cfg) (cfg_createName cfg)
                (cfg_createVolumeType cfg) (cfg_createTags cfg) snapshotId r :: rest
       /\ Forall wait_or_attach rest
       /\ ~ Exists attached found
       /\ ((cfg_snapshotName cfg =? EmptyString)%string = true -> snapshotId = None)
       /\ (forall v a d r', In (CattachVolume v a d r') rest ->
             a = cfg_attachAs cfg /\ d = cfg_deleteOnTermination cfg)
       /\ (if blank snapshotId then
            forall v,
              In (CattachVolume v (cfg_attachAs cfg) (cfg_deleteOnTermination cfg)
                    (Normal None)) rest ->
              exists r' done',
                done = CmakeFileSystem attachAsDevice (cfg_mkfsInodeRatio cfg) v r'
                         :: done'
                /\ Forall is_mountVolume done'
          else Forall is_mountVolume done)
       /\ (~ Exists attached rest -> done = []).

Definition run_shape (cs : list call) : Prop :=
  exists checks found made done,
    cs = checks ++ found ++ made ++ done
    /\ Forall is_check checks
    /\ found_shape found made done
    /\ made_shape found made done
    /\ (made = [] -> Forall is_mountVolume done).

End Shapes.

(** ** More about the polls of waitForFile *)

(* in the states of [reach], the file is not there and the clock shows no
   time passing over a poll; a poll leads to such a state again *)
Definition polls_stand_still {S : Type} {E : Env S}
    (file : string) (reach : S -> Prop) : Prop :=
  forall s : S, reach s ->
    let '(t0, s1) := time_Now s in
    let '(r, s2) := os_Stat file s1 in
    let '(t1, s3) := time_Now s2 in
    r <> None /\ t1 = t0 /\ reach s3.


(** ** Requests of attachVolume *)

Definition attachVolumeInput (a : AwsAsgEbs) (volumeId attachAs : string)
  : AttachVolumeInput :=
  {| avi_VolumeId := volumeId; avi_Device := attachAs;
     avi_InstanceId := InstanceId a |}.

Definition modifyInstanceAttributeInput (a : AwsAsgEbs) (volumeId attachAs : string)
  : ModifyInstanceAttributeInput :=
  {| mia_Attribute := "blockDeviceMapping";
     mia_InstanceId := InstanceId a;
     mia_BlockDeviceMappings :=
       [ {| bdm_DeviceName := attachAs;
            bdm_Ebs := {| ebs_DeleteOnTermination := true;
                          ebs_VolumeId := volumeId |} |} ] |}.

(* the error the service answered a request with *)
Definition refusal (e : event) : option error :=
  match e with
  | EDescribeVolumes _ (Err err) | EDescribeSnapshots _ (Err err)
  | ECreateVolume _ (Err err) => Some err
  | ECreateTags _ r | EDeleteVolume _ r | EWaitUntilVolumeAvailable _ r
  | EAttachVolume _ r | EWaitUntilVolumeInUse _ r
  | EModifyInstanceAttribute _ r => r
  | _ => None
  end.

(* a reading of the clock or a look for [file] *)
Definition is_poll (file : string) (e : event) : Prop :=
  match e with
  | ENow _ => True
  | EStat name _ => name = file
  | _ => False
  end.

(** ** The course of a run

    What the invocations of a run can be, phase by phase, and how the run
    ends with them. *)

Definition nil_dereference : string := "invalid memory address or nil pointer dereference".

Definition find_call (cfg : Config) (r : outcome (option string * option error)) : call :=
  CfindVolume (cfg_tagKey cfg) (cfg_tagValue cfg) r.

Definition attach_call (cfg : Config) (v : string) (r : outcome (option error)) : call :=
  CattachVolume v (cfg_attachAs cfg) (cfg_deleteOnTermination cfg) r.

Definition snapshot_call (cfg : Config) (r : outcome (option string * option error))
  : call :=
  CfindSnapshot "Name" (cfg_snapshotName cfg) r.

Definition create_call (cfg : Config) (snapshotId : option string)
    (r : outcome (option string * option error)) : call :=
  CcreateVolume (cfg_createSize cfg) (cfg_createName cfg) (cfg_createVolumeType cfg)
    (cfg_createTags cfg) snapshotId r.

Definition format_call (cfg : Config) (v : string) (r : outcome (option error)) : call :=
  CmakeFileSystem (attachAsDevice cfg) (cfg_mkfsInodeRatio cfg) v r.

Definition mount_call (cfg : Config) (r : outcome (option error)) : call :=
  CmountVolume (attachAsDevice cfg) (cfg_mountPoint cfg) r.

(* a computation that did not return ends the one around it the same way *)
Definition passes_on {A B} (r : outcome A) (o : outcome B) : Prop :=
  match r, o with
  | Exited c, Exited c' => c = c'
  | Panicked m, Panicked m' => m = m'
  | StackOverflow, StackOverflow => True
  | _, _ => False
  end.

(* the invocation returned an error, which the run answers with log.Fatal,
   or it did not return *)
Definition fatal_err {B} (r : outcome (option error)) (o : outcome B) : Prop :=
  match r with
  | Normal (Some _) => o = Exited 1
  | Normal None => False
  | _ => passes_on r o
  end.

Definition fatal_pair {B} (r : outcome (option string * option error)) (o : outcome B)
  : Prop :=
  match r with
  | Normal (_, Some _) => o = Exited 1
  | Normal (_, None) => False
  | _ => passes_on r o
  end.

(* an invocation that returned an error *)
Definition errored (c : call) : Prop :=
  match c with
  | CcheckDevice _ (Normal (Some _)) | CcheckMountPoint _ (Normal (Some _))
  | CattachVolume _ _ _ (Normal (Some _)) | CmountVolume _ _ (Normal (Some _))
  | CmakeFileSystem _ _ _ (Normal (Some _))
  | CwaitUntilVolumeAvailable _ (Normal (Some _))
  | CfindVolume _ _ (Normal (_, Some _)) | CfindSnapshot _ _ (Normal (_, Some _))
  | CcreateVolume _ _ _ _ _ (Normal (_, Some _)) => True
  | _ => False
  end.

Section Course.
Variable cfg : Config.

Inductive checks_course : list call -> outcome unit -> Prop :=
| checks_device r o :
    fatal_err r o ->
    checks_course [CcheckDevice (attachAsDevice cfg) r] o
| checks_mounts r o :
    fatal_err r o ->
    checks_course [CcheckDevice (attachAsDevice cfg) (Normal None);
                   CcheckMountPoint (cfg_mountPoint cfg) r] o
| checks_passed :
    checks_course [CcheckDevice (attachAsDevice cfg) (Normal None);
                   CcheckMountPoint (cfg_mountPoint cfg) (Normal None)] (Normal tt).

(* the reuse loop with [n] passes to go and [volumeId] in the variable *)
Inductive loop_course
  : nat -> option string -> list call -> outcome (option string) -> Prop :=
| loop_over volumeId :
    loop_course 0 volumeId [] (Normal volumeId)
| loop_stopped n volumeId r o :
    fatal_pair r o ->
    loop_course (Datatypes.S n) volumeId [find_call cfg r] o
| loop_nothing n volumeId :
    loop_course (Datatypes.S n) volumeId [find_call cfg (Normal (None, None))] (Normal None)
| loop_attached n volumeId v :
    loop_course (Datatypes.S n) volumeId
      [find_call cfg (Normal (Some v, None)); attach_call cfg v (Normal None)]
      (Normal (Some v))
| loop_broken n volumeId v r o :
    passes_on r o ->
    loop_course (Datatypes.S n) volumeId
      [find_call cfg (Normal (Some v, None)); attach_call cfg v r] o
| loop_lost n volumeId v e cs o :
    loop_course n (Some v) cs o ->
    loop_course (Datatypes.S n) volumeId
      (find_call cfg (Normal (Some v, None))
       :: attach_call cfg v (Normal (Some e)) :: cs) o.

Inductive search_course
  : list call -> outcome (option string * option string) -> Prop :=
| search_reuse cs volumeId :
    (cfg_snapshotName cfg =? EmptyString)%string = true ->
    loop_course 10 None cs (Normal volumeId) ->
    search_course cs (Normal (volumeId, None))
| search_reuse_stopped cs o' o :
    (cfg_snapshotName cfg =? EmptyString)%string = true ->
    loop_course 10 None cs o' ->
    passes_on o' o ->
    search_course cs o
| search_snapshot snapshotId :
    (cfg_snapshotName cfg =? EmptyString)%string = false ->
    search_course [snapshot_call cfg (Normal (snapshotId, None))]
      (Normal (None, snapshotId))
| search_snapshot_stopped r o :
    (cfg_snapshotName cfg =? EmptyString)%string = false ->
    fatal_pair r o ->
    search_course [snapshot_call cfg r] o.

Inductive creation_course (snapshotId : option string)
  : option string -> list call -> outcome (option string * bool) -> Prop :=
| creation_skipped v :
    creation_course snapshotId (Some v) [] (Normal (Some v, false))
| creation_stopped r o :
    fatal_pair r o ->
    creation_course snapshotId None [create_call cfg snapshotId r] o
| creation_no_id :
    creation_course snapshotId None
      [create_call cfg snapshotId (Normal (None, None))]
      (Panicked nil_dereference)
| creation_wait_stopped v r o :
    fatal_err r o ->
    creation_course snapshotId None
      [create_call cfg snapshotId (Normal (Some v, None));
       CwaitUntilVolumeAvailable v r] o
| creation_attach_stopped v r o :
    fatal_err r o ->
    creation_course snapshotId None
      [create_call cfg snapshotId (Normal (Some v, None));
       CwaitUntilVolumeAvailable v (Normal None);
       attach_call cfg v r] o
| creation_attached v :
    creation_course snapshotId None
      [create_call cfg snapshotId (Normal (Some v, None));
       CwaitUntilVolumeAvailable v (Normal None);
       attach_call cfg v (Normal None)]
      (Normal (Some v, blank snapshotId)).

(* how the run ends on mountVolume *)
Definition mount_end (r : outcome (option error)) (o : outcome unit) : Prop :=
  match r with
  | Normal None => o = Normal tt
  | _ => fatal_err r o
  end.

Inductive ending_course
  : option string -> bool -> list call -> outcome unit -> Prop :=
| ending_no_id :
    ending_course None true [] (Panicked nil_dereference)
| ending_format_stopped v r o :
    fatal_err r o ->
    ending_course (Some v) true [format_call cfg v r] o
| ending_formatted v r o :
    mount_end r o ->
    ending_course (Some v) true [format_call cfg v (Normal None); mount_call cfg r] o
| ending_mounted volumeId r o :
    mount_end r o ->
    ending_course volumeId false [mount_call cfg r] o.

Inductive run_course : list call -> outcome unit -> Prop :=
| run_checks cs o :
    checks_course cs o -> o <> Normal tt ->
    run_course cs o
| run_search cs0 cs1 o1 o :
    checks_course cs0 (Normal tt) ->
    search_course cs1 o1 -> passes_on o1 o ->
    run_course (cs0 ++ cs1) o
| run_creation cs0 cs1 volumeId snapshotId cs2 o2 o :
    checks_course cs0 (Normal tt) ->
    search_course cs1 (Normal (volumeId, snapshotId)) ->
    creation_course snapshotId volumeId cs2 o2 -> passes_on o2 o ->
    run_course (cs0 ++ cs1 ++ cs2) o
| run_ending cs0 cs1 volumeId snapshotId cs2 volumeId' fs cs3 o :
    checks_course cs0 (Normal tt) ->
    search_course cs1 (Normal (volumeId, snapshotId)) ->
    creation_course snapshotId volumeId cs2 (Normal (volumeId', fs)) ->
    ending_course volumeId' fs cs3 o ->
    run_course (cs0 ++ cs1 ++ cs2 ++ cs3) o.

End Course.

(** The operation an invocation is of. *)
Inductive operation : Type :=
| CheckDevice | CheckMountPoint | FindVolume | AttachVolume | FindSnapshot
| CreateVolume | MountVolume | MakeFileSystem | WaitUntilVolumeAvailable.

Definition operation_of (c : call) : operation :=
  match c with
  | CcheckDevice _ _ => CheckDevice
  | CcheckMountPoint _ _ => CheckMountPoint
  | CfindVolume _ _ _ => FindVolume
  | CattachVolume _ _ _ _ => AttachVolume
  | CfindSnapshot _ _ _ => FindSnapshot
  | CcreateVolume _ _ _ _ _ _ => CreateVolume
  | CmountVolume _ _ _ => MountVolume
  | CmakeFileSystem _ _ _ _ => MakeFileSystem
  | CwaitUntilVolumeAvailable _ _ => WaitUntilVolumeAvailable
  end.

(* every invocation of the list is of one of the operations [ops] *)
Definition only (ops : list operation) (cs : list call) : Prop :=
  Forall (fun c => In (operation_of c) ops) cs.

Definition not_mounting : list operation :=
  [CheckDevice; CheckMountPoint; FindVolume; AttachVolume; FindSnapshot;
   CreateVolume; WaitUntilVolumeAvailable; MakeFileSystem].





(** ** What a run over AWS may do

    The requests, file-system calls and commands that fit the configuration
    [cfg] on the instance [a]. *)
Definition footprint (cfg : Config) (a : AwsAsgEbs) (e : event) : Prop :=
  match e with
  | EDescribeVolumes i _ =>
      i = Aws.findVolume_params a (cfg_tagKey cfg) (cfg_tagValue cfg)
  | EDescribeSnapshots i _ =>
      i = Aws.describeSnapshotsInput "Name" (cfg_snapshotName cfg)
  | ECreateVolume i _ =>
      exists snapshotId,
        i = createVolumeInput a (cfg_createSize cfg) (cfg_createVolumeType cfg) snapshotId
  | ECreateTags i _ =>
      (exists vol snapshotId,
          i = createTagsInput vol (cfg_createName cfg) (cfg_createTags cfg) snapshotId)
      \/ exists v, i = formattedInput v
  | EDeleteVolume _ _ => False
  | EWaitUntilVolumeAvailable i _ | EWaitUntilVolumeInUse i _ =>
      exists v, i = waitInput v
  | EAttachVolume i _ =>
      exists v, i = attachVolumeInput a v (cfg_attachAs cfg)
  | EModifyInstanceAttribute i _ =>
      cfg_deleteOnTermination cfg = true
      /\ exists v, i = modifyInstanceAttributeInput a v (cfg_attachAs cfg)
  | EStat name _ => name = attachAsDevice cfg
  | EReadFile name _ => name = "/proc/mounts"%string
  | EMkdirAll path perm _ => path = cfg_mountPoint cfg /\ perm = 493
  | ECombinedOutput cmd args _ =>
      (cmd = "/usr/sbin/mkfs.ext4"%string
       /\ args = mkfs_args (attachAsDevice cfg) (cfg_mkfsInodeRatio cfg))
      \/ (cmd = "/bin/mount"%string
          /\ args = [attachAsDevice cfg; cfg_mountPoint cfg])
  | ENow _ => True
  | ELog l _ => l = Info
  end.

(* every event of the computation satisfies [P] *)
Definition emits {St Ev A} (P : Ev -> Prop) (m : M St Ev A) : Prop :=
  forall s, Forall P (snd (m s)).

(* what happens on the machine itself *)
Definition on_the_machine (e : event) : bool :=
  match e with
  | EStat _ _ | EReadFile _ _ | EMkdirAll _ _ _ | ECombinedOutput _ _ _ => true
  | _ => false
  end.

(* the events of the operations, and nothing about the rest of the trace *)
Definition inside (Q : event -> Prop) (e : run_event) : Prop :=
  match e with
  | Within e' => Q e'
  | _ => True
  end.

(** ** Start-up *)

(* a lookup the metadata service answered with an error *)
Definition lookup_failed (e : main_event) : Prop :=
  match e with
  | MRegion (Err _) | MGetMetadata _ (Err _) => True
  | _ => False
  end.

(* the part of a trace of main that belongs to the run *)
Fixpoint of_run (t : list main_event) : list run_event :=
  match t with
  | [] => []
  | MRun e :: t' => e :: of_run t'
  | _ :: t' => of_run t'
  end.

(* the lookups of a trace of main, in order: what was asked for *)
Fixpoint lookups (t : list main_event) : list string :=
  match t with
  | [] => []
  | MRegion _ :: t' => "region"%string :: lookups t'
  | MGetMetadata p _ :: t' => p :: lookups t'
  | _ :: t' => lookups t'
  end.

(** * Environments to run the program in

    A pool of volumes and snapshots that does not change, a mount table, a
    clock that advances by [fk_tick] at every reading, a set of files that
    gains the device node when an attachment succeeds, and a choice of calls
    that fail. *)

Module Fake.

Record world :=
  { fk_volumes : list Volume;
    fk_snapshots : list Snapshot;
    fk_mounts : string;
    fk_tick : Duration;
    fk_fail : string -> option error }.

Record state := { clock : Time; files : list string }.

Definition answer (w : world) (name : string) : state -> option error * state :=
  fun s => (fk_fail w name, s).

Definition env (w : world) : Env state :=
  {| ec2_DescribeVolumes i s :=
       (match fk_fail w "DescribeVolumes" with
        | Some e => Err e
        | None => Ok (filter (fun v => satisfies (dvi_Filters i) v = true) (fk_volumes w))
        end, s);
     ec2_DescribeSnapshots i s :=
       (match fk_fail w "DescribeSnapshots" with
        | Some e => Err e
        | None => Ok (fk_snapshots w)
        end, s);
     ec2_CreateVolume i s :=
       (match fk_fail w "CreateVolume" with
        | Some e => Err e
        | None => Ok {| vol_VolumeId := Some "vol-new"%string;
                        vol_AvailabilityZone := cvi_AvailabilityZone i;
                        vol_State := "creating";
                        vol_Tags := [] |}
        end, s);
     ec2_CreateTags _ := answer w "CreateTags";
     ec2_WaitUntilVolumeAvailable _ := answer w "WaitUntilVolumeAvailable";
     ec2_AttachVolume i s :=
       match fk_fail w "AttachVolume" with
       | Some e => (Some e, s)
       | None => (None, {| clock := clock s;
                           files := ("/dev/" +:+ avi_Device i) :: files s |})
       end;
     ec2_WaitUntilVolumeInUse _ := answer w "WaitUntilVolumeInUse";
     ec2_ModifyInstanceAttribute _ := answer w "ModifyInstanceAttribute";
     os_Stat name s :=
       (if bool_decide (name ∈ files s) then None
        else Some (PathError "stat" name true), s);
     ioutil_ReadFile name s :=
       (if String.eqb name "/proc/mounts" then (fk_mounts w, None)
        else (EmptyString, Some (PathError "open" name true)), s);
     os_MkdirAll _ _ := answer w "MkdirAll";
     exec_CombinedOutput cmd _ s := ((EmptyString, fk_fail w cmd), s);
     time_Now s := (clock s, {| clock := clock s + fk_tick w; files := files s |}) |}.

(* an insertion sort: one routine that meets the contract of sort.Sort *)
Fixpoint insert {A} (less : A -> A -> bool) (x : A) (l : list A) : list A :=
  match l with
  | [] => [x]
  | y :: l' => if less y x then y :: insert less x l' else x :: l
  end.

Definition sort : GoSort :=
  fun A less l => foldr (insert less) [] l.

Definition nothing_fails : string -> option error := fun _ => None.

Definition fails (name : string) (e : error) : string -> option error :=
  fun n => if String.eqb n name then Some e else None.

Definition me : AwsAsgEbs :=
  {| Region := "us-east-1"; AvailabilityZone := "us-east-1a";
     InstanceId := "i-0123456789" |}.

Definition cfg : Config :=
  {| cfg_tagKey := "env"; cfg_tagValue := "prod"; cfg_attachAs := "xvdb";
     cfg_mountPoint := "/data"; cfg_createSize := 20;
     cfg_mkfsInodeRatio := 16384; cfg_createName := "prod-data";
     cfg_createVolumeType := "gp2"; cfg_createTags := ∅;
     cfg_deleteOnTermination := false; cfg_snapshotName := EmptyString;
     cfg_maxRetries := 20 |}.

Definition prod_volume (id : string) : Volume :=
  {| vol_VolumeId := Some id; vol_AvailabilityZone := "us-east-1a";
     vol_State := "available";
     vol_Tags := [ {| tag_Key := "env"; tag_Value := "prod" |};
                   {| tag_Key := "filesystem"; tag_Value := "true" |} ] |}.

Definition quiet : world :=
  {| fk_volumes := []; fk_snapshots := [];
     fk_mounts := "/dev/xvda1 / ext4 rw 0 0"; fk_tick := Second;
     fk_fail := nothing_fails |}.

Definition boot : state := {| clock := 0; files := [] |}.

(* the program over this environment, on a stack of a hundred frames of
   waitForFile *)
Definition run_in (w : world) (c : Config) (s : state)
  : outcome unit * state * list run_event :=
  runAsgEbs (impl := AwsAsgEbs_AsgEbs (E := env w) (sorter := sort) 100 me) c s.

End Fake.

Definition data2_mounted : Fake.world :=
  {| Fake.fk_volumes := []; Fake.fk_snapshots := [];
     Fake.fk_mounts :=
       "/dev/xvda1 / ext4 rw 0 0" +:+ String "010" "/dev/xvdf /data2 ext4 rw 0 0";
     Fake.fk_tick := Second; Fake.fk_fail := Fake.nothing_fails |}.

(* the volume is deleted while the program waits for it *)
Definition volume_deleted : Fake.world :=
  {| Fake.fk_volumes := []; Fake.fk_snapshots := [];
     Fake.fk_mounts := EmptyString; Fake.fk_tick := Second;
     Fake.fk_fail :=
       Fake.fails "WaitUntilVolumeAvailable"
         (awserr "ResourceNotReady" "failed waiting for successful resource state") |}.

(* the requests of the waiter are refused *)
Definition unauthorized : Fake.world :=
  {| Fake.fk_volumes := []; Fake.fk_snapshots := [];
     Fake.fk_mounts := EmptyString; Fake.fk_tick := Second;
     Fake.fk_fail :=
       Fake.fails "WaitUntilVolumeAvailable"
         (awserr "UnauthorizedOperation"
                 "You are not authorized to perform this operation.") |}.

Definition tagging_refused : Fake.world :=
  {| Fake.fk_volumes := []; Fake.fk_snapshots := [];
     Fake.fk_mounts := EmptyString; Fake.fk_tick := Second;
     Fake.fk_fail :=
       Fake.fails "CreateTags" (awserr "RequestLimitExceeded" "Request limit exceeded.") |}.

Definition other_zone : Fake.world :=
  {| Fake.fk_volumes :=
       [ {| vol_VolumeId := Some "vol-1"%string; vol_AvailabilityZone := "us-east-1b";
            vol_State := "available";
            vol_Tags := [ {| tag_Key := "env"; tag_Value := "prod" |};
                          {| tag_Key := "filesystem"; tag_Value := "true" |} ] |};
         {| vol_VolumeId := Some "vol-2"%string; vol_AvailabilityZone := "us-east-1a";
            vol_State := "in-use";
            vol_Tags := [ {| tag_Key := "env"; tag_Value := "prod" |};
                          {| tag_Key := "filesystem"; tag_Value := "true" |} ] |};
         {| vol_VolumeId := Some "vol-3"%string; vol_AvailabilityZone := "us-east-1a";
            vol_State := "available";
            vol_Tags := [ {| tag_Key := "env"; tag_Value := "prod" |};
                          {| tag_Key := "filesystem"; tag_Value := "false" |} ] |} ];
     Fake.fk_snapshots := []; Fake.fk_mounts := EmptyString; Fake.fk_tick := Second;
     Fake.fk_fail := Fake.nothing_fails |}.

Definition nightly : list Snapshot :=
  [ {| snap_SnapshotId := Some "snap-mon"%string; snap_StartTime := 1000 |};
    {| snap_SnapshotId := Some "snap-wed"%string; snap_StartTime := 3000 |};
    {| snap_SnapshotId := Some "snap-tue"%string; snap_StartTime := 2000 |} ].

Definition three_snapshots : Fake.world :=
  {| Fake.fk_volumes := []; Fake.fk_snapshots := nightly;
     Fake.fk_mounts := EmptyString; Fake.fk_tick := Second;
     Fake.fk_fail := Fake.nothing_fails |}.

Definition contended : Fake.world :=
  {| Fake.fk_volumes := [Fake.prod_volume "vol-1"]; Fake.fk_snapshots := [];
     Fake.fk_mounts := "/dev/xvda1 / ext4 rw 0 0"; Fake.fk_tick := Second;
     Fake.fk_fail :=
       Fake.fails "AttachVolume"
         (awserr "VolumeInUse" "vol-1 is already attached to an instance") |}.

Definition attach_refused : Fake.world :=
  {| Fake.fk_volumes := []; Fake.fk_snapshots := [];
     Fake.fk_mounts := "/dev/xvda1 / ext4 rw 0 0"; Fake.fk_tick := Second;
     Fake.fk_fail :=
       Fake.fails "AttachVolume"
         (awserr "AttachmentLimitExceeded" "Attachment limit exceeded.") |}.

Definition one_volume : Fake.world :=
  {| Fake.fk_volumes := [Fake.prod_volume "vol-1"]; Fake.fk_snapshots := [];
     Fake.fk_mounts := "/dev/xvda1 / ext4 rw 0 0"; Fake.fk_tick := Second;
     Fake.fk_fail := Fake.nothing_fails |}.

Definition restore_cfg : Config :=
  {| cfg_tagKey := "env"; cfg_tagValue := "prod"; cfg_attachAs := "xvdb";
     cfg_mountPoint := "/data"; cfg_createSize := 20;
     cfg_mkfsInodeRatio := 16384; cfg_createName := "prod-data";
     cfg_createVolumeType := "gp2"; cfg_createTags := ∅;
     cfg_deleteOnTermination := true; cfg_snapshotName := "nightly-backup";
     cfg_maxRetries := 20 |}.

Definition device_present : Fake.state :=
  {| Fake.clock := 0; Fake.files := ["/dev/xvdb"%string] |}.

(* a machine on which a reading of the clock is a microsecond after the one
   before, so that a poll takes a microsecond *)
Definition fast_polls : Fake.world :=
  {| Fake.fk_volumes := []; Fake.fk_snapshots := [];
     Fake.fk_mounts := EmptyString; Fake.fk_tick := 1000;
     Fake.fk_fail := Fake.nothing_fails |}.

(* a stack that holds eight million frames of waitForFile: the gigabyte Go
   allows a goroutine, at 125 bytes a frame *)
Definition deep_stack : nat := Z.to_nat 8000000.

(** ** More environments *)

(* a clock that stands still *)
Definition frozen : Fake.world :=
  {| Fake.fk_volumes := []; Fake.fk_snapshots := [];
     Fake.fk_mounts := EmptyString; Fake.fk_tick := 0;
     Fake.fk_fail := Fake.nothing_fails |}.

(* the pool lists a volume of another tag before the one sought *)
Definition two_pools : Fake.world :=
  {| Fake.fk_volumes :=
       [ {| vol_VolumeId := Some "vol-0"%string; vol_AvailabilityZone := "us-east-1a";
            vol_State := "available";
            vol_Tags := [ {| tag_Key := "env"; tag_Value := "test" |};
                          {| tag_Key := "filesystem"; tag_Value := "true" |} ] |};
         Fake.prod_volume "vol-1"; Fake.prod_volume "vol-2" ];
     Fake.fk_snapshots := [];
     Fake.fk_mounts := "/dev/xvda1 / ext4 rw 0 0"; Fake.fk_tick := Second;
     Fake.fk_fail := Fake.nothing_fails |}.

Definition team_tags : gmap string string := {[ "team"%string := "storage"%string ]}.

Definition clashing_tags : gmap string string :=
  {[ "filesystem"%string := "xfs"%string ]}.


(* the snapshots of [nightly], listed the other way round *)
Definition nightly_reversed : Fake.world :=
  {| Fake.fk_volumes := []; Fake.fk_snapshots := rev nightly;
     Fake.fk_mounts := EmptyString; Fake.fk_tick := Second;
     Fake.fk_fail := Fake.nothing_fails |}.

(* an implementation whose operations find nothing and fail nowhere, and
   whose createVolume returns neither an id nor an error *)
Definition absent_minded : AsgEbs unit :=
  {| checkDevice _ := ret None;
     checkMountPoint _ := ret None;
     findVolume _ _ := ret (None, None);
     attachVolume _ _ _ := ret None;
     findSnapshot _ _ := ret (None, None);
     createVolume _ _ _ _ _ := ret (None, None);
     mountVolume _ _ := ret None;
     makeFileSystem _ _ _ := ret None;
     waitUntilVolumeAvailable _ := ret None |}.

(* a metadata service for the instance [Fake.me], refusing what [refuse]
   names *)
Definition fake_metadata (refuse : string -> option error) : Metadata Fake.state :=
  {| ec2metadata_Region s :=
       (match refuse "region" with
        | Some e => Err e
        | None => Ok (Region Fake.me)
        end, s);
     ec2metadata_GetMetadata p s :=
       (match refuse p with
        | Some e => Err e
        | None =>
            Ok (if String.eqb p "placement/availability-zone"
                then AvailabilityZone Fake.me else InstanceId Fake.me)
        end, s) |}.

Definition no_zone : string -> option error :=
  Fake.fails "placement/availability-zone"
    (awserr "EC2MetadataRequestError" "failed to make EC2Metadata request").

(** * Proofs *)

(** ** Strings *)

Lemma append_cons (a : ascii) (s t : string) :
  String a s +:+ t = String a (s +:+ t).
Proof. reflexivity. Qed.

Lemma append_assoc (s t u : string) : (s +:+ t) +:+ u = s +:+ (t +:+ u).
Proof.
  induction s as [|a s IH]; [reflexivity|].
  rewrite !append_cons, IH. reflexivity.
Qed.

Lemma prefix_occurs (p s : string) :
  String.prefix p s = true <-> exists post, s = p +:+ post.
Proof.
  revert s; induction p as [|a p IH]; intros [|b s]; simpl.
  - split; [intros _; exists EmptyString; reflexivity | reflexivity].
  - split; [intros _; exists (String b s); reflexivity | reflexivity].
  - split; [discriminate | intros [post Hp]; discriminate].
  - destruct (ascii_dec a b) as [->|Hab].
    + rewrite IH. split; intros [post Hp]; exists post.
      * now rewrite Hp.
      * now injection Hp.
    + split; [discriminate | intros [post Hp]; injection Hp; congruence].
Qed.

Lemma Contains_unfold (s sub : string) :
  Contains s sub =
  if String.prefix sub s then true
  else match s with
       | EmptyString => false
       | String _ s' => Contains s' sub
       end.
Proof. destruct s; reflexivity. Qed.

Lemma Contains_occurs (s sub : string) :
  Contains s sub = true <-> occurs_in sub s.
Proof.
  induction s as [|a s IH]; rewrite Contains_unfold.
  - destruct (String.prefix sub EmptyString) eqn:Hp.
    + split; [intros _ | reflexivity].
      apply prefix_occurs in Hp as [post Hp]. exists EmptyString, post. exact Hp.
    + split; [discriminate|]. intros (pre & post & Heq).
      destruct pre; simpl in Heq; [|discriminate].
      assert (String.prefix sub EmptyString = true) by (apply prefix_occurs; eauto).
      congruence.
  - destruct (String.prefix sub (String a s)) eqn:Hp.
    + split; [intros _ | reflexivity].
      apply prefix_occurs in Hp as [post Hp]. exists EmptyString, post. exact Hp.
    + rewrite IH. split.
      * intros (pre & post & ->). exists (String a pre), post. reflexivity.
      * intros (pre & post & Heq). destruct pre as [|b pre]; simpl in Heq.
        -- assert (String.prefix sub (String a s) = true) by (apply prefix_occurs; eauto).
           congruence.
        -- injection Heq as _ ->. exists pre, post. reflexivity.
Qed.

Lemma occurs_in_trans (a b c : string) :
  occurs_in a b -> occurs_in b c -> occurs_in a c.
Proof.
  intros (p1 & q1 & ->) (p2 & q2 & ->).
  exists (p2 +:+ p1), (q1 +:+ q2).
  rewrite !append_assoc. reflexivity.
Qed.

Lemma split_on_pieces (c : ascii) (s : string) :
  exists w0 ws, split_on c s = w0 :: ws
    /\ (exists post, s = w0 +:+ post)
    /\ (forall w, In w ws -> occurs_in w s).
Proof.
  induction s as [|a s (w0 & ws & Hs & [post Hpre] & Hrest)]; simpl.
  - exists EmptyString, []. repeat split; [exists EmptyString; reflexivity | intros w []].
  - destruct (Ascii.eqb a c).
    + exists EmptyString, (split_on c s). repeat split.
      * exists (String a s). reflexivity.
      * rewrite Hs. intros w [<-|Hin].
        -- exists (String a EmptyString), post. simpl. now rewrite Hpre at 1.
        -- destruct (Hrest _ Hin) as (pre & post' & Heq).
           exists (String a pre), post'. simpl. now rewrite Heq at 1.
    + rewrite Hs. exists (String a w0), ws. repeat split.
      * exists post. simpl. now rewrite Hpre at 1.
      * intros w Hin. destruct (Hrest _ Hin) as (pre & post' & Heq).
        exists (String a pre), post'. simpl. now rewrite Heq at 1.
Qed.

Lemma split_on_occurs (c : ascii) (s w : string) :
  In w (split_on c s) -> occurs_in w s.
Proof.
  destruct (split_on_pieces c s) as (w0 & ws & -> & [post Hpre] & Hrest).
  intros [<-|Hin]; [|auto].
  exists EmptyString, post. exact Hpre.
Qed.

Lemma mount_fields_occur (table field : string) :
  In field (mount_fields table) -> occurs_in field table.
Proof.
  unfold mount_fields, mount_entries. rewrite in_concat.
  intros (entry & Hentry & Hfield). apply in_map_iff in Hentry as (line & <- & Hline).
  eapply occurs_in_trans; eauto using split_on_occurs.
Qed.

(** ** Reading traces *)

Lemma calls_app (t1 t2 : list run_event) : calls (t1 ++ t2) = calls t1 ++ calls t2.
Proof.
  induction t1 as [|[c|e|l msg] t1 IH]; simpl; [reflexivity| |assumption..].
  now rewrite IH.
Qed.

Lemma calls_Within (t : list event) : calls (map Within t) = [].
Proof. induction t; simpl; auto. Qed.

Lemma inner_app (t1 t2 : list run_event) : inner (t1 ++ t2) = inner t1 ++ inner t2.
Proof.
  induction t1 as [|[c|e|l msg] t1 IH]; simpl; [reflexivity|assumption| |assumption].
  now rewrite IH.
Qed.

Lemma inner_Within (t : list event) : inner (map Within t) = t.
Proof. induction t; simpl; [|f_equal]; auto. Qed.

(* the pieces a computation is made of *)
Ltac open_prog :=
  unfold fatalIf, Log_Fatal, Log, log, deref, invoke, ask in *;
  unfold bind, emit, stop, ret in *.

Ltac norm_calls :=
  repeat (progress (simpl; rewrite ?calls_app, ?calls_Within, ?app_nil_r)).

(** ** checkMountPoint *)

Lemma checkMountPoint_result {S : Type} {E : Env S} (mountPoint : string) (s : S) :
  fst (fst (Aws.checkMountPoint mountPoint s)) =
  Normal (if Contains (mounts_read s) mountPoint
          then Some (errors_New "Already mounted") else None).
Proof.
  unfold Aws.checkMountPoint, slurpFile, mounts_read. open_prog.
  destruct (ioutil_ReadFile "/proc/mounts" s) as [[v [e|]] s1]; simpl;
    destruct (Contains v mountPoint); reflexivity.
Qed.

(** C10: checkMountPoint answers "Already mounted" exactly when the mount
    point occurs somewhere in the bytes read from the mount table, and
    otherwise answers nil; so a mount point that occurs inside a different
    field of the table, a longer mount path or a device, is rejected. *)
Theorem checkMountPoint_substring :
  forall (S : Type) (E : Env S) (mountPoint : string) (s : S),
    (exists err, fst (fst (Aws.checkMountPoint mountPoint s)) = Normal err
       /\ (err = Some (errors_New "Already mounted") \/ err = None)
       /\ (err = Some (errors_New "Already mounted")
           <-> occurs_in mountPoint (mounts_read s)))
    /\ (forall field,
          In field (mount_fields (mounts_read s)) ->
          field <> mountPoint ->
          occurs_in mountPoint field ->
          fst (fst (Aws.checkMountPoint mountPoint s))
          = Normal (Some (errors_New "Already mounted"))).
Proof.
  intros S E mountPoint s. split.
  - rewrite checkMountPoint_result.
    destruct (Contains (mounts_read s) mountPoint) eqn:Hc; eexists; split; eauto.
    + split; [auto|]. split; [intros _; now apply Contains_occurs | reflexivity].
    + split; [auto|]. split; [discriminate|].
      intros Ho. apply Contains_occurs in Ho. congruence.
  - intros field Hin _ Hsub. rewrite checkMountPoint_result.
    assert (Contains (mounts_read s) mountPoint = true) as ->; [|reflexivity].
    apply Contains_occurs. eauto using occurs_in_trans, mount_fields_occur.
Qed.

(* /data is not a mount point of the table, and is rejected all the same *)
Lemma checkMountPoint_substring_witness :
  ~ In "/data"%string (mounted_at (Fake.fk_mounts data2_mounted))
  /\ fst (fst (Aws.checkMountPoint (E := Fake.env data2_mounted) "/data" Fake.boot))
     = Normal (Some (errors_New "Already mounted")).
Proof.
  split.
  - vm_compute. intros [H|[H|[]]]; discriminate H.
  - apply (proj2 (checkMountPoint_substring _ (Fake.env data2_mounted) "/data" Fake.boot)
                 "/data2"%string).
    + vm_compute. do 7 right. left. reflexivity.
    + discriminate.
    + exists EmptyString, "2"%string. reflexivity.
Defined.

(** ** waitUntilVolumeAvailable *)

(** C4, as amended: waitUntilVolumeAvailable returns the VolumeTimeout error
    whenever the SDK's wait returns an error, of whatever kind (the deadline
    elapsed, the volume reached a state the waiter gives up on, the request
    failed), and returns nil when the wait returns nil; it has no other
    result. *)
Theorem waitUntilVolumeAvailable_any_error :
  forall (S : Type) (E : Env S) (volumeId : string) (s : S),
    let answer := ec2_WaitUntilVolumeAvailable (waitInput volumeId) s in
    Aws.waitUntilVolumeAvailable volumeId s
    = (Normal (match fst answer with
               | Some _ => Some createFileSystemOnVolumeTimeout
               | None => None
               end),
       snd answer,
       [EWaitUntilVolumeAvailable (waitInput volumeId) (fst answer)]).
Proof.
  intros S E volumeId s. unfold Aws.waitUntilVolumeAvailable, waitInput. open_prog.
  destruct (ec2_WaitUntilVolumeAvailable _ s) as [[e|] s1]; reflexivity.
Qed.

(* a wait that ends without the deadline having elapsed, because the volume
   was deleted or because the request was refused, is reported as
   VolumeTimeout all the same *)
Lemma waitUntilVolumeAvailable_timeout_without_deadline :
  (exists e,
      fst (ec2_WaitUntilVolumeAvailable (Env := Fake.env volume_deleted)
             (waitInput "vol-1") Fake.boot) = Some e
      /\ ~ deadline_elapsed e
      /\ fst (fst (Aws.waitUntilVolumeAvailable (E := Fake.env volume_deleted)
                     "vol-1" Fake.boot))
         = Normal (Some createFileSystemOnVolumeTimeout))
  /\ (exists e,
        fst (ec2_WaitUntilVolumeAvailable (Env := Fake.env unauthorized)
               (waitInput "vol-1") Fake.boot) = Some e
        /\ ~ deadline_elapsed e
        /\ fst (fst (Aws.waitUntilVolumeAvailable (E := Fake.env unauthorized)
                       "vol-1" Fake.boot))
           = Normal (Some createFileSystemOnVolumeTimeout)).
Proof.
  split; (eexists; split; [reflexivity|]; split; [|reflexivity]);
    intros [rest Hrest]; inversion Hrest.
Qed.

(** ** createVolume *)

Lemma createVolume_run {S : Type} {E : Env S} (a : AwsAsgEbs) (createSize : Z)
    (createName createVolumeType : string) (createTags : gmap string string)
    (snapshotId : option string) (s : S) :
  let input := createVolumeInput a createSize createVolumeType snapshotId in
  Aws.createVolume a createSize createName createVolumeType createTags snapshotId s =
  match ec2_CreateVolume input s with
  | (Err err, s1) => (Normal (None, Some err), s1, [ECreateVolume input (Err err)])
  | (Ok vol, s1) =>
      let tagging := createTagsInput vol createName createTags snapshotId in
      let '(err, s2) := ec2_CreateTags tagging s1 in
      (Normal (vol_VolumeId vol, err), s2,
       [ECreateVolume input (Ok vol); ECreateTags tagging err])
  end.
Proof.
  unfold Aws.createVolume, createVolumeInput, createTagsInput, filesystem_for. open_prog.
  destruct (ec2_CreateVolume _ s) as [[vol|err] s1]; [|reflexivity].
  destruct snapshotId; destruct (ec2_CreateTags _ s1) as [[e|] s2]; reflexivity.
Qed.

(** C5: when the volume is created and its tagging fails, createVolume
    returns the id of the new volume together with the tagging error, and
    the two requests are all it sends: nothing deletes the volume. *)
Theorem createVolume_tagging_failure :
  forall (S : Type) (E : Env S) (a : AwsAsgEbs) (createSize : Z)
         (createName createVolumeType : string) (createTags : gmap string string)
         (snapshotId : option string) (s s1 s2 : S) (vol : Volume) (e : error),
    let input := createVolumeInput a createSize createVolumeType snapshotId in
    let tagging := createTagsInput vol createName createTags snapshotId in
    ec2_CreateVolume input s = (Ok vol, s1) ->
    ec2_CreateTags tagging s1 = (Some e, s2) ->
    exists t,
      Aws.createVolume a createSize createName createVolumeType createTags snapshotId s
      = (Normal (vol_VolumeId vol, Some e), s2, t)
      /\ t = [ECreateVolume input (Ok vol); ECreateTags tagging (Some e)]
      /\ Forall (fun ev => forall id r, ev <> EDeleteVolume id r) t.
Proof.
  intros S E a createSize createName createVolumeType createTags snapshotId
         s s1 s2 vol e input tagging Hcreate Htag.
  eexists. split; [|split; [reflexivity|]].
  - rewrite createVolume_run. fold input. rewrite Hcreate. simpl.
    fold tagging. rewrite Htag. reflexivity.
  - repeat constructor; discriminate.
Qed.

Lemma createVolume_tagging_failure_witness :
  fst (fst (Aws.createVolume (E := Fake.env tagging_refused) Fake.me 20 "prod-data" "gp2"
              ∅ None Fake.boot))
  = Normal (Some "vol-new"%string,
            Some (awserr "RequestLimitExceeded" "Request limit exceeded.")).
Proof.
  destruct (createVolume_tagging_failure _ (Fake.env tagging_refused) Fake.me 20
              "prod-data" "gp2" ∅ None Fake.boot Fake.boot Fake.boot
              {| vol_VolumeId := Some "vol-new"%string;
                 vol_AvailabilityZone := "us-east-1a";
                 vol_State := "creating"; vol_Tags := [] |}
              (awserr "RequestLimitExceeded" "Request limit exceeded.")
              eq_refl eq_refl) as (t & Hrun & _).
  rewrite Hrun. reflexivity.
Defined.

(** ** findVolume *)

Lemma findVolume_params_eligible (a : AwsAsgEbs) (tagKey tagValue : string) (v : Volume) :
  satisfies (dvi_Filters (Aws.findVolume_params a tagKey tagValue)) v = true
  <-> eligible a tagKey tagValue v.
Proof.
  unfold satisfies, eligible, Aws.findVolume_params, filter_holds. simpl.
  change ("tag:" +:+ tagKey) with (String "t" (String "a" (String "g" (String ":" tagKey)))).
  simpl. rewrite !andb_true_iff, !orb_false_r, !String.eqb_eq. tauto.
Qed.

Lemma findVolume_run {S : Type} {E : Env S} (a : AwsAsgEbs) (tagKey tagValue : string) (s : S) :
  let params := Aws.findVolume_params a tagKey tagValue in
  Aws.findVolume a tagKey tagValue s =
  (Normal (match fst (ec2_DescribeVolumes params s) with
           | Err err => (None, Some err)
           | Ok [] => (None, None)
           | Ok (v :: _) => (vol_VolumeId v, None)
           end),
   snd (ec2_DescribeVolumes params s),
   [EDescribeVolumes params (fst (ec2_DescribeVolumes params s))]).
Proof.
  unfold Aws.findVolume. open_prog.
  destruct (ec2_DescribeVolumes _ s) as [[[|v vs]|err] s1]; reflexivity.
Qed.

(** C6: when the query succeeds, answering with the volumes of the pool that
    satisfy its filters, and no volume of the pool is eligible, findVolume
    returns (nil, nil); and findVolume returns an error exactly when the
    query itself fails, the error being that of the query. *)
Theorem findVolume_no_match :
  forall (S : Type) (E : Env S) (a : AwsAsgEbs) (tagKey tagValue : string) (s : S),
    let params := Aws.findVolume_params a tagKey tagValue in
    (forall pool : list Volume,
        fst (ec2_DescribeVolumes params s)
        = Ok (filter (fun v => satisfies (dvi_Filters params) v = true) pool) ->
        (forall v, In v pool -> ~ eligible a tagKey tagValue v) ->
        fst (fst (Aws.findVolume a tagKey tagValue s)) = Normal (None, None))
    /\ (forall err,
          (exists id, fst (fst (Aws.findVolume a tagKey tagValue s)) = Normal (id, Some err))
          <-> fst (ec2_DescribeVolumes params s) = Err err).
Proof.
  intros S E a tagKey tagValue s params. split.
  - intros pool Hanswer Hnone. rewrite findVolume_run. fold params. simpl.
    rewrite Hanswer.
    assert (filter (fun v => satisfies (dvi_Filters params) v = true) pool = []) as ->;
      [|reflexivity].
    clear Hanswer. induction pool as [|v pool IH]; [reflexivity|].
    rewrite filter_cons_False.
    + apply IH. intros v' Hv'. apply Hnone. now right.
    + intros Hsat. apply (Hnone v); [now left|].
      now apply findVolume_params_eligible.
  - intros err. rewrite findVolume_run. fold params. simpl.
    destruct (fst (ec2_DescribeVolumes params s)) as [[|v vs]|e].
    + split; [intros [id Hid]; discriminate | discriminate].
    + split; [intros [id Hid]; discriminate | discriminate].
    + split; [intros [id Hid]; congruence | intros [= ->]; eauto].
Qed.

Lemma findVolume_no_match_witness :
  fst (fst (Aws.findVolume (E := Fake.env other_zone) Fake.me "env" "prod" Fake.boot))
  = Normal (None, None).
Proof.
  apply (proj1 (findVolume_no_match _ (Fake.env other_zone) Fake.me "env" "prod" Fake.boot)
               (Fake.fk_volumes other_zone)).
  - reflexivity.
  - intros v Hv (_ & Hfs & Hstate & Hzone). simpl in Hv.
    destruct Hv as [<-|[<-|[<-|[]]]]; simpl in *; discriminate.
Defined.

(** ** findSnapshot *)

Lemma newest_first_le (a b : Snapshot) :
  newest_first b a = false <-> snap_StartTime b <= snap_StartTime a.
Proof. unfold newest_first, sort_Reverse, ByStartTime_Less, Before. lia. Qed.

Lemma sorted_head_newest (x : Snapshot) (l : list Snapshot) :
  Sorted (fun a b => newest_first b a = false) (x :: l) ->
  forall y, In y (x :: l) -> snap_StartTime y <= snap_StartTime x.
Proof.
  intros Hs. apply Sorted_StronglySorted in Hs.
  - inversion Hs as [|? ? _ Hall]; subst. intros y [<-|Hy]; [lia|].
    rewrite Forall_forall in Hall. apply newest_first_le, Hall.
    now apply list_elem_of_In.
  - intros a b c Hab Hbc. apply newest_first_le in Hab, Hbc. apply newest_first_le. lia.
Qed.

Lemma findSnapshot_run {S : Type} {E : Env S} {sorter : GoSort} (tagKey tagValue : string) (s : S) :
  let input := Aws.describeSnapshotsInput tagKey tagValue in
  Aws.findSnapshot tagKey tagValue s =
  (Normal (match fst (ec2_DescribeSnapshots input s) with
           | Err err => (None, Some err)
           | Ok snapshots =>
               match sort_Sort _ newest_first snapshots with
               | [] => (None, None)
               | s0 :: _ => (snap_SnapshotId s0, None)
               end
           end),
   snd (ec2_DescribeSnapshots input s),
   [EDescribeSnapshots input (fst (ec2_DescribeSnapshots input s))]).
Proof.
  unfold Aws.findSnapshot, newest_first. open_prog.
  destruct (ec2_DescribeSnapshots _ s) as [[snapshots|err] s1]; [|reflexivity].
  simpl. destruct (sort_Sort _ _ snapshots); reflexivity.
Qed.

(** C7: when the query for completed snapshots with the tag succeeds and
    sort.Sort keeps its contract on the answer, findSnapshot returns, for a
    non-empty answer, the id of one of its snapshots whose start time no
    snapshot of the answer exceeds, and for an empty answer (nil, nil). *)
Theorem findSnapshot_newest :
  forall (S : Type) (E : Env S) (sorter : GoSort) (tagKey tagValue : string) (s : S)
         (snapshots : list Snapshot),
    fst (ec2_DescribeSnapshots (Aws.describeSnapshotsInput tagKey tagValue) s)
    = Ok snapshots ->
    sorts sorter newest_first snapshots ->
    dsi_Filters (Aws.describeSnapshotsInput tagKey tagValue)
    = [ {| flt_Name := "tag:" +:+ tagKey; flt_Values := [tagValue] |};
        {| flt_Name := "status"; flt_Values := ["completed"%string] |} ]
    /\ (snapshots = [] ->
        fst (fst (Aws.findSnapshot tagKey tagValue s)) = Normal (None, None))
    /\ (snapshots <> [] ->
        exists newest,
          In newest snapshots
          /\ fst (fst (Aws.findSnapshot tagKey tagValue s))
             = Normal (snap_SnapshotId newest, None)
          /\ forall other, In other snapshots ->
                           snap_StartTime other <= snap_StartTime newest).
Proof.
  intros S E sorter tagKey tagValue s snapshots Hanswer [Hperm Hsorted].
  split; [reflexivity|]. rewrite findSnapshot_run. simpl. rewrite Hanswer.
  destruct (sort_Sort Snapshot newest_first snapshots) as [|x l] eqn:Hsort.
  - split; [reflexivity|]. intros Hne. apply Permutation_nil in Hperm. congruence.
  - split.
    + intros ->. apply Permutation_sym, Permutation_nil in Hperm. discriminate.
    + intros _. exists x. split; [|split; [reflexivity|]].
      * eapply Permutation_in; [exact Hperm | now left].
      * intros other Hother. apply (sorted_head_newest x l Hsorted).
        eapply Permutation_in; [apply Permutation_sym, Hperm | exact Hother].
Qed.

Lemma insert_Permutation {A} (less : A -> A -> bool) (x : A) (l : list A) :
  Permutation (Fake.insert less x l) (x :: l).
Proof.
  induction l as [|y l IH]; simpl; [reflexivity|].
  destruct (less y x); [|reflexivity].
  rewrite IH. apply perm_swap.
Qed.

Lemma insert_Sorted {A} (less : A -> A -> bool) (x : A) (l : list A) :
  (forall a b, less a b = true -> less b a = false) ->
  Sorted (fun a b => less b a = false) l ->
  Sorted (fun a b => less b a = false) (Fake.insert less x l).
Proof.
  intros Hasym. induction l as [|y l IH]; simpl; intros Hs.
  - repeat constructor.
  - destruct (less y x) eqn:Hyx.
    + inversion Hs as [|? ? Hl Hhd]; subst. constructor; [auto|].
      destruct l as [|z l]; simpl.
      * constructor. auto.
      * destruct (less z x); constructor; [|auto].
        now inversion Hhd.
    + constructor; [assumption|]. constructor. assumption.
Qed.

Lemma Fake_sort_sorts {A} (less : A -> A -> bool) (l : list A) :
  (forall a b, less a b = true -> less b a = false) ->
  sorts Fake.sort less l.
Proof.
  intros Hasym. unfold sorts, sort_Sort, Fake.sort. split.
  - induction l as [|x l IH]; simpl; [reflexivity|].
    rewrite insert_Permutation. now constructor.
  - induction l as [|x l IH]; simpl; [constructor|].
    now apply insert_Sorted.
Qed.

Lemma findSnapshot_newest_witness :
  exists newest,
    In newest nightly
    /\ fst (fst (Aws.findSnapshot (E := Fake.env three_snapshots) (sorter := Fake.sort)
                   "Name" "nightly-backup" Fake.boot))
       = Normal (snap_SnapshotId newest, None)
    /\ forall other, In other nightly -> snap_StartTime other <= snap_StartTime newest.
Proof.
  apply (findSnapshot_newest _ (Fake.env three_snapshots) Fake.sort
           "Name" "nightly-backup" Fake.boot nightly eq_refl).
  - apply Fake_sort_sorts. intros a b.
    unfold newest_first, sort_Reverse, ByStartTime_Less, Before. lia.
  - discriminate.
Defined.

Example findSnapshot_nightly :
  fst (fst (Aws.findSnapshot (E := Fake.env three_snapshots) (sorter := Fake.sort)
              "Name" "nightly-backup" Fake.boot))
  = Normal (Some "snap-wed"%string, None).
Proof. reflexivity. Qed.

(** ** waitForFile *)

Lemma wrap64_small (z : Z) : minDuration <= z <= maxDuration -> wrap64 z = z.
Proof.
  unfold wrap64, minDuration, maxDuration. intros Hz.
  rewrite Z.mod_small; lia.
Qed.

Lemma Time_Sub_within (d : Duration) (t0 t1 : Time) :
  t0 < t1 <= t0 + d -> 0 < Time_Sub t1 t0 <= d /\ Time_Sub t1 t0 <= maxDuration.
Proof.
  unfold Time_Sub, minDuration, maxDuration. intros Hlt.
  destruct (Z.ltb_spec (t1 - t0) (- 2 ^ 63)); [lia|].
  destruct (Z.ltb_spec (2 ^ 63 - 1) (t1 - t0)); lia.
Qed.

(** C9: the wait for the device node does not always return.  When the file
    does not appear and every poll takes time, but at most d nanoseconds,
    and the stack holds fewer frames of waitForFile than the timeout holds
    polls of d nanoseconds, waitForFile ends in the runtime's stack
    overflow: it has made one poll per frame, none of which found the file,
    and the time it measured is still below the timeout, so that it has
    returned neither nil nor the not-found error. *)
Theorem waitForFile_overflows_the_stack :
  forall (S : Type) (E : Env S) (file : string) (reach : S -> Prop) (d : Duration),
    polls_miss_within d file reach ->
    forall (stack : nat) (timeout : Duration) (s : S),
      reach s ->
      timeout <= maxDuration ->
      Z.of_nat stack * d < timeout ->
      let '(o, _, t) := waitForFile stack file timeout s in
      o = StackOverflow
      /\ length (stats t) = stack
      /\ Forall (fun r => r <> None) (stats t)
      /\ measured t < timeout.
Proof.
  intros S E file reach d Hpolls stack.
  induction stack as [|stack IH]; intros timeout s Hs Hmax Hroom.
  - simpl. repeat split; [constructor|lia].
  - specialize (Hpolls s Hs). cbn [waitForFile]. unfold time_Since. open_prog.
    destruct (time_Now s) as [t0 s1].
    destruct (os_Stat file s1) as [[e|] s2].
    + destruct (time_Now s2) as [t1 s3]. cbn in Hpolls.
      destruct Hpolls as (_ & Htime & Hs3).
      destruct (Time_Sub_within d t0 t1 Htime) as [Hsince Hcap].
      assert (0 < timeout - Time_Sub t1 t0 <= maxDuration) as Hleft by nia.
      rewrite (wrap64_small (timeout - Time_Sub t1 t0))
        by (unfold minDuration, maxDuration in *; lia).
      destruct (Z.ltb_spec 0 (timeout - Time_Sub t1 t0)); [|lia].
      specialize (IH (timeout - Time_Sub t1 t0) s3 Hs3 ltac:(lia) ltac:(nia)).
      destruct (waitForFile stack file (timeout - Time_Sub t1 t0) s3) as [[o s'] t].
      destruct IH as (-> & Hlen & Hmiss & Hmeasured).
      split; [reflexivity|]. split; [simpl; now rewrite Hlen|].
      split; [simpl; constructor; [discriminate|assumption]|].
      simpl. lia.
    + destruct (time_Now s2). cbn in Hpolls. now destruct Hpolls.
Qed.

Lemma waitForFile_overflows_the_stack_witness :
  let '(o, _, t) :=
    waitForFile (E := Fake.env fast_polls) deep_stack "/dev/xvdb" (60 * Second)
      Fake.boot in
  o = StackOverflow
  /\ length (stats t) = deep_stack
  /\ Forall (fun r => r <> None) (stats t)
  /\ measured t < 60 * Second.
Proof.
  apply (waitForFile_overflows_the_stack _ (Fake.env fast_polls) "/dev/xvdb"
           (fun s => Fake.files s = []) 1000
           ltac:(intros s Hs; simpl; rewrite Hs; simpl;
                 split; [discriminate|]; split; [lia|reflexivity])
           deep_stack (60 * Second) Fake.boot eq_refl
           ltac:(unfold Second, maxDuration; lia)
           ltac:(unfold deep_stack, Second; lia)).
Defined.

(* the same wait on a small scale: four frames, polls of a second *)
Example waitForFile_overflows_four_frames :
  let '(o, _, t) :=
    waitForFile (E := Fake.env Fake.quiet) 4 "/dev/xvdb" (60 * Second) Fake.boot in
  o = StackOverflow
  /\ stats t = [Some (PathError "stat" "/dev/xvdb" true);
                Some (PathError "stat" "/dev/xvdb" true);
                Some (PathError "stat" "/dev/xvdb" true);
                Some (PathError "stat" "/dev/xvdb" true)]
  /\ measured t = 4 * Second.
Proof. vm_compute. auto. Qed.

(* the timeout is reduced by the time measured inside the polls, not by the
   time between them: in the quiet environment, where every reading of the
   clock is a second after the one before, the sixty polls of a second use
   up the 60 seconds, and the last of them starts 118 seconds after the
   first *)
Example waitForFile_polls_past_the_deadline :
  let '(r, _, t) :=
    waitForFile (E := Fake.env Fake.quiet) 100 "/dev/xvdb" (60 * Second) Fake.boot in
  r = Normal (Some (not_found "/dev/xvdb"))
  /\ length (poll_starts t) = 60%nat
  /\ head (poll_starts t) = Some 0
  /\ last (poll_starts t) = Some (118 * Second)
  /\ measured t = 60 * Second.
Proof. vm_compute. auto. Qed.

(** ** The phases of a run, as seen in its invocations *)

(* no invocation of the list returned nil from attachVolume *)
Ltac none_attached :=
  let Hex := fresh "Hex" in
  intros Hex;
  repeat match goal with
         | Hx : Exists attached (_ :: _) |- _ => inversion Hx; clear Hx; subst
         | Hx : Exists attached [] |- _ => inversion Hx
         | Hx : attached _ |- _ => destruct Hx
         end; eauto.

(* the first pass of the list is not a lost one *)
Ltac not_lost :=
  let Hl := fresh "Hl" in
  let Hx := fresh "Hx" in
  let Heq := fresh "Heq" in
  intros Hl; inversion Hl as [|? ? Hx ?]; subst;
  destruct Hx as (? & ? & Heq); discriminate Heq.

(* a loop that ends in its first pass *)
Ltac one_pass :=
  eexists [_]; norm_calls;
  split; [reflexivity|]; split; [lia|];
  split; [repeat constructor; discriminate|];
  split; [none_attached | not_lost].

Ltac provision_leaf :=
  unfold blank; do 2 eexists; split; [reflexivity|];
  split; [solve [repeat (constructor; try exact I)]|];
  split; [intros ? Hin; simpl in Hin; intuition congruence|];
  split; [intros ? ? ? ? Hin; simpl in Hin; intuition congruence|];
  intros ? ? Heq;
  first [ discriminate Heq
        | split; [congruence | apply Exists_cons_tl, Exists_cons_hd; exact I] ].

Section Phases.
Context {St : Type} {impl : AsgEbs St}.
Variable cfg : Config.

Lemma iteration_no_other (it : list call) (c : call) :
  iteration cfg it -> In c it ->
  ~ is_check c /\ ~ is_makeFileSystem c /\ ~ is_createVolume c.
Proof.
  intros Hit Hin. destruct Hit; simpl in Hin; intuition subst; simpl in *; auto.
Qed.

Lemma reuseLoop_passes (attempts : list Z) (volumeId : option string) (s : St) :
  let '(o, _, t) := reuseLoop cfg attempts volumeId s in
  exists passes,
    calls t = concat passes
    /\ (length passes <= length attempts)%nat
    /\ Forall (iteration cfg) passes
    /\ (Exists attached (calls t) -> exists v, o = Normal (Some v))
    /\ (Forall (lost cfg) passes -> length passes = length attempts ->
        (attempts = [] /\ o = Normal volumeId) \/ exists v, o = Normal (Some v)).
Proof.
  revert volumeId s. induction attempts as [|i attempts IH]; intros volumeId s.
  - exists []. simpl. repeat split; auto.
    intros Hex. inversion Hex.
  - cbn [reuseLoop]. open_prog.
    destruct (findVolume (cfg_tagKey cfg) (cfg_tagValue cfg) s) as [[o1 s1] t1].
    destruct o1 as [[found err]| | |]; simpl; try one_pass.
    destruct err as [e|]; simpl; [one_pass|].
    destruct found as [v|]; simpl; [|one_pass].
    destruct (attachVolume v (cfg_attachAs cfg) (cfg_deleteOnTermination cfg) s1)
      as [[o2 s2] t2].
    destruct o2 as [[e|]| | |]; simpl; try one_pass.
    (* the attachment failed: the loop goes on with this volume *)
      specialize (IH (Some v) s2).
      destruct (reuseLoop cfg attempts (Some v) s2) as [[o3 s3] t3].
      destruct IH as (passes & Hcalls & Hlen & Hiter & Hatt & Hlost).
      exists ([CfindVolume (cfg_tagKey cfg) (cfg_tagValue cfg) (Normal (Some v, None));
               CattachVolume v (cfg_attachAs cfg) (cfg_deleteOnTermination cfg)
                 (Normal (Some e))] :: passes).
      norm_calls. rewrite Hcalls. split; [reflexivity|]. split; [lia|].
      split; [constructor; [constructor|assumption]|]. split.
      * intros Hex. apply Hatt. rewrite Hcalls.
        inversion Hex as [? ? Hat|? ? Hat]; subst; [destruct Hat|].
        inversion Hat as [? ? Hat'|? ? Hat']; subst; [destruct Hat'|].
        assumption.
      * intros Hl Hn. inversion Hl; subst. right.
        destruct Hlost as [[_ ->]|[v' ->]]; eauto.
Qed.

End Phases.

Section Steps.
Context {St : Type} {impl : AsgEbs St}.
Variable cfg : Config.

Lemma preconditions_calls (s : St) :
  let '(_, _, t) := preconditions cfg s in Forall is_check (calls t).
Proof.
  unfold preconditions. open_prog.
  destruct (checkDevice _ s) as [[o1 s1] t1].
  destruct o1 as [[e|]| | |]; norm_calls; try (repeat constructor).
  destruct (checkMountPoint _ s1) as [[o2 s2] t2].
  destruct o2 as [[e|]| | |]; norm_calls; repeat constructor.
Qed.

Lemma provision_calls (volumeId snapshotId : option string) (s : St) :
  let '(o, _, t) := provision cfg volumeId snapshotId s in
  match volumeId with
  | Some _ => calls t = [] /\ o = Normal (volumeId, false)
  | None =>
      exists r rest,
        calls t = CcreateVolume (cfg_createSize cfg) (cfg_createName cfg)
                    (cfg_createVolumeType cfg) (cfg_createTags cfg) snapshotId r :: rest
        /\ Forall wait_or_attach rest
        /\ (forall v,
              In (CattachVolume v (cfg_attachAs cfg) (cfg_deleteOnTermination cfg)
                    (Normal None)) rest ->
              o = Normal (Some v, blank snapshotId))
        /\ (forall v a d r', In (CattachVolume v a d r') rest ->
              a = cfg_attachAs cfg /\ d = cfg_deleteOnTermination cfg)
        /\ (forall v' fs, o = Normal (v', fs) ->
              fs = blank snapshotId /\ Exists attached rest)
  end.
Proof.
  unfold provision. destruct volumeId as [v|]; [split; reflexivity|]. open_prog.
  destruct (createVolume _ _ _ _ _ s) as [[o1 s1] t1].
  destruct o1 as [[created err]| | |]; norm_calls; try provision_leaf.
  destruct err as [e|]; norm_calls; try provision_leaf.
  destruct created as [v|]; norm_calls; try provision_leaf.
  destruct (waitUntilVolumeAvailable v s1) as [[o2 s2] t2].
  destruct o2 as [[e|]| | |]; norm_calls; try provision_leaf.
  destruct (attachVolume v _ _ s2) as [[o3 s3] t3].
  destruct o3 as [[e|]| | |]; norm_calls; provision_leaf.
Qed.

Lemma finish_calls (volumeId : option string) (createFileSystemOnVolume : bool) (s : St) :
  let '(_, _, t) := finish cfg volumeId createFileSystemOnVolume s in
  let device := "/dev/" +:+ cfg_attachAs cfg in
  if createFileSystemOnVolume then
    match volumeId with
    | Some v =>
        exists r rest,
          calls t = CmakeFileSystem device (cfg_mkfsInodeRatio cfg) v r :: rest
          /\ Forall is_mountVolume rest
    | None => calls t = []
    end
  else exists r, calls t = [CmountVolume device (cfg_mountPoint cfg) r].
Proof.
  unfold finish. open_prog. destruct createFileSystemOnVolume; simpl.
  - destruct volumeId as [v|]; norm_calls; [|reflexivity].
    destruct (makeFileSystem _ _ v s) as [[o1 s1] t1].
    destruct o1 as [[e|]| | |]; norm_calls;
      try (do 2 eexists; split; [reflexivity|constructor]).
    destruct (mountVolume _ _ s1) as [[o2 s2] t2].
    destruct o2 as [[e|]| | |]; norm_calls;
      do 2 eexists; (split; [reflexivity|solve [repeat (constructor; try exact I)]]).
  - destruct (mountVolume _ _ s) as [[o2 s2] t2].
    destruct o2 as [[e|]| | |]; norm_calls; eexists; reflexivity.
Qed.

Lemma acquire_calls (s : St) :
  let '(o, _, t) := acquire cfg s in
  (Exists attached (calls t) -> exists v, o = Normal (Some v, None))
  /\ if (cfg_snapshotName cfg =? EmptyString)%string then
       (forall v sid, o = Normal (v, sid) -> sid = None)
       /\ exists passes,
            calls t = concat passes
            /\ (length passes <= 10)%nat
            /\ Forall (iteration cfg) passes
            /\ (Forall (lost cfg) passes -> length passes = 10%nat ->
                exists v, o = Normal (Some v, None))
     else
       (forall v sid, o = Normal (v, sid) -> v = None)
       /\ exists r, calls t = [CfindSnapshot "Name" (cfg_snapshotName cfg) r].
Proof.
  unfold acquire. destruct (cfg_snapshotName cfg =? EmptyString)%string.
  - pose proof (reuseLoop_passes cfg (seqZ 1 10) None s) as Hloop.
    unfold bind, ret.
    destruct (reuseLoop cfg (seqZ 1 10) None s) as [[o1 s1] t1].
    destruct Hloop as (passes & Hcalls & Hlen & Hiter & Hatt & Hlost).
    change (length (seqZ 1 10)) with 10%nat in *.
    destruct o1 as [v| | |]; norm_calls.
    + split; [intros Hex; destruct (Hatt Hex) as [v' [= ->]]; eauto|].
      split; [intros ? ? [= _ <-]; reflexivity|].
      exists passes. repeat split; auto.
      intros Hl Hn. destruct (Hlost Hl Hn) as [[[=] _]|[v' [= ->]]]. eauto.
    + split; [intros Hex; destruct (Hatt Hex) as [v' [=]]|].
      split; [discriminate|]. exists passes. repeat split; auto.
      intros Hl Hn. destruct (Hlost Hl Hn) as [[[=] _]|[v' [=]]].
    + split; [intros Hex; destruct (Hatt Hex) as [v' [=]]|].
      split; [discriminate|]. exists passes. repeat split; auto.
      intros Hl Hn. destruct (Hlost Hl Hn) as [[[=] _]|[v' [=]]].
    + split; [intros Hex; destruct (Hatt Hex) as [v' [=]]|].
      split; [discriminate|]. exists passes. repeat split; auto.
      intros Hl Hn. destruct (Hlost Hl Hn) as [[[=] _]|[v' [=]]].
  - open_prog.
    destruct (findSnapshot "Name" (cfg_snapshotName cfg) s) as [[o1 s1] t1].
    destruct o1 as [[found [e|]]| | |]; norm_calls;
      (split; [none_attached|]; split; [congruence|eauto]).
Qed.

Lemma found_shape_stopped (o : outcome (option string * option string))
    (found : list call) :
  (forall v sid, o <> Normal (v, sid)) ->
  (if (cfg_snapshotName cfg =? EmptyString)%string then
     (forall v sid, o = Normal (v, sid) -> sid = None)
     /\ exists passes,
          found = concat passes
          /\ (length passes <= 10)%nat
          /\ Forall (iteration cfg) passes
          /\ (Forall (lost cfg) passes -> length passes = 10%nat ->
              exists v, o = Normal (Some v, None))
   else
     (forall v sid, o = Normal (v, sid) -> v = None)
     /\ exists r, found = [CfindSnapshot "Name" (cfg_snapshotName cfg) r]) ->
  found_shape cfg found [] [].
Proof.
  unfold found_shape. intros Hstop.
  destruct (cfg_snapshotName cfg =? EmptyString)%string.
  - intros (_ & passes & Hc & Hl & Hi & Hlost). exists passes.
    split; [assumption|]. split; [assumption|]. split; [assumption|].
    intros Hx Hy. destruct (Hlost Hx Hy) as [v Hv]. now apply Hstop in Hv.
  - intros [_ Hr]. now right.
Qed.

Lemma runAsgEbs_calls (s : St) :
  let '(_, _, t) := runAsgEbs cfg s in run_shape cfg (calls t).
Proof.
  unfold runAsgEbs, bind.
  pose proof (preconditions_calls s) as Hchecks.
  destruct (preconditions cfg s) as [[o0 s0] t0].
  pose proof (acquire_calls s0) as Hfound.
  destruct o0 as [[]| | |].
  2-4: exists (calls t0), [], [], []; rewrite !app_nil_r;
       (split; [reflexivity|]); (split; [assumption|]);
       (split; [|split; [left; reflexivity|intros _; constructor]]);
       unfold found_shape;
       (destruct (cfg_snapshotName cfg =? EmptyString)%string; [|left; reflexivity]);
       exists []; (split; [reflexivity|]); (split; [simpl; lia|]);
       (split; [constructor|]); intros _ [=].
  destruct (acquire cfg s0) as [[o1 s1] t1].
  destruct Hfound as [Hatt Hfound].
  pose proof (fun v sid => provision_calls v sid s1) as Hmade.
  destruct o1 as [[volumeId snapshotId]| | |].
  2-4: exists (calls t0), (calls t1), [], []; rewrite !app_nil_r, calls_app;
       (split; [reflexivity|]); (split; [assumption|]);
       (split; [|split; [left; reflexivity|intros _; constructor]]);
       eapply found_shape_stopped; [|exact Hfound]; discriminate.
  specialize (Hmade volumeId snapshotId).
  destruct (provision cfg volumeId snapshotId s1) as [[o2 s2] t2].
  pose proof (fun v fs => finish_calls v fs s2) as Hdone.
  destruct volumeId as [v|].
  - (* a volume was found and attached, or found ten times and lost *)
    destruct Hmade as [Hcalls ->].
    specialize (Hdone (Some v) false).
    destruct (finish cfg (Some v) false s2) as [[o3 s3] t3].
    destruct Hdone as [r Hmount].
    exists (calls t0), (calls t1), [], (calls t3).
    rewrite !calls_app, Hcalls. split; [reflexivity|]. split; [assumption|].
    split; [|split; [left; reflexivity|intros _; rewrite Hmount; repeat constructor]].
    unfold found_shape. destruct (cfg_snapshotName cfg =? EmptyString)%string.
    + destruct Hfound as (_ & passes & Hc & Hl & Hi & _). exists passes.
      split; [assumption|]. split; [assumption|]. split; [assumption|].
      intros _ _. split; [reflexivity|]. exists r. exact Hmount.
    + destruct Hfound as [Hnone _]. now specialize (Hnone _ _ eq_refl).
  - (* no volume: one is created *)
    assert (~ Exists attached (calls t1)) as Hnone
      by (intros Hex; destruct (Hatt Hex) as [? [=]]).
    assert ((cfg_snapshotName cfg =? EmptyString)%string = true -> snapshotId = None) as Hsid.
    { intros Heq. rewrite Heq in Hfound. destruct Hfound as [Hs _].
      exact (Hs _ _ eq_refl). }
    assert (forall made done, found_shape cfg (calls t1) made done) as Hshape.
    { intros made done. unfold found_shape.
      destruct (cfg_snapshotName cfg =? EmptyString)%string.
      - destruct Hfound as (_ & passes & Hc & Hl & Hi & Hlost). exists passes.
        split; [assumption|]. split; [assumption|]. split; [assumption|].
        intros Hx Hy. destruct (Hlost Hx Hy) as [? [=]].
      - right. apply Hfound. }
    destruct Hmade as (r & rest & Hcalls & Hrest & Hok & Hargs & Hfs).
    destruct o2 as [[v' fs]| | |].
    2-4: exists (calls t0), (calls t1), (calls t2), []; simpl;
         rewrite !calls_app, app_nil_r;
         (split; [reflexivity|]); (split; [assumption|]); (split; [apply Hshape|]);
         (split; [|rewrite Hcalls; discriminate]);
         right; exists snapshotId, r, rest;
         (split; [assumption|]); (split; [assumption|]); (split; [assumption|]);
         (split; [assumption|]); (split; [assumption|]);
         (split; [|reflexivity]);
         (destruct (blank snapshotId); [|constructor]);
         intros v Hin; apply Hok in Hin; discriminate.
    specialize (Hdone v' fs).
    destruct (finish cfg v' fs s2) as [[o3 s3] t3].
    exists (calls t0), (calls t1), (calls t2), (calls t3). simpl.
    rewrite !calls_app.
    split; [reflexivity|]. split; [assumption|]. split; [apply Hshape|].
    split; [|rewrite Hcalls; discriminate].
    right. exists snapshotId, r, rest.
    split; [assumption|]. split; [assumption|]. split; [assumption|].
    split; [assumption|]. split; [assumption|].
    destruct (Hfs _ _ eq_refl) as [-> Hattached].
    split; [|intros Hnot; now destruct Hnot].
    simpl in Hdone. destruct (blank snapshotId).
    + intros v Hin. apply Hok in Hin. injection Hin as ->. exact Hdone.
    + destruct Hdone as [r' ->]. repeat constructor.
Qed.

End Steps.

Lemma attached_or_not (cs : list call) : Exists attached cs \/ ~ Exists attached cs.
Proof.
  induction cs as [|c cs [IH|IH]].
  - right. intros Hex. inversion Hex.
  - left. now right.
  - assert (attached c \/ ~ attached c) as [Hc|Hc].
    { destruct c as [| | |? ? ? [[|]| | |]| | | | |]; simpl; tauto. }
    + left. now left.
    + right. intros Hex. inversion Hex; subst; tauto.
Qed.

Lemma attached_In (cs : list call) :
  Exists attached cs -> exists v a d, In (CattachVolume v a d (Normal None)) cs.
Proof.
  induction 1 as [c cs Hc|c cs _ (v & a & d & Hin)].
  - destruct c as [| | |v a d [[|]| | |]| | | | |]; try destruct Hc.
    exists v, a, d. now left.
  - exists v, a, d. now right.
Qed.

(* after the search and the creation come makeFileSystem and mountVolume only *)
Lemma done_kinds {St : Type} {impl : AsgEbs St} (cfg : Config) (found made done : list call) :
  made_shape cfg found made done ->
  (made = [] -> Forall is_mountVolume done) ->
  Forall (fun c => is_makeFileSystem c \/ is_mountVolume c) done.
Proof.
  intros [->|(sid & r & rest & -> & Hrest & _ & _ & Hargs & Hfmt & Hnone)] Hreused.
  - eapply Forall_impl; [exact (Hreused eq_refl)|]. tauto.
  - destruct (attached_or_not rest) as [Hatt|Hatt].
    + destruct (blank sid).
      * destruct (attached_In _ Hatt) as (v & a & d & Hin).
        destruct (Hargs _ _ _ _ Hin) as [-> ->].
        destruct (Hfmt _ Hin) as (r' & done' & -> & Hmounts).
        constructor; [left; exact I|].
        eapply Forall_impl; [exact Hmounts|]. tauto.
      * eapply Forall_impl; [exact Hfmt|]. tauto.
    + rewrite (Hnone Hatt). constructor.
Qed.

Lemma found_kinds {St : Type} {impl : AsgEbs St} (cfg : Config) (found made done : list call) :
  found_shape cfg found made done ->
  Forall (fun c => ~ is_check c /\ ~ is_makeFileSystem c /\ ~ is_createVolume c) found.
Proof.
  unfold found_shape. destruct (cfg_snapshotName cfg =? EmptyString)%string.
  - intros (passes & -> & _ & Hiter & _).
    induction Hiter as [|pass passes Hpass _ IH]; simpl; [constructor|].
    apply Forall_app. split; [|assumption].
    apply Forall_forall. intros c Hc. apply list_elem_of_In in Hc.
    eapply iteration_no_other; eauto.
  - intros [->|[r ->]]; repeat constructor; simpl; tauto.
Qed.

(** ** The reuse loop *)

(** C2: in a run with no snapshot name, the invocations are the checks, then
    at most ten passes of the reuse loop, then what follows the loop; a pass
    is one findVolume, followed by one attachVolume exactly when findVolume
    returned a volume and no error; nothing after the loop is a findVolume,
    and what follows the loop starts with createVolume or mountVolume. *)
Theorem reuse_loop_bounded :
  forall (St : Type) (impl : AsgEbs St) (cfg : Config) (s : St),
    cfg_snapshotName cfg = EmptyString ->
    let '(_, _, t) := runAsgEbs cfg s in
    exists checks passes rest,
      calls t = checks ++ concat passes ++ rest
      /\ Forall is_check checks
      /\ (length passes <= 10)%nat
      /\ Forall (iteration cfg) passes
      /\ Forall (fun c => ~ is_findVolume c) rest
      /\ match rest with
         | [] => True
         | c :: _ => is_createVolume c \/ is_mountVolume c
         end.
Proof.
  intros St impl cfg s Hname.
  pose proof (runAsgEbs_calls cfg s) as Hshape.
  destruct (runAsgEbs cfg s) as [[o s'] t].
  destruct Hshape as (checks & found & made & done & Hcalls & Hchecks & Hfound & Hmade & Hdone).
  pose proof (done_kinds cfg _ _ _ Hmade Hdone) as Hkinds.
  unfold found_shape in Hfound. rewrite Hname in Hfound. simpl in Hfound.
  destruct Hfound as (passes & -> & Hlen & Hiter & _).
  exists checks, passes, (made ++ done).
  split; [assumption|]. split; [assumption|]. split; [assumption|]. split; [assumption|].
  assert (Forall (fun c => ~ is_findVolume c) done) as Hnofind.
  { eapply Forall_impl; [exact Hkinds|]. intros [] Hc; simpl in *; tauto. }
  destruct Hmade as [->|(sid & r & rest & -> & Hrest & _)].
  - specialize (Hdone eq_refl). simpl. split; [assumption|].
    destruct done as [|c done]; [exact I|]. right. now inversion Hdone.
  - split; [|left; exact I]. simpl. constructor; [auto|].
    apply Forall_app. split; [|assumption].
    eapply Forall_impl; [exact Hrest|]. intros [] Hc; simpl in *; tauto.
Qed.

Lemma reuse_loop_bounded_witness :
  let '(_, _, t) := Fake.run_in contended Fake.cfg Fake.boot in
  exists checks passes rest,
    calls t = checks ++ concat passes ++ rest
    /\ Forall is_check checks
    /\ (length passes <= 10)%nat
    /\ Forall (iteration Fake.cfg) passes
    /\ Forall (fun c => ~ is_findVolume c) rest
    /\ match rest with
       | [] => True
       | c :: _ => is_createVolume c \/ is_mountVolume c
       end.
Proof.
  exact (reuse_loop_bounded _
           (AwsAsgEbs_AsgEbs (E := Fake.env contended) (sorter := Fake.sort) 100 Fake.me)
           Fake.cfg Fake.boot eq_refl).
Defined.

(** ** The filesystem tag and the format step *)

Lemma makeFileSystem_run {S : Type} {E : Env S} (device : string) (mkfsInodeRatio : Z)
    (volumeId : string) (s : S) :
  let args := mkfs_args device mkfsInodeRatio in
  Aws.makeFileSystem device mkfsInodeRatio volumeId s =
  match exec_CombinedOutput "/usr/sbin/mkfs.ext4" args s with
  | ((out, Some e), s1) =>
      (Normal (Some e), s1,
       [ELog Info "Running command";
        ECombinedOutput "/usr/sbin/mkfs.ext4" args (out, Some e);
        ELog Info "Error running command"])
  | ((out, None), s1) =>
      let '(err, s2) := ec2_CreateTags (formattedInput volumeId) s1 in
      (Normal err, s2,
       [ELog Info "Running command";
        ECombinedOutput "/usr/sbin/mkfs.ext4" args (out, None);
        ECreateTags (formattedInput volumeId) err])
  end.
Proof.
  unfold Aws.makeFileSystem, run, mkfs_args, formattedInput. open_prog.
  destruct (exec_CombinedOutput _ _ s) as [[out [e|]] s1]; [reflexivity|].
  simpl. destruct (ec2_CreateTags _ s1) as [[e|] s2]; reflexivity.
Qed.

(** C3, as amended.  createVolume tags the volume it has created with
    filesystem=false when it was given no snapshot id and filesystem=true
    when it was given one.  makeFileSystem sets filesystem=true after a
    format that succeeded and sends nothing after one that failed.  In a run
    in which createVolume is invoked with a snapshot id, makeFileSystem is
    not invoked; in a run in which it is invoked with none, makeFileSystem
    is invoked on the new volume once that volume has been attached, and is
    not invoked when no attachment succeeded, the run having ended at the
    creation, the wait or the attachment. *)
Theorem filesystem_tag_follows_snapshot :
  (forall (S : Type) (E : Env S) (a : AwsAsgEbs) (createSize : Z)
          (createName createVolumeType : string) (createTags : gmap string string)
          (snapshotId : option string) (s : S),
      let input := createVolumeInput a createSize createVolumeType snapshotId in
      let '(o, _, t) :=
        Aws.createVolume a createSize createName createVolumeType createTags snapshotId s in
      match fst (ec2_CreateVolume input s) with
      | Err e => t = [ECreateVolume input (Err e)]
      | Ok vol =>
          exists tagging r,
            t = [ECreateVolume input (Ok vol); ECreateTags tagging r]
            /\ cti_Resources tagging = [vol_VolumeId vol]
            /\ cti_Tags tagging !! 1%nat
               = Some {| tag_Key := "filesystem";
                         tag_Value := match snapshotId with
                                      | None => "false"
                                      | Some _ => "true"
                                      end |}
      end)
  /\ (forall (S : Type) (E : Env S) (device : string) (mkfsInodeRatio : Z)
             (volumeId : string) (s : S),
        let args := mkfs_args device mkfsInodeRatio in
        let '(o, _, t) := Aws.makeFileSystem device mkfsInodeRatio volumeId s in
        match snd (fst (exec_CombinedOutput "/usr/sbin/mkfs.ext4" args s)) with
        | Some e => o = Normal (Some e) /\ Forall (fun ev => control_plane ev = false) t
        | None =>
            exists out r,
              o = Normal r
              /\ t = [ELog Info "Running command";
                      ECombinedOutput "/usr/sbin/mkfs.ext4" args (out, None);
                      ECreateTags (formattedInput volumeId) r]
        end)
  /\ (forall (St : Type) (impl : AsgEbs St) (cfg : Config) (s : St),
        let cs := calls (snd (runAsgEbs cfg s)) in
        forall createSize createName createVolumeType createTags snapshotId r,
          In (CcreateVolume createSize createName createVolumeType createTags
                snapshotId r) cs ->
          match snapshotId with
          | Some _ => Forall (fun c => ~ is_makeFileSystem c) cs
          | None =>
              (forall v a d,
                  In (CattachVolume v a d (Normal None)) cs ->
                  exists r', In (CmakeFileSystem ("/dev/" +:+ cfg_attachAs cfg)
                                   (cfg_mkfsInodeRatio cfg) v r') cs)
              /\ (~ Exists attached cs -> Forall (fun c => ~ is_makeFileSystem c) cs)
          end).
Proof.
  split; [|split].
  - intros S E a createSize createName createVolumeType createTags snapshotId s input.
    rewrite createVolume_run. fold input.
    destruct (ec2_CreateVolume input s) as [[vol|e] s1]; simpl; [|reflexivity].
    destruct (ec2_CreateTags _ s1) as [r s2]. do 2 eexists. split; [reflexivity|].
    split; [reflexivity|]. destruct snapshotId; reflexivity.
  - intros S E device mkfsInodeRatio volumeId s args.
    rewrite makeFileSystem_run. fold args.
    destruct (exec_CombinedOutput _ args s) as [[out [e|]] s1]; simpl.
    + split; [reflexivity|]. repeat constructor.
    + destruct (ec2_CreateTags _ s1) as [r s2]. eauto.
  - intros St impl cfg s cs.
    pose proof (runAsgEbs_calls cfg s) as Hshape. subst cs.
    destruct (runAsgEbs cfg s) as [[o s'] t]. simpl.
    destruct Hshape as (checks & found & made & done & -> & Hchecks & Hfound & Hmade & Hdone).
    pose proof (found_kinds cfg _ _ _ Hfound) as Hfk.
    pose proof (done_kinds cfg _ _ _ Hmade Hdone) as Hdk.
    rewrite Forall_forall in Hchecks, Hfk, Hdk.
    intros createSize createName createVolumeType createTags snapshotId r Hin.
    assert (exists rest,
               made = CcreateVolume createSize createName createVolumeType createTags
                        snapshotId r :: rest) as [rest0 Hmade0].
    { rewrite !in_app_iff in Hin. destruct Hin as [Hin|[Hin|[Hin|Hin]]].
      - apply list_elem_of_In, Hchecks in Hin. destruct Hin.
      - apply list_elem_of_In, Hfk in Hin. simpl in Hin. tauto.
      - destruct Hmade as [->|(sid & r0 & rest & -> & Hrest & _)]; [destruct Hin|].
        destruct Hin as [[= <- <- <- <- <- <-]|Hin]; [eauto|].
        rewrite Forall_forall in Hrest. apply list_elem_of_In, Hrest in Hin. destruct Hin.
      - apply list_elem_of_In, Hdk in Hin. simpl in Hin. tauto. }
    destruct Hmade as [->|(sid & r0 & rest & -> & Hrest & Hnone & _ & Hargs & Hfmt & Hstop)];
      [discriminate|].
    injection Hmade0 as <- <- <- <- <- <- <-.
    assert (Forall (fun c => ~ is_makeFileSystem c) (checks ++ found)) as Hbefore.
    { apply Forall_app. split; apply Forall_forall; intros c Hc.
      - apply Hchecks in Hc. destruct c; simpl in *; tauto.
      - apply Hfk in Hc. tauto. }
    assert (Forall (fun c => ~ is_makeFileSystem c)
              (CcreateVolume (cfg_createSize cfg) (cfg_createName cfg)
                 (cfg_createVolumeType cfg) (cfg_createTags cfg) sid r0 :: rest)) as Hcreation.
    { constructor; [simpl; tauto|].
      eapply Forall_impl; [exact Hrest|]. intros []; simpl; tauto. }
    destruct sid as [sid|]; simpl in Hfmt.
    + rewrite app_assoc. apply Forall_app. split; [assumption|].
      apply Forall_app. split; [assumption|].
      eapply Forall_impl; [exact Hfmt|]. intros []; simpl; tauto.
    + split.
      * intros v a d Hatt.
        assert (In (CattachVolume v a d (Normal None)) rest) as Hrest_att.
        { rewrite !in_app_iff in Hatt. destruct Hatt as [Hatt|[Hatt|[Hatt|Hatt]]].
          - apply list_elem_of_In, Hchecks in Hatt. destruct Hatt.
          - destruct Hnone. apply Exists_exists.
            exists (CattachVolume v a d (Normal None)). split; [|exact I].
            now apply list_elem_of_In.
          - destruct Hatt as [[=]|Hatt]. exact Hatt.
          - apply list_elem_of_In, Hdk in Hatt. simpl in Hatt. tauto. }
        destruct (Hargs _ _ _ _ Hrest_att) as [-> ->].
        destruct (Hfmt _ Hrest_att) as (r' & done' & -> & _).
        exists r'. rewrite !in_app_iff. right. right. right. now left.
      * intros Hnot.
        assert (done = []) as ->.
        { apply Hstop. intros Hex. apply Hnot.
          rewrite !Exists_app. right. right. left. now right. }
        rewrite app_nil_r, app_assoc. apply Forall_app. split; assumption.
Qed.

(* a run that creates a blank volume, tags it filesystem=false and then
   cannot attach it ends without makeFileSystem *)
Lemma blank_volume_never_formatted :
  let t := snd (Fake.run_in attach_refused Fake.cfg Fake.boot) in
  In (CcreateVolume 20 "prod-data" "gp2" ∅ None (Normal (Some "vol-new"%string, None)))
     (calls t)
  /\ In (ECreateTags
           {| cti_Resources := [Some "vol-new"%string];
              cti_Tags := [ {| tag_Key := "Name"; tag_Value := "prod-data" |};
                            {| tag_Key := "filesystem"; tag_Value := "false" |} ] |}
           None)
        (inner t)
  /\ ~ Exists is_makeFileSystem (calls t).
Proof.
  vm_compute. split; [|split].
  - do 3 right. left. reflexivity.
  - do 4 right. left. reflexivity.
  - intros Hex.
    repeat match goal with
           | Hx : Exists _ (_ :: _) |- _ => inversion Hx; clear Hx; subst
           | Hx : Exists _ [] |- _ => inversion Hx
           | Hx : False |- _ => destruct Hx
           end.
Qed.

Lemma filesystem_tag_follows_snapshot_witness :
  exists r,
    In (CmakeFileSystem "/dev/xvdb" 16384 "vol-new" r)
       (calls (snd (Fake.run_in Fake.quiet Fake.cfg Fake.boot))).
Proof.
  refine (proj1 (proj2 (proj2 filesystem_tag_follows_snapshot) _
                   (AwsAsgEbs_AsgEbs (E := Fake.env Fake.quiet) (sorter := Fake.sort) 100 Fake.me)
                   Fake.cfg Fake.boot 20 "prod-data"%string "gp2"%string ∅ None
                   (Normal (Some "vol-new"%string, None)) _)
                "vol-new"%string "xvdb"%string false _).
  - vm_compute. do 3 right. left. reflexivity.
  - vm_compute. do 5 right. left. reflexivity.
Defined.

(** ** The precondition checks *)

(** C8: when the device path is there (os.Stat does not answer that it is
    missing), or the mount point occurs in the mount table, runAsgEbs over
    the AWS implementation exits with status 1 having invoked the checks
    only, and nothing it did was a request to the EC2 control plane. *)
Theorem precondition_failure_stops_run :
  forall (S : Type) (E : Env S) (sorter : GoSort) (stack : nat) (a : AwsAsgEbs)
         (cfg : Config) (s : S),
    let device := "/dev/" +:+ cfg_attachAs cfg in
    os_IsNotExist (fst (os_Stat device s)) = false
    \/ occurs_in (cfg_mountPoint cfg) (mounts_read (snd (os_Stat device s))) ->
    exists s' t,
      runAsgEbs (impl := AwsAsgEbs_AsgEbs (sorter := sorter) stack a) cfg s = (Exited 1, s', t)
      /\ Forall is_check (calls t)
      /\ Forall (fun e => control_plane e = false) (inner t)
      /\ Forall (fun e => mutating e = false) (inner t).
Proof.
  intros S E sorter stack a cfg s device Hfail.
  unfold runAsgEbs, preconditions. cbn [checkDevice checkMountPoint AwsAsgEbs_AsgEbs].
  unfold Aws.checkDevice, Aws.checkMountPoint, slurpFile. open_prog. fold device.
  destruct (os_Stat device s) as [err s1]. simpl in Hfail.
  destruct (os_IsNotExist err) eqn:Hexists; simpl.
  - destruct Hfail as [Hfail|Hfail]; [discriminate|].
    unfold mounts_read in Hfail.
    destruct (ioutil_ReadFile "/proc/mounts" s1) as [[v e] s2]. simpl in Hfail.
    apply Contains_occurs in Hfail.
    destruct e as [e|]; simpl; rewrite Hfail; simpl;
      do 2 eexists; (split; [reflexivity|]); simpl; repeat constructor.
  - do 2 eexists. split; [reflexivity|]. simpl. repeat constructor.
Qed.

Lemma precondition_failure_stops_run_witness :
  exists s' t,
    Fake.run_in Fake.quiet Fake.cfg device_present = (Exited 1, s', t)
    /\ Forall is_check (calls t)
    /\ Forall (fun e => control_plane e = false) (inner t)
    /\ Forall (fun e => mutating e = false) (inner t).
Proof.
  apply (precondition_failure_stops_run _ (Fake.env Fake.quiet) Fake.sort 100 Fake.me
           Fake.cfg device_present).
  left. reflexivity.
Defined.

(** ** Ten passes that all lose their volume *)

(* whatever the implementation: ten passes that each find a volume and fail
   to attach it are followed by mountVolume, and nothing is created *)
Lemma ten_lost_passes_then_mount {St : Type} {impl : AsgEbs St} (cfg : Config) (s : St) :
  cfg_snapshotName cfg = EmptyString ->
  exists checks passes rest,
    calls (snd (runAsgEbs cfg s)) = checks ++ concat passes ++ rest
    /\ Forall is_check checks
    /\ Forall (iteration cfg) passes
    /\ (Forall (lost cfg) passes -> length passes = 10%nat ->
        exists r, rest = [CmountVolume ("/dev/" +:+ cfg_attachAs cfg) (cfg_mountPoint cfg) r]).
Proof.
  intros Hname. pose proof (runAsgEbs_calls cfg s) as Hshape.
  destruct (runAsgEbs cfg s) as [[o s'] t]. simpl.
  destruct Hshape as (checks & found & made & done & -> & Hchecks & Hfound & _).
  unfold found_shape in Hfound. rewrite Hname in Hfound. simpl in Hfound.
  destruct Hfound as (passes & -> & _ & Hiter & Hlost).
  exists checks, passes, (made ++ done).
  split; [reflexivity|]. split; [assumption|]. split; [assumption|].
  intros Hl Hn. destruct (Hlost Hl Hn) as (-> & r & ->). now exists r.
Qed.

(** C1 does not hold of the code: after ten passes in which a volume was
    found and could not be attached, volumeId still holds the volume of the
    last pass, the creation is skipped, and the run goes on to mountVolume. *)
Theorem ten_lost_volumes_skip_creation :
  let t := snd (Fake.run_in contended Fake.cfg Fake.boot) in
  let pass :=
    [CfindVolume "env" "prod" (Normal (Some "vol-1"%string, None));
     CattachVolume "vol-1" "xvdb" false
       (Normal (Some (awserr "VolumeInUse" "vol-1 is already attached to an instance")))] in
  calls t
  = [CcheckDevice "/dev/xvdb" (Normal None); CcheckMountPoint "/data" (Normal None)]
    ++ concat (replicate 10 pass)
    ++ [CmountVolume "/dev/xvdb" "/data" (Normal None)]
  /\ lost Fake.cfg pass
  /\ ~ Exists is_createVolume (calls t)
  /\ Forall (fun e => match e with ECreateVolume _ _ => False | _ => True end) (inner t).
Proof.
  split; [vm_compute; reflexivity|]. split; [do 2 eexists; reflexivity|]. split.
  - vm_compute. intros Hex.
    repeat match goal with
           | Hx : Exists _ (_ :: _) |- _ => inversion Hx; clear Hx; subst
           | Hx : Exists _ [] |- _ => inversion Hx
           | Hx : False |- _ => destruct Hx
           end.
  - vm_compute. repeat constructor.
Qed.

(** ** Three runs that go well *)

(* a volume is there: it is attached at the first pass and mounted *)
Example run_reuses_volume :
  let '(o, _, t) := Fake.run_in one_volume Fake.cfg Fake.boot in
  o = Normal tt
  /\ calls t
     = [CcheckDevice "/dev/xvdb" (Normal None);
        CcheckMountPoint "/data" (Normal None);
        CfindVolume "env" "prod" (Normal (Some "vol-1"%string, None));
        CattachVolume "vol-1" "xvdb" false (Normal None);
        CmountVolume "/dev/xvdb" "/data" (Normal None)].
Proof. vm_compute. split; reflexivity. Qed.

(* no volume and no snapshot name: a blank volume is created, attached,
   formatted and mounted *)
Example run_creates_blank_volume :
  let '(o, _, t) := Fake.run_in Fake.quiet Fake.cfg Fake.boot in
  o = Normal tt
  /\ calls t
     = [CcheckDevice "/dev/xvdb" (Normal None);
        CcheckMountPoint "/data" (Normal None);
        CfindVolume "env" "prod" (Normal (None, None));
        CcreateVolume 20 "prod-data" "gp2" ∅ None (Normal (Some "vol-new"%string, None));
        CwaitUntilVolumeAvailable "vol-new" (Normal None);
        CattachVolume "vol-new" "xvdb" false (Normal None);
        CmakeFileSystem "/dev/xvdb" 16384 "vol-new" (Normal None);
        CmountVolume "/dev/xvdb" "/data" (Normal None)].
Proof. vm_compute. split; reflexivity. Qed.

(* a snapshot name: the volume is restored from the newest of the three
   snapshots, attached and mounted, and not formatted *)
Example run_restores_snapshot :
  let '(o, _, t) := Fake.run_in three_snapshots restore_cfg Fake.boot in
  o = Normal tt
  /\ calls t
     = [CcheckDevice "/dev/xvdb" (Normal None);
        CcheckMountPoint "/data" (Normal None);
        CfindSnapshot "Name" "nightly-backup" (Normal (Some "snap-wed"%string, None));
        CcreateVolume 20 "prod-data" "gp2" ∅ (Some "snap-wed"%string)
          (Normal (Some "vol-new"%string, None));
        CwaitUntilVolumeAvailable "vol-new" (Normal None);
        CattachVolume "vol-new" "xvdb" true (Normal None);
        CmountVolume "/dev/xvdb" "/data" (Normal None)]
  /\ In (ECreateTags
           {| cti_Resources := [Some "vol-new"%string];
              cti_Tags := [ {| tag_Key := "Name"; tag_Value := "prod-data" |};
                            {| tag_Key := "filesystem"; tag_Value := "true" |} ] |}
           None)
        (inner t).
Proof. vm_compute. split; [|split]; [reflexivity..|]. do 4 right. left. reflexivity. Qed.

(** ** strings.Index and strings.SplitN *)

Lemma Index_unfold (s sub : string) :
  Index s sub =
  if String.prefix sub s then Some 0%nat
  else match s with
       | EmptyString => None
       | String _ s' => option_map Datatypes.S (Index s' sub)
       end.
Proof. destruct s; reflexivity. Qed.

Lemma length_append (s t : string) :
  String.length (s +:+ t) = (String.length s + String.length t)%nat.
Proof. induction s as [|a s IH]; [reflexivity|]. rewrite append_cons. simpl. now rewrite IH. Qed.

Lemma substring_all (s : string) : String.substring 0 (String.length s) s = s.
Proof. induction s as [|a s IH]; simpl; [reflexivity|now rewrite IH]. Qed.

Lemma substring_head (pre x : string) :
  String.substring 0 (String.length pre) (pre +:+ x) = pre.
Proof.
  induction pre as [|a pre IH]; [destruct x; reflexivity|].
  rewrite append_cons. simpl. now rewrite IH.
Qed.

Lemma substring_tail (pre x : string) (n : nat) :
  String.substring (String.length pre) n (pre +:+ x) = String.substring 0 n x.
Proof. induction pre as [|a pre IH]; [reflexivity|]. rewrite append_cons. simpl. exact IH. Qed.

(* where Index finds [sub], it is there, and it is nowhere before *)
Lemma Index_Some (s sub : string) (m : nat) :
  Index s sub = Some m ->
  (exists pre post, s = pre +:+ sub +:+ post /\ String.length pre = m)
  /\ (forall pre' post', s = pre' +:+ sub +:+ post' -> (m <= String.length pre')%nat).
Proof.
  revert m. induction s as [|a s IH]; intros m; rewrite Index_unfold.
  - destruct (String.prefix sub EmptyString) eqn:Hp; [|discriminate].
    intros [= <-]. apply prefix_occurs in Hp as [post Hp]. split; [|intros; lia].
    exists EmptyString, post. split; [exact Hp|reflexivity].
  - destruct (String.prefix sub (String a s)) eqn:Hp.
    + intros [= <-]. apply prefix_occurs in Hp as [post Hp]. split; [|intros; lia].
      exists EmptyString, post. split; [exact Hp|reflexivity].
    + destruct (Index s sub) as [m'|] eqn:Hi; [|discriminate].
      intros [= <-]. destruct (IH m' eq_refl) as [(pre & post & -> & Hlen) Hmin]. split.
      * exists (String a pre), post. split; [reflexivity|simpl; now rewrite Hlen].
      * intros [|b pre'] post' Heq.
        -- assert (String.prefix sub (String a (pre +:+ sub +:+ post)) = true)
             by (apply prefix_occurs; eauto).
           congruence.
        -- rewrite append_cons in Heq. injection Heq as _ Heq.
           specialize (Hmin _ _ Heq). simpl. lia.
Qed.

Lemma Index_None (s sub : string) : Index s sub = None <-> ~ occurs_in sub s.
Proof.
  rewrite <- Contains_occurs.
  induction s as [|a s IH]; rewrite Index_unfold, Contains_unfold.
  - destruct (String.prefix sub EmptyString); split; congruence.
  - destruct (String.prefix sub (String a s)); [split; congruence|].
    destruct (Index s sub); simpl in *; split; intros; try congruence.
    + destruct IH as [_ IH]. now specialize (IH H).
    + now apply IH.
Qed.

(* a piece that stops at the first occurrence of a separator holds none *)
Lemma first_piece_clean (key sub post : string) :
  sub <> EmptyString ->
  (forall pre' post', key +:+ sub +:+ post = pre' +:+ sub +:+ post' ->
                      (String.length key <= String.length pre')%nat) ->
  ~ occurs_in sub key.
Proof.
  intros Hsub Hmin (a & b & ->).
  specialize (Hmin a (b +:+ sub +:+ post)).
  rewrite !append_assoc in Hmin. specialize (Hmin eq_refl).
  rewrite !length_append in Hmin.
  destruct sub; [congruence|]. simpl in Hmin. lia.
Qed.

Lemma SplitN_two (s sep : string) :
  sep <> EmptyString ->
  (~ occurs_in sep s /\ SplitN s sep 2 = [s])
  \/ (exists key value,
        s = key +:+ sep +:+ value
        /\ ~ occurs_in sep key
        /\ SplitN s sep 2 = [key; value]).
Proof.
  intros Hsep. cbn [SplitN]. destruct (Index s sep) as [m|] eqn:Hi.
  - right. destruct (Index_Some _ _ _ Hi) as [(key & value & -> & <-) Hmin].
    exists key, value. split; [reflexivity|]. split; [now apply first_piece_clean with value|].
    rewrite substring_head. f_equal. f_equal.
    rewrite <- length_append, <- append_assoc, substring_tail.
    rewrite !length_append.
    replace (String.length key + String.length sep + String.length value
             - (String.length key + String.length sep))%nat
      with (String.length value) by lia.
    apply substring_all.
  - left. split; [now apply Index_None|reflexivity].
Qed.

Lemma append_nil (s : string) : EmptyString +:+ s = s.
Proof. reflexivity. Qed.

Lemma no_eq_in_first_piece (key key' value value' : string) :
  key +:+ "=" +:+ value = key' +:+ "=" +:+ value' ->
  ~ occurs_in "=" key -> ~ occurs_in "=" key' ->
  key = key' /\ value = value'.
Proof.
  revert key'. induction key as [|a key IH]; intros [|b key'] Heq Hk Hk';
    rewrite ?append_cons, ?append_nil in Heq.
  - injection Heq as ->. auto.
  - injection Heq as <- _.
    destruct Hk'. exists EmptyString, key'. reflexivity.
  - injection Heq as -> _.
    destruct Hk. exists EmptyString, key. reflexivity.
  - injection Heq as <- Heq.
    destruct (IH key' Heq) as [-> ->]; [| |auto].
    + intros (p & q & ->). apply Hk. exists (String a p), q. reflexivity.
    + intros (p & q & ->). apply Hk'. exists (String a p), q. reflexivity.
Qed.

(** ** CreateTagsValue.Set *)

(** X1: Set accepts a string exactly when it holds an "="; a string with
    none is refused with the error "expected KEY=VALUE got '...'", and the
    map is left as it was. *)
Theorem Set_needs_equals_sign :
  forall (v : gmap string string) (str : string),
    (snd (CreateTagsValue_Set v str) = None <-> occurs_in "=" str)
    /\ (~ occurs_in "=" str ->
        CreateTagsValue_Set v str
        = (v, Some (errorString ("expected KEY=VALUE got '" +:+ str +:+ "'")))).
Proof.
  intros v str. unfold CreateTagsValue_Set.
  destruct (SplitN_two str "=") as [[Hno ->]|(key & value & -> & Hkey & ->)];
    [discriminate| |]; simpl.
  - split; [split; [discriminate|contradiction]|reflexivity].
  - split; [split; [intros _; now exists key, value|reflexivity]|].
    intros Hno. destruct Hno. now exists key, value.
Qed.

Lemma Set_needs_equals_sign_witness :
  CreateTagsValue_Set {[ "team"%string := "storage"%string ]} "owner:me"
  = ({[ "team"%string := "storage"%string ]},
     Some (errorString "expected KEY=VALUE got 'owner:me'")).
Proof.
  apply (proj2 (Set_needs_equals_sign {[ "team"%string := "storage"%string ]} "owner:me")).
  intros Hocc. apply Contains_occurs in Hocc. discriminate Hocc.
Defined.

(** X2: Set cuts the string at its first "=": for a key that holds no "="
    and any value, Set on key=value succeeds and the map then gives the
    value for the key, the value keeping every later "=", and gives for
    every other key what it gave before. *)
Theorem Set_cuts_at_first_equals_sign :
  forall (v : gmap string string) (key value : string),
    ~ occurs_in "=" key ->
    let '(v', err) := CreateTagsValue_Set v (key +:+ "=" +:+ value) in
    err = None
    /\ v' !! key = Some value
    /\ forall k, k <> key -> v' !! k = v !! k.
Proof.
  intros v key value Hkey. unfold CreateTagsValue_Set.
  destruct (SplitN_two (key +:+ "=" +:+ value) "=")
    as [[Hno _]|(key' & value' & Heq & Hkey' & ->)]; [discriminate| |].
  - destruct Hno. now exists key, value.
  - destruct (no_eq_in_first_piece _ _ _ _ Heq Hkey Hkey') as [<- <-]. simpl.
    split; [reflexivity|]. split; [apply lookup_insert_eq|].
    intros k Hk. now apply lookup_insert_ne.
Qed.

Lemma Set_cuts_at_first_equals_sign_witness :
  let '(v', err) := CreateTagsValue_Set {[ "filter"%string := "old"%string ]} "filter=a=b" in
  err = None
  /\ v' !! "filter"%string = Some "a=b"%string
  /\ forall k, k <> "filter"%string -> v' !! k = ({[ "filter"%string := "old"%string ]} : gmap string string) !! k.
Proof.
  apply (Set_cuts_at_first_equals_sign {[ "filter"%string := "old"%string ]} "filter" "a=b").
  intros Hocc. apply Contains_occurs in Hocc. discriminate Hocc.
Defined.

(** ** waitForFile without the clock's help, and with it *)

Lemma wrap64_id (z : Z) : 0 < z <= maxDuration -> wrap64 z = z.
Proof. intros Hz. apply wrap64_small. unfold minDuration, maxDuration in *. lia. Qed.

Lemma Time_Sub_same (t : Time) : Time_Sub t t = 0.
Proof. unfold Time_Sub. rewrite Z.sub_diag. reflexivity. Qed.

(** X3: when the file does not appear and the clock shows no time passing
    over a poll, waitForFile never returns: whatever number of frames the
    stack holds, the recursion uses them up, one poll per frame, and ends in
    the stack overflow. *)
Theorem waitForFile_needs_the_clock :
  forall (S : Type) (E : Env S) (file : string) (reach : S -> Prop),
    polls_stand_still file reach ->
    forall (timeout : Duration), 0 < timeout <= maxDuration ->
    forall (stack : nat) (s : S), reach s ->
      let '(o, _, t) := waitForFile stack file timeout s in
      o = StackOverflow /\ length (stats t) = stack.
Proof.
  intros S E file reach Hstill timeout Hrange stack.
  induction stack as [|stack IH]; intros s Hs; [split; reflexivity|].
  specialize (Hstill s Hs). cbn [waitForFile]. unfold time_Since. open_prog.
  destruct (time_Now s) as [t0 s1].
  destruct (os_Stat file s1) as [[e|] s2].
  - destruct (time_Now s2) as [t1 s3]. cbn in Hstill. destruct Hstill as (_ & -> & Hs3).
    rewrite Time_Sub_same, Z.sub_0_r, wrap64_id by assumption.
    destruct (Z.ltb_spec 0 timeout); [|lia].
    specialize (IH s3 Hs3). destruct (waitForFile stack file timeout s3) as [[o s'] t].
    destruct IH as [-> Hlen]. split; [reflexivity|]. simpl. now rewrite Hlen.
  - destruct (time_Now s2). cbn in Hstill. now destruct Hstill.
Qed.

Lemma waitForFile_needs_the_clock_witness :
  let '(o, _, t) :=
    waitForFile (E := Fake.env frozen) 1000 "/dev/xvdb" (60 * Second) Fake.boot in
  o = StackOverflow /\ length (stats t) = 1000%nat.
Proof.
  apply (waitForFile_needs_the_clock _ (Fake.env frozen) "/dev/xvdb"
           (fun s => Fake.files s = []) ltac:(
             intros s Hs; simpl; rewrite Hs; simpl;
             split; [discriminate|]; split; [lia|reflexivity])
           (60 * Second) ltac:(unfold Second, maxDuration; lia) 1000 Fake.boot eq_refl).
Defined.





(** ** attachVolume, step by step *)

Lemma waitForFile_events {S : Type} {E : Env S} (file : string) :
  forall (stack : nat) (timeout : Duration) (s : S),
    let '(o, _, t) := waitForFile stack file timeout s in
    (o = Normal None ->
     exists polls, t = polls ++ [EStat file None] /\ Forall (is_poll file) polls)
    /\ Forall (is_poll file) t.
Proof.
  induction stack as [|stack IH]; intros timeout s.
  - simpl. split; [discriminate|constructor].
  - cbn [waitForFile]. unfold time_Since. open_prog.
    destruct (time_Now s) as [t0 s1].
    destruct (os_Stat file s1) as [[e|] s2]; simpl.
    + destruct (time_Now s2) as [t1 s3]; simpl.
      destruct (0 <? wrap64 (timeout - Time_Sub t1 t0)).
      * specialize (IH (wrap64 (timeout - Time_Sub t1 t0)) s3).
        destruct (waitForFile stack file _ s3) as [[o s'] t].
        destruct IH as [Hnil Hall]. split.
        -- intros Ho. destruct (Hnil Ho) as (polls & -> & Hpolls).
           exists (ENow t0 :: EStat file (Some e) :: ENow t1 :: polls).
           split; [reflexivity|]. repeat (constructor; [simpl; auto|]). assumption.
        -- repeat (constructor; [simpl; auto|]). assumption.
      * split; [discriminate|]. repeat (constructor; [simpl; auto|]). constructor.
    + split.
      * intros _. exists [ENow t0]. split; [reflexivity|]. repeat constructor.
      * repeat (constructor; [simpl; auto|]). constructor.
Qed.

Lemma is_poll_no_refusal (file : string) (t : list event) :
  Forall (is_poll file) t -> Forall (fun e => refusal e = None) t.
Proof.
  intros H. eapply Forall_impl; [exact H|]. intros [] Hp; simpl in *; tauto.
Qed.

(* a trace whose one refusal is its last event *)
Lemma refusal_is_last (init : list event) (final : event) (err : error) :
  Forall (fun e => refusal e = None) init ->
  refusal final = Some err ->
  forall pre ev post err',
    init ++ [final] = pre ++ ev :: post ->
    refusal ev = Some err' ->
    post = [] /\ err' = err /\ pre = init.
Proof.
  intros Hinit Hfinal. induction Hinit as [|e init He _ IH]; intros pre ev post err' Heq Hev.
  - destruct pre as [|p pre]; simpl in Heq.
    + injection Heq as -> <-. split; [reflexivity|]. split; [congruence|reflexivity].
    + injection Heq as _ Heq. now destruct pre.
  - destruct pre as [|p pre]; simpl in Heq.
    + injection Heq as -> _. congruence.
    + injection Heq as -> Heq.
      destruct (IH _ _ _ _ Heq Hev) as (-> & -> & ->). auto.
Qed.

Lemma no_refusal_in (t pre post : list event) (ev : event) (err : error) :
  Forall (fun e => refusal e = None) t ->
  t = pre ++ ev :: post ->
  refusal ev = Some err ->
  False.
Proof.
  intros Hall -> Hev. apply Forall_app in Hall as [_ Hall].
  inversion Hall; subst. congruence.
Qed.

(** X5: when attachVolume returns nil, the attach request and the wait for
    the in-use state were answered without error, the instance attribute
    was set exactly when delete-on-termination was asked for, and the last
    thing attachVolume did was to find the device node; between the requests
    and that there are only polls for the node. *)
Theorem attachVolume_nil_means_attached :
  forall (S : Type) (E : Env S) (stack : nat) (a : AwsAsgEbs)
         (volumeId attachAs : string) (deleteOnTermination : bool) (s : S),
    fst (fst (Aws.attachVolume stack a volumeId attachAs deleteOnTermination s))
    = Normal None ->
    exists polls,
      snd (Aws.attachVolume stack a volumeId attachAs deleteOnTermination s)
      = [ EAttachVolume (attachVolumeInput a volumeId attachAs) None;
          EWaitUntilVolumeInUse (waitInput volumeId) None ]
        ++ (if deleteOnTermination
            then [EModifyInstanceAttribute
                    (modifyInstanceAttributeInput a volumeId attachAs) None]
            else [])
        ++ polls ++ [EStat ("/dev/" +:+ attachAs) None]
      /\ Forall (is_poll ("/dev/" +:+ attachAs)) polls.
Proof.
  intros S E stack a volumeId attachAs deleteOnTermination s.
  unfold Aws.attachVolume, attachVolumeInput, modifyInstanceAttributeInput, waitInput.
  open_prog.
  destruct (ec2_AttachVolume _ s) as [[e|] s1]; [discriminate|].
  destruct (ec2_WaitUntilVolumeInUse _ s1) as [[e|] s2]; [discriminate|].
  destruct deleteOnTermination.
  - destruct (ec2_ModifyInstanceAttribute _ s2) as [[e|] s3]; [discriminate|].
    pose proof (waitForFile_events ("/dev/" +:+ attachAs) stack (60 * Second) s3) as Hw.
    destruct (waitForFile stack _ _ s3) as [[[[e|]| | |] s4] t]; simpl; try discriminate.
    intros _. destruct Hw as [Hnil _].
    destruct (Hnil eq_refl) as (polls & -> & Hpolls).
    exists polls. rewrite ?app_nil_r. split; [reflexivity|assumption].
  - pose proof (waitForFile_events ("/dev/" +:+ attachAs) stack (60 * Second) s2) as Hw.
    destruct (waitForFile stack _ _ s2) as [[[[e|]| | |] s4] t]; simpl; try discriminate.
    intros _. destruct Hw as [Hnil _].
    destruct (Hnil eq_refl) as (polls & -> & Hpolls).
    exists polls. rewrite ?app_nil_r. split; [reflexivity|assumption].
Qed.

Lemma attachVolume_nil_means_attached_witness :
  exists polls,
    snd (Aws.attachVolume (E := Fake.env Fake.quiet) 100 Fake.me "vol-1" "xvdb" true Fake.boot)
    = [ EAttachVolume (attachVolumeInput Fake.me "vol-1" "xvdb") None;
        EWaitUntilVolumeInUse (waitInput "vol-1") None ]
      ++ [EModifyInstanceAttribute
            (modifyInstanceAttributeInput Fake.me "vol-1" "xvdb") None]
      ++ polls ++ [EStat ("/dev/" +:+ "xvdb") None]
    /\ Forall (is_poll ("/dev/" +:+ "xvdb")) polls.
Proof.
  apply (attachVolume_nil_means_attached _ (Fake.env Fake.quiet) 100 Fake.me
           "vol-1" "xvdb" true Fake.boot).
  vm_compute. reflexivity.
Defined.

(** X6: attachVolume stops at the first request the service refuses: the
    refused request is the last event of its trace, no request before it was
    refused, and the error of the refusal is what attachVolume returns. *)
Theorem attachVolume_stops_at_first_refusal :
  forall (S : Type) (E : Env S) (stack : nat) (a : AwsAsgEbs)
         (volumeId attachAs : string) (deleteOnTermination : bool) (s : S)
         (pre post : list event) (ev : event) (err : error),
    snd (Aws.attachVolume stack a volumeId attachAs deleteOnTermination s)
    = pre ++ ev :: post ->
    refusal ev = Some err ->
    post = []
    /\ Forall (fun e => refusal e = None) pre
    /\ fst (fst (Aws.attachVolume stack a volumeId attachAs deleteOnTermination s))
       = Normal (Some err).
Proof.
  intros S E stack a volumeId attachAs deleteOnTermination s pre post ev err.
  unfold Aws.attachVolume. open_prog.
  destruct (ec2_AttachVolume _ s) as [[e|] s1]; simpl.
  { intros Heq Hev.
    destruct (refusal_is_last [] (EAttachVolume _ (Some e)) e
                ltac:(constructor) eq_refl _ _ _ _ Heq Hev) as (-> & -> & ->).
    repeat split; constructor. }
  destruct (ec2_WaitUntilVolumeInUse _ s1) as [[e|] s2]; simpl.
  { intros Heq Hev.
    destruct (refusal_is_last [EAttachVolume _ None] (EWaitUntilVolumeInUse _ (Some e)) e
                ltac:(repeat constructor) eq_refl _ _ _ _ Heq Hev) as (-> & -> & ->).
    repeat split; repeat constructor. }
  destruct deleteOnTermination.
  - destruct (ec2_ModifyInstanceAttribute _ s2) as [[e|] s3]; simpl.
    { intros Heq Hev.
      destruct (refusal_is_last [EAttachVolume _ None; EWaitUntilVolumeInUse _ None]
                  (EModifyInstanceAttribute _ (Some e)) e
                  ltac:(repeat constructor) eq_refl _ _ _ _ Heq Hev) as (-> & -> & ->).
      repeat split; repeat constructor. }
    pose proof (waitForFile_events ("/dev/" +:+ attachAs) stack (60 * Second) s3) as Hw.
    destruct (waitForFile stack _ _ s3) as [[o s4] t]. destruct Hw as [_ Hall].
    apply is_poll_no_refusal in Hall.
    assert (Forall (fun e => refusal e = None)
              (EAttachVolume
                 {| avi_VolumeId := volumeId; avi_Device := attachAs;
                    avi_InstanceId := InstanceId a |} None
               :: EWaitUntilVolumeInUse
                    {| dvi_Filters := []; dvi_VolumeIds := [volumeId] |} None
               :: EModifyInstanceAttribute
                    {| mia_Attribute := "blockDeviceMapping";
                       mia_InstanceId := InstanceId a;
                       mia_BlockDeviceMappings :=
                         [ {| bdm_DeviceName := attachAs;
                              bdm_Ebs := {| ebs_DeleteOnTermination := true;
                                            ebs_VolumeId := volumeId |} |} ] |} None
               :: t)) as Hnone by (repeat (constructor; [reflexivity|]); assumption).
    intros Heq Hev. exfalso.
    destruct o as [[e|]| | |]; simpl in Heq; rewrite ?app_nil_r in Heq;
      exact (no_refusal_in _ _ _ _ _ Hnone Heq Hev).
  - pose proof (waitForFile_events ("/dev/" +:+ attachAs) stack (60 * Second) s2) as Hw.
    destruct (waitForFile stack _ _ s2) as [[o s4] t]. destruct Hw as [_ Hall].
    apply is_poll_no_refusal in Hall.
    assert (Forall (fun e => refusal e = None)
              (EAttachVolume
                 {| avi_VolumeId := volumeId; avi_Device := attachAs;
                    avi_InstanceId := InstanceId a |} None
               :: EWaitUntilVolumeInUse
                    {| dvi_Filters := []; dvi_VolumeIds := [volumeId] |} None
               :: t)) as Hnone by (repeat (constructor; [reflexivity|]); assumption).
    intros Heq Hev. exfalso.
    destruct o as [[e|]| | |]; simpl in Heq; rewrite ?app_nil_r in Heq;
      exact (no_refusal_in _ _ _ _ _ Hnone Heq Hev).
Qed.

Lemma attachVolume_stops_at_first_refusal_witness :
  let e := awserr "AttachmentLimitExceeded" "Attachment limit exceeded." in
  @nil event = []
  /\ Forall (fun e => refusal e = None) (@nil event)
  /\ fst (fst (Aws.attachVolume (E := Fake.env attach_refused) 100 Fake.me
                 "vol-1" "xvdb" true Fake.boot))
     = Normal (Some e).
Proof.
  intros e.
  apply (attachVolume_stops_at_first_refusal _ (Fake.env attach_refused) 100 Fake.me
           "vol-1" "xvdb" true Fake.boot []
           [] (EAttachVolume (attachVolumeInput Fake.me "vol-1" "xvdb") (Some e)) e).
  - vm_compute. reflexivity.
  - reflexivity.
Defined.

(** ** checkMountPoint at the edges *)

Lemma Contains_empty (s : string) : Contains s EmptyString = true.
Proof. rewrite Contains_unfold. now destruct s. Qed.

Lemma Contains_in_empty (sub : string) :
  sub <> EmptyString -> Contains EmptyString sub = false.
Proof. intros Hne. rewrite Contains_unfold. destruct sub; [congruence|reflexivity]. Qed.

(** X7: the empty mount point is rejected whatever the mount table holds;
    and when no byte of the mount table could be read, every other mount
    point passes the check. *)
Theorem checkMountPoint_edges :
  forall (S : Type) (E : Env S) (s : S),
    fst (fst (Aws.checkMountPoint EmptyString s))
    = Normal (Some (errors_New "Already mounted"))
    /\ forall mountPoint : string,
         mountPoint <> EmptyString ->
         mounts_read s = EmptyString ->
         fst (fst (Aws.checkMountPoint mountPoint s)) = Normal None.
Proof.
  intros S E s. split.
  - rewrite checkMountPoint_result, Contains_empty. reflexivity.
  - intros mountPoint Hne Hread.
    rewrite checkMountPoint_result, Hread, Contains_in_empty by assumption.
    reflexivity.
Qed.

Lemma checkMountPoint_edges_witness :
  fst (fst (Aws.checkMountPoint (E := Fake.env frozen) "/data" Fake.boot)) = Normal None.
Proof.
  apply (proj2 (checkMountPoint_edges _ (Fake.env frozen) Fake.boot) "/data").
  - discriminate.
  - reflexivity.
Defined.

(** ** findVolume on a pool with a match *)

Lemma filter_first {A} (P : A -> Prop) `{forall x, Decision (P x)}
    (before after : list A) (x : A) :
  Forall (fun y => ~ P y) before -> P x ->
  filter P (before ++ x :: after) = x :: filter P after.
Proof.
  intros Hbefore Hx. induction Hbefore as [|y before Hy _ IH]; simpl.
  - now rewrite filter_cons_True.
  - now rewrite filter_cons_False.
Qed.

(** X8: when the query succeeds, answering with the volumes of the pool
    that satisfy its filters in the order of the pool, findVolume returns
    the id of the first eligible volume of the pool. *)
Theorem findVolume_first_eligible :
  forall (S : Type) (E : Env S) (a : AwsAsgEbs) (tagKey tagValue : string) (s : S)
         (before after : list Volume) (vol : Volume),
    let params := Aws.findVolume_params a tagKey tagValue in
    fst (ec2_DescribeVolumes params s)
    = Ok (filter (fun v => satisfies (dvi_Filters params) v = true)
            (before ++ vol :: after)) ->
    Forall (fun v => ~ eligible a tagKey tagValue v) before ->
    eligible a tagKey tagValue vol ->
    fst (fst (Aws.findVolume a tagKey tagValue s)) = Normal (vol_VolumeId vol, None).
Proof.
  intros S E a tagKey tagValue s before after vol params Hanswer Hbefore Hvol.
  rewrite findVolume_run. fold params. simpl. rewrite Hanswer.
  rewrite filter_first; [reflexivity| |].
  - eapply Forall_impl; [exact Hbefore|].
    intros v Hv Hsat. apply Hv. now apply findVolume_params_eligible.
  - now apply findVolume_params_eligible.
Qed.

Lemma findVolume_first_eligible_witness :
  fst (fst (Aws.findVolume (E := Fake.env two_pools) Fake.me "env" "prod" Fake.boot))
  = Normal (vol_VolumeId (Fake.prod_volume "vol-1"), None).
Proof.
  apply (findVolume_first_eligible _ (Fake.env two_pools) Fake.me "env" "prod" Fake.boot
           [ {| vol_VolumeId := Some "vol-0"%string; vol_AvailabilityZone := "us-east-1a";
                vol_State := "available";
                vol_Tags := [ {| tag_Key := "env"; tag_Value := "test" |};
                              {| tag_Key := "filesystem"; tag_Value := "true" |} ] |} ]
           [Fake.prod_volume "vol-2"] (Fake.prod_volume "vol-1")).
  - reflexivity.
  - constructor; [|constructor]. intros (Htag & _). discriminate Htag.
  - repeat split; reflexivity.
Defined.

(** ** The tags of a new volume *)

Lemma createVolume_tag_request {S : Type} {E : Env S} (a : AwsAsgEbs) (createSize : Z)
    (createName createVolumeType : string) (createTags : gmap string string)
    (snapshotId : option string) (s : S) (i : CreateTagsInput) (r : option error) :
  In (ECreateTags i r)
     (snd (Aws.createVolume a createSize createName createVolumeType createTags
             snapshotId s)) ->
  exists vol, i = createTagsInput vol createName createTags snapshotId.
Proof.
  rewrite createVolume_run. simpl.
  destruct (ec2_CreateVolume _ s) as [[vol|err] s1]; simpl.
  - destruct (ec2_CreateTags _ s1) as [err s2]. simpl.
    intros [[=]|[[= <- _]|[]]]. now exists vol.
  - intros [[=]|[]].
Qed.

Lemma tag_keys (l : list (string * string)) :
  map tag_Key (map (fun kv => {| tag_Key := fst kv; tag_Value := snd kv |}) l) = l.*1.
Proof. induction l as [|kv l IH]; simpl; [reflexivity|now rewrite IH]. Qed.

(** X10: the tag request createVolume sends for a new volume carries Name,
    then filesystem, then one tag for each entry of the caller's tags and
    nothing else: a tag follows the first two exactly when the caller's map
    holds its key with its value, and no two of these share a key. *)
Theorem createVolume_tags_are_the_callers :
  forall (S : Type) (E : Env S) (a : AwsAsgEbs) (createSize : Z)
         (createName createVolumeType : string) (createTags : gmap string string)
         (snapshotId : option string) (s : S) (i : CreateTagsInput) (r : option error),
    In (ECreateTags i r)
       (snd (Aws.createVolume a createSize createName createVolumeType createTags
               snapshotId s)) ->
    exists own : list Tag,
      cti_Tags i
      = [ {| tag_Key := "Name"; tag_Value := createName |};
          {| tag_Key := "filesystem"; tag_Value := filesystem_for snapshotId |} ] ++ own
      /\ (forall k v, In {| tag_Key := k; tag_Value := v |} own <-> createTags !! k = Some v)
      /\ length own = size createTags
      /\ NoDup (map tag_Key own).
Proof.
  intros S E a createSize createName createVolumeType createTags snapshotId s i r Hin.
  destruct (createVolume_tag_request _ _ _ _ _ _ _ _ _ Hin) as [vol ->].
  exists (map (fun kv => {| tag_Key := fst kv; tag_Value := snd kv |})
            (map_to_list createTags)).
  split; [reflexivity|]. split; [|split].
  - intros k v. rewrite <- elem_of_map_to_list, in_map_iff. split.
    + intros ([k' v'] & [= -> ->] & Hkv). now apply list_elem_of_In.
    + intros Hkv. exists (k, v). split; [reflexivity|]. now apply list_elem_of_In.
  - rewrite length_map. apply length_map_to_list.
  - rewrite tag_keys. apply NoDup_fst_map_to_list.
Qed.

Lemma createVolume_tags_are_the_callers_witness :
  exists own : list Tag,
    cti_Tags (createTagsInput
                {| vol_VolumeId := Some "vol-new"%string;
                   vol_AvailabilityZone := "us-east-1a";
                   vol_State := "creating"; vol_Tags := [] |}
                "prod-data" team_tags None)
    = [ {| tag_Key := "Name"; tag_Value := "prod-data" |};
        {| tag_Key := "filesystem"; tag_Value := filesystem_for None |} ] ++ own
    /\ (forall k v, In {| tag_Key := k; tag_Value := v |} own <-> team_tags !! k = Some v)
    /\ length own = size team_tags
    /\ NoDup (map tag_Key own).
Proof.
  apply (createVolume_tags_are_the_callers _ (Fake.env Fake.quiet) Fake.me 20
           "prod-data" "gp2" team_tags None Fake.boot _ None).
  vm_compute. right. left. reflexivity.
Defined.

(** X11: the caller's tags are added to the two tags of the program, they
    do not replace them: when the caller's map holds the key filesystem, the
    tag request names that key twice, first with the value the program set,
    then with the caller's. *)
Theorem createVolume_callers_filesystem_tag :
  forall (S : Type) (E : Env S) (a : AwsAsgEbs) (createSize : Z)
         (createName createVolumeType : string) (createTags : gmap string string)
         (snapshotId : option string) (s : S) (i : CreateTagsInput) (r : option error)
         (value : string),
    In (ECreateTags i r)
       (snd (Aws.createVolume a createSize createName createVolumeType createTags
               snapshotId s)) ->
    createTags !! "filesystem"%string = Some value ->
    ~ NoDup (map tag_Key (cti_Tags i))
    /\ exists own : list Tag,
         cti_Tags i
         = [ {| tag_Key := "Name"; tag_Value := createName |};
             {| tag_Key := "filesystem"; tag_Value := filesystem_for snapshotId |} ] ++ own
         /\ In {| tag_Key := "filesystem"; tag_Value := value |} own.
Proof.
  intros S E a createSize createName createVolumeType createTags snapshotId s i r value
         Hin Hvalue.
  destruct (createVolume_tag_request _ _ _ _ _ _ _ _ _ Hin) as [vol ->].
  assert (In {| tag_Key := "filesystem"; tag_Value := value |}
             (map (fun kv => {| tag_Key := fst kv; tag_Value := snd kv |})
                (map_to_list createTags))) as Hown.
  { apply in_map_iff. exists ("filesystem"%string, value). split; [reflexivity|].
    apply list_elem_of_In, elem_of_map_to_list. exact Hvalue. }
  split.
  - simpl. unfold Aws.createVolume_tags. simpl. intros Hnodup.
    apply NoDup_cons in Hnodup as [_ Hnodup].
    apply NoDup_cons in Hnodup as [Hnotin _].
    apply Hnotin, list_elem_of_In, in_map_iff.
    exists {| tag_Key := "filesystem"; tag_Value := value |}. split; [reflexivity|exact Hown].
  - eexists. split; [reflexivity|exact Hown].
Qed.

Lemma createVolume_callers_filesystem_tag_witness :
  let i := createTagsInput
             {| vol_VolumeId := Some "vol-new"%string;
                vol_AvailabilityZone := "us-east-1a";
                vol_State := "creating"; vol_Tags := [] |}
             "prod-data" clashing_tags None in
  ~ NoDup (map tag_Key (cti_Tags i))
  /\ exists own : list Tag,
       cti_Tags i
       = [ {| tag_Key := "Name"; tag_Value := "prod-data" |};
           {| tag_Key := "filesystem"; tag_Value := filesystem_for None |} ] ++ own
       /\ In {| tag_Key := "filesystem"; tag_Value := "xfs" |} own.
Proof.
  intros i.
  apply (createVolume_callers_filesystem_tag _ (Fake.env Fake.quiet) Fake.me 20
           "prod-data" "gp2" clashing_tags None Fake.boot i None "xfs").
  - vm_compute. right. left. reflexivity.
  - reflexivity.
Defined.

(** ** findSnapshot and the order of the answer *)

Lemma same_start_same_snapshot (l : list Snapshot) (x y : Snapshot) :
  NoDup (map snap_StartTime l) -> In x l -> In y l ->
  snap_StartTime x = snap_StartTime y -> x = y.
Proof.
  induction l as [|z l IH]; simpl; [intros _ []|].
  intros Hnd Hx Hy Heq. apply NoDup_cons in Hnd as [Hz Hnd].
  destruct Hx as [->|Hx], Hy as [->|Hy]; auto.
  - exfalso. apply Hz. rewrite Heq. apply list_elem_of_In, in_map, Hy.
  - exfalso. apply Hz. rewrite <- Heq. apply list_elem_of_In, in_map, Hx.
Qed.

(* the head of the sorted answer, when no two start times are alike *)
Lemma sorted_head_is_the_newest (sorter : GoSort) (l : list Snapshot) (x : Snapshot)
    (rest : list Snapshot) :
  sorts sorter newest_first l ->
  sort_Sort (GoSort := sorter) Snapshot newest_first l = x :: rest ->
  In x l /\ forall y, In y l -> snap_StartTime y <= snap_StartTime x.
Proof.
  intros [Hperm Hsorted] Heq. rewrite Heq in Hperm, Hsorted. split.
  - eapply Permutation_in; [exact Hperm|now left].
  - intros y Hy. apply (sorted_head_newest x rest Hsorted).
    eapply Permutation_in; [apply Permutation_sym, Hperm|exact Hy].
Qed.

(** X9: when no two snapshots of the answer started at the same time, the
    snapshot findSnapshot returns does not depend on the order in which the
    service lists them, nor on how sort.Sort goes about its work: two
    executions whose answers hold the same snapshots return the same id. *)
Theorem findSnapshot_ignores_the_order_of_the_answer :
  forall (S S' : Type) (E : Env S) (E' : Env S') (sorter sorter' : GoSort)
         (tagKey tagValue : string) (s : S) (s' : S')
         (snapshots snapshots' : list Snapshot),
    fst (ec2_DescribeSnapshots (Aws.describeSnapshotsInput tagKey tagValue) s)
    = Ok snapshots ->
    fst (ec2_DescribeSnapshots (Aws.describeSnapshotsInput tagKey tagValue) s')
    = Ok snapshots' ->
    Permutation snapshots snapshots' ->
    NoDup (map snap_StartTime snapshots) ->
    sorts sorter newest_first snapshots ->
    sorts sorter' newest_first snapshots' ->
    fst (fst (Aws.findSnapshot (sorter := sorter) tagKey tagValue s))
    = fst (fst (Aws.findSnapshot (sorter := sorter') tagKey tagValue s')).
Proof.
  intros S S' E E' sorter sorter' tagKey tagValue s s' snapshots snapshots'
         Hanswer Hanswer' Hperm Hnodup Hsorts Hsorts'.
  rewrite !findSnapshot_run. simpl. rewrite Hanswer, Hanswer'.
  destruct (sort_Sort (GoSort := sorter) Snapshot newest_first snapshots)
    as [|x rest] eqn:Hx;
    destruct (sort_Sort (GoSort := sorter') Snapshot newest_first snapshots')
      as [|x' rest'] eqn:Hx'.
  - reflexivity.
  - exfalso. destruct Hsorts as [Hp _], Hsorts' as [Hp' _]. rewrite Hx in Hp.
    rewrite Hx' in Hp'. apply Permutation_nil in Hp. subst snapshots.
    apply Permutation_nil in Hperm. subst snapshots'.
    apply Permutation_sym, Permutation_nil in Hp'. discriminate Hp'.
  - exfalso. destruct Hsorts as [Hp _], Hsorts' as [Hp' _]. rewrite Hx in Hp.
    rewrite Hx' in Hp'. apply Permutation_nil in Hp'. subst snapshots'.
    apply Permutation_sym, Permutation_nil in Hperm. subst snapshots.
    apply Permutation_sym, Permutation_nil in Hp. discriminate Hp.
  - destruct (sorted_head_is_the_newest _ _ _ _ Hsorts Hx) as [Hin Hmax].
    destruct (sorted_head_is_the_newest _ _ _ _ Hsorts' Hx') as [Hin' Hmax'].
    apply (Permutation_in _ (Permutation_sym Hperm)) in Hin'.
    assert (x = x') as ->; [|reflexivity].
    apply (same_start_same_snapshot snapshots); auto.
    apply Z.le_antisymm; [|now apply Hmax].
    apply Hmax'. eapply Permutation_in; [exact Hperm|exact Hin].
Qed.

Lemma findSnapshot_ignores_the_order_of_the_answer_witness :
  fst (fst (Aws.findSnapshot (E := Fake.env three_snapshots) (sorter := Fake.sort)
              "Name" "nightly-backup" Fake.boot))
  = fst (fst (Aws.findSnapshot (E := Fake.env nightly_reversed) (sorter := Fake.sort)
                "Name" "nightly-backup" Fake.boot)).
Proof.
  apply (findSnapshot_ignores_the_order_of_the_answer _ _
           (Fake.env three_snapshots) (Fake.env nightly_reversed) Fake.sort Fake.sort
           "Name" "nightly-backup" Fake.boot Fake.boot nightly (rev nightly)).
  - reflexivity.
  - reflexivity.
  - apply Permutation_rev.
  - apply (bool_decide_unpack _). vm_compute. exact I.
  - apply Fake_sort_sorts. intros a b.
    unfold newest_first, sort_Reverse, ByStartTime_Less, Before. lia.
  - apply Fake_sort_sorts. intros a b.
    unfold newest_first, sort_Reverse, ByStartTime_Less, Before. lia.
Defined.

(** ** The course of a run *)

Section CourseOfRun.
Context {St : Type} {impl : AsgEbs St}.
Variable cfg : Config.

Lemma preconditions_course (s : St) :
  let '(o, _, t) := preconditions cfg s in checks_course cfg (calls t) o.
Proof.
  unfold preconditions. open_prog. fold (attachAsDevice cfg).
  destruct (checkDevice _ s) as [[o1 s1] t1].
  destruct o1 as [[e|]| | |]; norm_calls; try solve [apply checks_device; simpl; auto].
  destruct (checkMountPoint _ s1) as [[o2 s2] t2].
  destruct o2 as [[e|]| | |]; norm_calls;
    first [apply checks_passed | apply checks_mounts; simpl; auto].
Qed.

Lemma reuseLoop_course (attempts : list Z) (volumeId : option string) (s : St) :
  let '(o, _, t) := reuseLoop cfg attempts volumeId s in
  loop_course cfg (length attempts) volumeId (calls t) o.
Proof.
  revert volumeId s. induction attempts as [|i attempts IH]; intros volumeId s.
  - apply loop_over.
  - cbn [reuseLoop length]. open_prog.
    change (CfindVolume (cfg_tagKey cfg) (cfg_tagValue cfg)) with (find_call cfg).
    destruct (findVolume (cfg_tagKey cfg) (cfg_tagValue cfg) s) as [[o1 s1] t1].
    destruct o1 as [[found err]| | |]; norm_calls;
      try solve [apply loop_stopped; simpl; auto].
    destruct err as [e|]; norm_calls; [apply loop_stopped; simpl; auto|].
    destruct found as [v|]; norm_calls; [|apply loop_nothing].
    change (CattachVolume v (cfg_attachAs cfg) (cfg_deleteOnTermination cfg))
      with (attach_call cfg v).
    destruct (attachVolume v (cfg_attachAs cfg) (cfg_deleteOnTermination cfg) s1)
      as [[o2 s2] t2].
    destruct o2 as [[e|]| | |]; norm_calls;
      try solve [apply loop_broken; simpl; auto]; [|apply loop_attached].
    specialize (IH (Some v) s2).
    destruct (reuseLoop cfg attempts (Some v) s2) as [[o3 s3] t3].
    norm_calls. now apply loop_lost.
Qed.

Lemma acquire_course (s : St) :
  let '(o, _, t) := acquire cfg s in search_course cfg (calls t) o.
Proof.
  unfold acquire.
  destruct (cfg_snapshotName cfg =? EmptyString)%string eqn:Hname.
  - pose proof (reuseLoop_course (seqZ 1 10) None s) as Hloop.
    unfold bind, ret.
    destruct (reuseLoop cfg (seqZ 1 10) None s) as [[o1 s1] t1].
    change (length (seqZ 1 10)) with 10%nat in Hloop.
    destruct o1 as [v| | |]; norm_calls.
    + now apply search_reuse.
    + eapply search_reuse_stopped; eauto. reflexivity.
    + eapply search_reuse_stopped; eauto. reflexivity.
    + eapply search_reuse_stopped; eauto. exact I.
  - open_prog.
    change (CfindSnapshot "Name" (cfg_snapshotName cfg)) with (snapshot_call cfg).
    destruct (findSnapshot "Name" (cfg_snapshotName cfg) s) as [[o1 s1] t1].
    destruct o1 as [[found [e|]]| | |]; norm_calls;
      first [ now apply search_snapshot
            | apply search_snapshot_stopped; simpl; auto ].
Qed.

Lemma provision_course (volumeId snapshotId : option string) (s : St) :
  let '(o, _, t) := provision cfg volumeId snapshotId s in
  creation_course cfg snapshotId volumeId (calls t) o.
Proof.
  unfold provision. destruct volumeId as [v|]; [apply creation_skipped|]. open_prog.
  change (CcreateVolume (cfg_createSize cfg) (cfg_createName cfg)
            (cfg_createVolumeType cfg) (cfg_createTags cfg) snapshotId)
    with (create_call cfg snapshotId).
  destruct (createVolume _ _ _ _ _ s) as [[o1 s1] t1].
  destruct o1 as [[created err]| | |]; norm_calls;
    try solve [apply creation_stopped; simpl; auto].
  destruct err as [e|]; norm_calls; [apply creation_stopped; simpl; auto|].
  destruct created as [v|]; norm_calls; [|apply creation_no_id].
  destruct (waitUntilVolumeAvailable v s1) as [[o2 s2] t2].
  destruct o2 as [[e|]| | |]; norm_calls;
    try solve [apply creation_wait_stopped; simpl; auto].
  change (CattachVolume v (cfg_attachAs cfg) (cfg_deleteOnTermination cfg))
    with (attach_call cfg v).
  destruct (attachVolume v _ _ s2) as [[o3 s3] t3].
  destruct o3 as [[e|]| | |]; norm_calls;
    first [ apply creation_attached
          | apply creation_attach_stopped; simpl; auto ].
Qed.

Lemma finish_course (volumeId : option string) (createFileSystemOnVolume : bool) (s : St) :
  let '(o, _, t) := finish cfg volumeId createFileSystemOnVolume s in
  ending_course cfg volumeId createFileSystemOnVolume (calls t) o.
Proof.
  unfold finish. open_prog. fold (attachAsDevice cfg).
  change (CmountVolume (attachAsDevice cfg) (cfg_mountPoint cfg)) with (mount_call cfg).
  destruct createFileSystemOnVolume; simpl.
  - destruct volumeId as [v|]; norm_calls; [|apply ending_no_id].
    change (CmakeFileSystem (attachAsDevice cfg) (cfg_mkfsInodeRatio cfg) v)
      with (format_call cfg v).
    destruct (makeFileSystem _ _ v s) as [[o1 s1] t1].
    destruct o1 as [[e|]| | |]; norm_calls;
      try solve [apply ending_format_stopped; simpl; auto].
    destruct (mountVolume _ _ s1) as [[o2 s2] t2].
    destruct o2 as [[e|]| | |]; norm_calls; apply ending_formatted; simpl; auto.
  - destruct (mountVolume _ _ s) as [[o2 s2] t2].
    destruct o2 as [[e|]| | |]; norm_calls; apply ending_mounted; simpl; auto.
Qed.

Lemma runAsgEbs_course (s : St) :
  let '(o, _, t) := runAsgEbs cfg s in run_course cfg (calls t) o.
Proof.
  unfold runAsgEbs, bind.
  pose proof (preconditions_course s) as H0.
  destruct (preconditions cfg s) as [[o0 s0] t0].
  destruct o0 as [[]| | |]; try solve [apply run_checks; [assumption|discriminate]].
  pose proof (acquire_course s0) as H1.
  destruct (acquire cfg s0) as [[o1 s1] t1].
  destruct o1 as [[volumeId snapshotId]| | |]; rewrite ?calls_app;
    try solve [eapply run_search; eauto; simpl; auto].
  pose proof (provision_course volumeId snapshotId s1) as H2.
  destruct (provision cfg volumeId snapshotId s1) as [[o2 s2] t2].
  destruct o2 as [[volumeId' fs]| | |]; rewrite ?calls_app;
    try solve [eapply run_creation; eauto; simpl; auto].
  pose proof (finish_course volumeId' fs s2) as H3.
  destruct (finish cfg volumeId' fs s2) as [[o3 s3] t3].
  rewrite ?calls_app. eapply run_ending; eauto.
Qed.

End CourseOfRun.

(** ** What follows from the course of a run *)

Lemma only_app (ops : list operation) (cs cs' : list call) :
  only ops cs -> only ops cs' -> only ops (cs ++ cs').
Proof. intros H H'. apply Forall_app. now split. Qed.

Lemma only_more (ops ops' : list operation) (cs : list call) :
  only ops cs -> (forall op, In op ops -> In op ops') -> only ops' cs.
Proof. intros H Hsub. eapply Forall_impl; [exact H|]. intros c. apply Hsub. Qed.

Lemma only_not (ops : list operation) (cs : list call) (op : operation) :
  only ops cs -> ~ In op ops -> Forall (fun c => operation_of c <> op) cs.
Proof.
  intros H Hop. eapply Forall_impl; [exact H|].
  intros c Hc Heq. apply Hop. rewrite <- Heq. exact Hc.
Qed.

Lemma only_In (ops : list operation) (cs : list call) (c : call) :
  only ops cs -> In c cs -> In (operation_of c) ops.
Proof.
  intros H Hin. unfold only in H. rewrite Forall_forall in H.
  apply H. now apply list_elem_of_In.
Qed.

Ltac explicit_only := unfold only; repeat (constructor; [simpl; tauto|]); constructor.

Lemma checks_only (cfg : Config) (cs : list call) (o : outcome unit) :
  checks_course cfg cs o -> only [CheckDevice; CheckMountPoint] cs.
Proof. intros []; explicit_only. Qed.

Lemma loop_only (cfg : Config) (n : nat) (volumeId : option string) (cs : list call)
    (o : outcome (option string)) :
  loop_course cfg n volumeId cs o -> only [FindVolume; AttachVolume] cs.
Proof.
  induction 1; try explicit_only.
  constructor; [simpl; tauto|]. constructor; [simpl; tauto|]. assumption.
Qed.

Lemma search_only (cfg : Config) (cs : list call)
    (o : outcome (option string * option string)) :
  search_course cfg cs o -> only [FindVolume; AttachVolume; FindSnapshot] cs.
Proof.
  intros [? ? _ Hl|? ? ? _ Hl _|? _|? ? _ _]; try explicit_only;
    (eapply only_more; [eapply loop_only; exact Hl|]; simpl; tauto).
Qed.

Lemma creation_only (cfg : Config) (snapshotId volumeId : option string)
    (cs : list call) (o : outcome (option string * bool)) :
  creation_course cfg snapshotId volumeId cs o ->
  only [CreateVolume; WaitUntilVolumeAvailable; AttachVolume] cs.
Proof. intros []; explicit_only. Qed.

Lemma passes_on_Normal {A B} (r : outcome A) (b : B) : ~ passes_on r (Normal b).
Proof. destruct r; simpl; tauto. Qed.

Lemma fatal_err_Normal {B} (r : outcome (option error)) (b : B) : ~ fatal_err r (Normal b).
Proof. destruct r as [[e|]| | |]; simpl; try tauto; discriminate. Qed.

Lemma fatal_pair_Normal {B} (r : outcome (option string * option error)) (b : B) :
  ~ fatal_pair r (Normal b).
Proof. destruct r as [[w [e|]]| | |]; simpl; try tauto; discriminate. Qed.

Lemma mount_end_Normal (r : outcome (option error)) (o : outcome unit) :
  mount_end r o -> (o = Normal tt <-> r = Normal None).
Proof.
  destruct r as [[e|]| | |]; simpl.
  - intros ->. split; discriminate.
  - intros ->. tauto.
  - destruct o; simpl; try tauto. intros _. split; discriminate.
  - destruct o; simpl; try tauto. intros _. split; discriminate.
  - destruct o; simpl; try tauto. intros _. split; discriminate.
Qed.

Lemma checks_passed_inv (cfg : Config) (cs : list call) :
  checks_course cfg cs (Normal tt) ->
  cs = [CcheckDevice (attachAsDevice cfg) (Normal None);
        CcheckMountPoint (cfg_mountPoint cfg) (Normal None)].
Proof.
  inversion 1 as [r o Hf|r o Hf|]; subst; try reflexivity;
    now apply fatal_err_Normal in Hf.
Qed.

(* the operations of a list of invocations put together from the phases *)
Ltac kinds :=
  repeat first
    [ apply only_app
    | solve [eapply only_more; [eapply checks_only; eassumption | intros ?; simpl; tauto]]
    | solve [eapply only_more; [eapply loop_only; eassumption | intros ?; simpl; tauto]]
    | solve [eapply only_more; [eapply search_only; eassumption | intros ?; simpl; tauto]]
    | solve [eapply only_more; [eapply creation_only; eassumption | intros ?; simpl; tauto]]
    | solve [explicit_only] ].

Lemma not_mounting_no_mount (cs : list call) :
  only not_mounting cs -> Forall (fun c => operation_of c <> MountVolume) cs.
Proof. intros H. eapply only_not; [exact H|]. simpl. intuition discriminate. Qed.

(** X12: mountVolume is invoked at most once in a run and nothing is invoked
    after it; the run returns exactly when mountVolume was invoked and
    returned nil. *)
Theorem run_returns_when_mounted :
  forall (St : Type) (impl : AsgEbs St) (cfg : Config) (s : St),
    let '(o, _, t) := runAsgEbs cfg s in
    exists before,
      Forall (fun c => operation_of c <> MountVolume) before
      /\ ((calls t = before /\ o <> Normal tt)
          \/ exists r, calls t = before ++ [mount_call cfg r]
                       /\ (o = Normal tt <-> r = Normal None)).
Proof.
  intros St impl cfg s. pose proof (runAsgEbs_course cfg s) as Hrun.
  destruct (runAsgEbs cfg s) as [[o s'] t].
  destruct Hrun as [cs o Hc Ho | cs0 cs1 o1 o Hc Hs Hp
                   | cs0 cs1 v sid cs2 o2 o Hc Hs Hm Hp
                   | cs0 cs1 v sid cs2 v' fs cs3 o Hc Hs Hm He].
  - exists cs. split; [apply not_mounting_no_mount; unfold not_mounting; kinds|].
    left. split; [reflexivity|assumption].
  - exists (cs0 ++ cs1). split; [apply not_mounting_no_mount; unfold not_mounting; kinds|].
    left. split; [reflexivity|]. intros ->. now apply passes_on_Normal in Hp.
  - exists (cs0 ++ cs1 ++ cs2).
    split; [apply not_mounting_no_mount; unfold not_mounting; kinds|].
    left. split; [reflexivity|]. intros ->. now apply passes_on_Normal in Hp.
  - destruct He as [|v'' r o Hf|v'' r o Hme|v'' r o Hme].
    + exists (cs0 ++ cs1 ++ cs2 ++ []).
      split; [apply not_mounting_no_mount; unfold not_mounting; kinds|].
      left. split; [reflexivity|discriminate].
    + exists (cs0 ++ cs1 ++ cs2 ++ [format_call cfg v'' r]).
      split; [apply not_mounting_no_mount; unfold not_mounting; kinds|].
      left. split; [reflexivity|]. intros ->. now apply fatal_err_Normal in Hf.
    + exists (cs0 ++ cs1 ++ cs2 ++ [format_call cfg v'' (Normal None)]).
      split; [apply not_mounting_no_mount; unfold not_mounting; kinds|].
      right. exists r. split; [|now apply mount_end_Normal].
      now rewrite <- !app_assoc.
    + exists (cs0 ++ cs1 ++ cs2).
      split; [apply not_mounting_no_mount; unfold not_mounting; kinds|].
      right. exists r. split; [|now apply mount_end_Normal].
      now rewrite <- !app_assoc.
Qed.

Lemma not_attached_app (cs cs' : list call) :
  Forall (fun c => ~ attached c) cs -> Forall (fun c => ~ attached c) cs' ->
  Forall (fun c => ~ attached c) (cs ++ cs').
Proof. intros H H'. apply Forall_app. now split. Qed.

Lemma only_not_attached (ops : list operation) (cs : list call) :
  only ops cs -> ~ In AttachVolume ops -> Forall (fun c => ~ attached c) cs.
Proof.
  intros H Hop. eapply Forall_impl; [exact H|].
  intros c Hc Hatt. apply Hop. destruct c; try destruct Hatt. exact Hc.
Qed.

Lemma checks_not_attached (cfg : Config) (cs : list call) (o : outcome unit) :
  checks_course cfg cs o -> Forall (fun c => ~ attached c) cs.
Proof.
  intros H. eapply only_not_attached; [eapply checks_only; exact H|].
  simpl. intuition discriminate.
Qed.

(* the loop attaches at most once, and then it is over *)
Lemma loop_attaches_last (cfg : Config) (n : nat) (volumeId : option string)
    (cs : list call) (o : outcome (option string)) :
  loop_course cfg n volumeId cs o ->
  Forall (fun c => ~ attached c) cs
  \/ exists v pre,
       cs = pre ++ [attach_call cfg v (Normal None)]
       /\ Forall (fun c => ~ attached c) pre
       /\ only [FindVolume; AttachVolume] pre
       /\ o = Normal (Some v).
Proof.
  induction 1 as [vid|n vid r o Hf|n vid|n vid v|n vid v r o Hp|n vid v e cs o Hl IH].
  - left. constructor.
  - left. repeat constructor. simpl. tauto.
  - left. repeat constructor. simpl. tauto.
  - right. exists v, [find_call cfg (Normal (Some v, None))].
    split; [reflexivity|]. split; [repeat constructor; simpl; tauto|].
    split; [explicit_only|reflexivity].
  - left. constructor; [simpl; tauto|]. constructor; [|constructor].
    destruct r as [[e|]| | |]; simpl in *; tauto.
  - destruct IH as [IH|(v' & pre & -> & Hpre & Hk & ->)].
    + left. constructor; [simpl; tauto|]. constructor; [simpl; tauto|]. assumption.
    + right. exists v', (find_call cfg (Normal (Some v, None))
                         :: attach_call cfg v (Normal (Some e)) :: pre).
      split; [reflexivity|].
      split; [constructor; [simpl; tauto|]; constructor; [simpl; tauto|]; assumption|].
      split; [|reflexivity].
      constructor; [simpl; tauto|]. constructor; [simpl; tauto|]. assumption.
Qed.

Lemma search_attaches_last (cfg : Config) (cs : list call)
    (o : outcome (option string * option string)) :
  search_course cfg cs o ->
  Forall (fun c => ~ attached c) cs
  \/ exists v pre,
       cs = pre ++ [attach_call cfg v (Normal None)]
       /\ Forall (fun c => ~ attached c) pre
       /\ only [FindVolume; AttachVolume] pre
       /\ o = Normal (Some v, None).
Proof.
  intros [cs' vid _ Hl|cs' o' o'' _ Hl Hp|sid _|r o' _ _].
  - destruct (loop_attaches_last _ _ _ _ _ Hl) as [H|(v & pre & -> & Hpre & Hk & [= ->])];
      [now left|].
    right. exists v, pre. auto.
  - destruct (loop_attaches_last _ _ _ _ _ Hl) as [H|(v & pre & -> & Hpre & Hk & ->)];
      [now left|].
    destruct Hp.
  - left. repeat constructor. simpl. tauto.
  - left. repeat constructor. simpl. tauto.
Qed.

Lemma search_nothing_attached (cfg : Config) (cs : list call) (snapshotId : option string) :
  search_course cfg cs (Normal (None, snapshotId)) ->
  Forall (fun c => ~ attached c) cs.
Proof.
  intros H. destruct (search_attaches_last _ _ _ H) as [Hn|(v & pre & _ & _ & _ & [=])].
  exact Hn.
Qed.

(* the one invocation of its operation in a list *)
Lemma the_one_of (op : operation) (pre post : list call) (x c : call) :
  Forall (fun c => operation_of c <> op) pre ->
  Forall (fun c => operation_of c <> op) post ->
  In c (pre ++ x :: post) -> operation_of c = op -> c = x.
Proof.
  intros Hpre Hpost Hin Hop. apply in_app_or in Hin as [Hin|[Hin|Hin]].
  - rewrite Forall_forall in Hpre. now apply list_elem_of_In, Hpre in Hin.
  - now symmetry.
  - rewrite Forall_forall in Hpost. now apply list_elem_of_In, Hpost in Hin.
Qed.

Lemma the_one_attached (pre post : list call) (x c : call) :
  Forall (fun c => ~ attached c) pre ->
  Forall (fun c => ~ attached c) post ->
  In c (pre ++ x :: post) -> attached c -> c = x.
Proof.
  intros Hpre Hpost Hin Hop. apply in_app_or in Hin as [Hin|[Hin|Hin]].
  - rewrite Forall_forall in Hpre. now apply list_elem_of_In, Hpre in Hin.
  - now symmetry.
  - rewrite Forall_forall in Hpost. now apply list_elem_of_In, Hpost in Hin.
Qed.

Lemma none_attached_In (cs : list call) (c : call) :
  Forall (fun c => ~ attached c) cs -> In c cs -> attached c -> False.
Proof.
  intros Hall Hin Hc. rewrite Forall_forall in Hall.
  now apply list_elem_of_In, Hall in Hin.
Qed.

Lemma none_of_In (op : operation) (cs : list call) (c : call) :
  Forall (fun c => operation_of c <> op) cs -> In c cs -> operation_of c = op -> False.
Proof.
  intros Hall Hin Hc. rewrite Forall_forall in Hall.
  now apply list_elem_of_In, Hall in Hin.
Qed.

(* a goal on the operations that do not occur in a list put together from
   the phases *)
Ltac none_of ops :=
  apply (only_not ops); [kinds | simpl; intuition discriminate].

(* the creation, when it yields a volume *)
Lemma creation_done (cfg : Config) (snapshotId volumeId volumeId' : option string)
    (fs : bool) (cs : list call) :
  creation_course cfg snapshotId volumeId cs (Normal (volumeId', fs)) ->
  (exists v, volumeId = Some v /\ volumeId' = Some v /\ fs = false /\ cs = [])
  \/ (exists v,
        volumeId = None /\ volumeId' = Some v /\ fs = blank snapshotId
        /\ cs = [create_call cfg snapshotId (Normal (Some v, None));
                 CwaitUntilVolumeAvailable v (Normal None);
                 attach_call cfg v (Normal None)]).
Proof.
  inversion 1 as [v|r o Hf|Hx|v r o Hf|v r o Hf|v]; subst.
  - left. eauto.
  - now apply fatal_pair_Normal in Hf.
  - now apply fatal_err_Normal in Hf.
  - now apply fatal_err_Normal in Hf.
  - right. eauto.
Qed.

(* the creation, when it ends the run *)
Lemma creation_stopped_inv (cfg : Config) (snapshotId volumeId : option string)
    (cs : list call) (o2 : outcome (option string * bool)) (o : outcome unit) :
  creation_course cfg snapshotId volumeId cs o2 -> passes_on o2 o ->
  volumeId = None
  /\ Forall (fun c => ~ attached c) cs
  /\ only [CreateVolume; WaitUntilVolumeAvailable; AttachVolume] cs.
Proof.
  intros Hm Hp. split; [|split; [|eapply creation_only; exact Hm]].
  - destruct Hm; try reflexivity. destruct Hp.
  - destruct Hm as [v|r o' Hf| |v r o' Hf|v r o' Hf|v];
      repeat (constructor; [simpl; try tauto|]); try constructor;
      try (destruct r as [[?|]| | |]; simpl in *; tauto); try destruct Hp.
Qed.

(* the end of a run, on a volume *)
Lemma ending_only (cfg : Config) (volumeId : option string) (fs : bool)
    (cs : list call) (o : outcome unit) :
  ending_course cfg volumeId fs cs o -> only [MakeFileSystem; MountVolume] cs.
Proof. intros []; explicit_only. Qed.

(** X13: makeFileSystem is invoked only on a volume this run has created
    from no snapshot, found available and attached: the three invocations
    before it are that createVolume, waitUntilVolumeAvailable and
    attachVolume, all of the same volume and all returned without error; no
    volume was attached, created or formatted earlier in the run, and only
    mountVolume comes after. *)
Theorem only_a_new_blank_volume_is_formatted :
  forall (St : Type) (impl : AsgEbs St) (cfg : Config) (s : St)
         (device : string) (mkfsInodeRatio : Z) (v : string)
         (r : outcome (option error)),
    In (CmakeFileSystem device mkfsInodeRatio v r) (calls (snd (runAsgEbs cfg s))) ->
    exists before after,
      calls (snd (runAsgEbs cfg s))
      = before
        ++ [ create_call cfg None (Normal (Some v, None));
             CwaitUntilVolumeAvailable v (Normal None);
             attach_call cfg v (Normal None);
             format_call cfg v r ]
        ++ after
      /\ device = attachAsDevice cfg
      /\ mkfsInodeRatio = cfg_mkfsInodeRatio cfg
      /\ Forall (fun c => ~ attached c) before
      /\ only [CheckDevice; CheckMountPoint; FindVolume; AttachVolume; FindSnapshot] before
      /\ only [MountVolume] after.
Proof.
  intros St impl cfg s device mkfsInodeRatio v r.
  pose proof (runAsgEbs_course cfg s) as Hrun.
  destruct (runAsgEbs cfg s) as [[o s'] t]. simpl.
  destruct Hrun as [cs o Hc Ho | cs0 cs1 o1 o Hc Hs Hp
                   | cs0 cs1 vid sid cs2 o2 o Hc Hs Hm Hp
                   | cs0 cs1 vid sid cs2 vid' fs cs3 o Hc Hs Hm He].
  - intros Hin. exfalso. eapply (none_of_In MakeFileSystem); [|exact Hin|reflexivity].
    none_of [CheckDevice; CheckMountPoint].
  - intros Hin. exfalso. eapply (none_of_In MakeFileSystem); [|exact Hin|reflexivity].
    none_of [CheckDevice; CheckMountPoint; FindVolume; AttachVolume; FindSnapshot].
  - intros Hin. exfalso. eapply (none_of_In MakeFileSystem); [|exact Hin|reflexivity].
    none_of [CheckDevice; CheckMountPoint; FindVolume; AttachVolume; FindSnapshot;
             CreateVolume; WaitUntilVolumeAvailable].
  - assert (Forall (fun c => operation_of c <> MakeFileSystem) (cs0 ++ cs1 ++ cs2)) as Hnone
      by none_of [CheckDevice; CheckMountPoint; FindVolume; AttachVolume; FindSnapshot;
                  CreateVolume; WaitUntilVolumeAvailable].
    rewrite !app_assoc, <- (app_assoc cs0). intros Hin.
    destruct (creation_done _ _ _ _ _ _ Hm)
      as [(v' & -> & -> & -> & ->)|(v' & -> & -> & -> & ->)].
    + (* the volume was found: nothing is formatted *)
      exfalso. inversion He as [| | |? r' ? Hme]; subst.
      eapply (none_of_In MakeFileSystem); [|exact Hin|reflexivity].
      apply Forall_app. split; [exact Hnone|]. repeat constructor. discriminate.
    + pose proof (search_nothing_attached _ _ _ Hs) as Hsearch.
      assert (only [CheckDevice; CheckMountPoint; FindVolume; AttachVolume; FindSnapshot]
                (cs0 ++ cs1)) as Hkinds by kinds.
      pose proof (not_attached_app _ _ (checks_not_attached _ _ _ Hc) Hsearch) as Hbefore.
      inversion He as [|v'' r' o' Hf Hv Hfs|v'' r' o' Hme Hv Hfs|v'' r' o' Hme Hv Hfs];
        subst.
      * (* the format failed *)
        assert (CmakeFileSystem device mkfsInodeRatio v r = format_call cfg v' r') as Heq.
        { apply (the_one_of MakeFileSystem _ [] _ _ Hnone); auto. }
        injection Heq as -> -> -> ->.
        exists (cs0 ++ cs1), []. destruct sid as [?|]; [discriminate Hfs|].
        rewrite <- !app_assoc. simpl.
        repeat split; try assumption; constructor.
      * assert (CmakeFileSystem device mkfsInodeRatio v r
                = format_call cfg v' (Normal None)) as Heq.
        { apply (the_one_of MakeFileSystem _ [mount_call cfg r'] _ _ Hnone); auto;
            repeat constructor; discriminate. }
        injection Heq as -> -> -> ->.
        exists (cs0 ++ cs1), [mount_call cfg r']. destruct sid as [?|]; [discriminate Hfs|].
        rewrite <- !app_assoc. simpl.
        repeat split; try assumption. explicit_only.
      * exfalso. eapply (none_of_In MakeFileSystem); [|exact Hin|reflexivity].
        apply Forall_app. split; [exact Hnone|]. repeat constructor. discriminate.
Qed.

Lemma only_a_new_blank_volume_is_formatted_witness :
  exists before after,
    calls (snd (Fake.run_in Fake.quiet Fake.cfg Fake.boot))
    = before
      ++ [ create_call Fake.cfg None (Normal (Some "vol-new"%string, None));
           CwaitUntilVolumeAvailable "vol-new" (Normal None);
           attach_call Fake.cfg "vol-new" (Normal None);
           format_call Fake.cfg "vol-new" (Normal None) ]
      ++ after
    /\ "/dev/xvdb"%string = attachAsDevice Fake.cfg
    /\ 16384 = cfg_mkfsInodeRatio Fake.cfg
    /\ Forall (fun c => ~ attached c) before
    /\ only [CheckDevice; CheckMountPoint; FindVolume; AttachVolume; FindSnapshot] before
    /\ only [MountVolume] after.
Proof.
  apply (only_a_new_blank_volume_is_formatted _
           (AwsAsgEbs_AsgEbs (E := Fake.env Fake.quiet) (sorter := Fake.sort) 100 Fake.me)
           Fake.cfg Fake.boot "/dev/xvdb" 16384 "vol-new" (Normal None)).
  vm_compute. do 6 right. left. reflexivity.
Defined.

(** X14: a run attaches at most one volume: when an attachVolume has
    returned nil, none had done so before it, and after it the run invokes
    nothing but makeFileSystem and mountVolume; no further volume is looked
    for, created or attached. *)
Theorem one_attachment_per_run :
  forall (St : Type) (impl : AsgEbs St) (cfg : Config) (s : St)
         (v attachAs : string) (deleteOnTermination : bool),
    In (CattachVolume v attachAs deleteOnTermination (Normal None))
       (calls (snd (runAsgEbs cfg s))) ->
    exists before after,
      calls (snd (runAsgEbs cfg s))
      = before ++ attach_call cfg v (Normal None) :: after
      /\ attachAs = cfg_attachAs cfg
      /\ deleteOnTermination = cfg_deleteOnTermination cfg
      /\ Forall (fun c => ~ attached c) before
      /\ only [MakeFileSystem; MountVolume] after.
Proof.
  intros St impl cfg s v attachAs deleteOnTermination.
  pose proof (runAsgEbs_course cfg s) as Hrun.
  destruct (runAsgEbs cfg s) as [[o s'] t]. simpl.
  destruct Hrun as [cs o Hc Ho | cs0 cs1 o1 o Hc Hs Hp
                   | cs0 cs1 vid sid cs2 o2 o Hc Hs Hm Hp
                   | cs0 cs1 vid sid cs2 vid' fs cs3 o Hc Hs Hm He].
  - intros Hin. exfalso.
    eapply none_attached_In; [eapply checks_not_attached; eauto|exact Hin|exact I].
  - intros Hin. exfalso.
    destruct (search_attaches_last _ _ _ Hs) as [Hno|(v' & pre & _ & _ & _ & ->)];
      [|destruct Hp].
    eapply none_attached_In; [|exact Hin|exact I].
    apply not_attached_app; [eapply checks_not_attached; eauto|assumption].
  - intros Hin. exfalso.
    destruct (creation_stopped_inv _ _ _ _ _ _ Hm Hp) as (-> & Hno2 & _).
    eapply none_attached_In; [|exact Hin|exact I].
    apply not_attached_app; [eapply checks_not_attached; eauto|].
    apply not_attached_app; [eapply search_nothing_attached; eauto|assumption].
  - pose proof (checks_not_attached _ _ _ Hc) as Hno0.
    pose proof (ending_only _ _ _ _ _ He) as Hend.
    destruct (creation_done _ _ _ _ _ _ Hm)
      as [(v' & -> & -> & -> & ->)|(v' & -> & -> & -> & ->)].
    + (* the volume comes from the loop *)
      destruct (search_attaches_last _ _ _ Hs) as [Hno|(v'' & pre & -> & Hpre & _ & _)].
      * intros Hin. exfalso. eapply none_attached_In; [|exact Hin|exact I].
        apply not_attached_app; [assumption|].
        apply not_attached_app; [assumption|]. simpl.
        eapply only_not_attached; [exact Hend|]. simpl. intuition discriminate.
      * simpl. rewrite <- (app_assoc pre), (app_assoc cs0 pre). simpl. intros Hin.
        assert (CattachVolume v attachAs deleteOnTermination (Normal None)
                = attach_call cfg v'' (Normal None)) as Heq.
        { apply (the_one_attached (cs0 ++ pre) cs3); auto.
          - now apply not_attached_app.
          - eapply only_not_attached; [exact Hend|]. simpl. intuition discriminate.
          - exact I. }
        injection Heq as -> -> ->.
        exists (cs0 ++ pre), cs3. split; [reflexivity|]. split; [reflexivity|].
        split; [reflexivity|]. split; [now apply not_attached_app|assumption].
    + (* the volume was created *)
      pose proof (search_nothing_attached _ _ _ Hs) as Hno1.
      replace (cs0 ++ cs1
               ++ [create_call cfg sid (Normal (Some v', None));
                   CwaitUntilVolumeAvailable v' (Normal None);
                   attach_call cfg v' (Normal None)] ++ cs3)
        with ((cs0 ++ cs1 ++ [create_call cfg sid (Normal (Some v', None));
                              CwaitUntilVolumeAvailable v' (Normal None)])
              ++ attach_call cfg v' (Normal None) :: cs3)
        by (rewrite <- !app_assoc; reflexivity).
      assert (Forall (fun c => ~ attached c)
                (cs0 ++ cs1 ++ [create_call cfg sid (Normal (Some v', None));
                                CwaitUntilVolumeAvailable v' (Normal None)])) as Hbefore.
      { apply not_attached_app; [assumption|].
        apply not_attached_app; [assumption|]. repeat constructor; simpl; tauto. }
      intros Hin.
      assert (CattachVolume v attachAs deleteOnTermination (Normal None)
              = attach_call cfg v' (Normal None)) as Heq.
      { apply (the_one_attached _ cs3 _ _ Hbefore); auto.
        - eapply only_not_attached; [exact Hend|]. simpl. intuition discriminate.
        - exact I. }
      injection Heq as -> -> ->.
      eexists _, cs3. split; [reflexivity|]. split; [reflexivity|].
      split; [reflexivity|]. split; assumption.
Qed.

Lemma one_attachment_per_run_witness :
  exists before after,
    calls (snd (Fake.run_in one_volume Fake.cfg Fake.boot))
    = before ++ attach_call Fake.cfg "vol-1" (Normal None) :: after
    /\ "xvdb"%string = cfg_attachAs Fake.cfg
    /\ false = cfg_deleteOnTermination Fake.cfg
    /\ Forall (fun c => ~ attached c) before
    /\ only [MakeFileSystem; MountVolume] after.
Proof.
  apply (one_attachment_per_run _
           (AwsAsgEbs_AsgEbs (E := Fake.env one_volume) (sorter := Fake.sort) 100 Fake.me)
           Fake.cfg Fake.boot "vol-1" "xvdb" false).
  vm_compute. do 3 right. left. reflexivity.
Defined.

(* the search of a run with a snapshot name *)
Lemma search_by_name (cfg : Config) (cs : list call)
    (o : outcome (option string * option string)) :
  (cfg_snapshotName cfg =? EmptyString)%string = false ->
  search_course cfg cs o ->
  exists r,
    cs = [snapshot_call cfg r]
    /\ match r with
       | Normal (snapshotId, None) => o = Normal (None, snapshotId)
       | _ => forall volumeId snapshotId, o <> Normal (volumeId, snapshotId)
       end.
Proof.
  intros Hname [cs' vid Hn _|cs' o' o'' Hn _ _|sid _|r o' _ Hf]; try congruence.
  - exists (Normal (sid, None)). split; reflexivity.
  - exists r. split; [reflexivity|].
    destruct r as [[w [e|]]| | |]; simpl in Hf.
    + intros. rewrite Hf. discriminate.
    + destruct Hf.
    + destruct o'; try destruct Hf; discriminate.
    + destruct o'; try destruct Hf; discriminate.
    + destruct o'; try destruct Hf; discriminate.
Qed.

(* the creation starts with createVolume on the snapshot id it was given *)
Lemma creation_starts (cfg : Config) (snapshotId : option string) (cs : list call)
    (o : outcome (option string * bool)) :
  creation_course cfg snapshotId None cs o ->
  exists r rest,
    cs = create_call cfg snapshotId r :: rest
    /\ only [WaitUntilVolumeAvailable; AttachVolume] rest.
Proof.
  inversion 1; subst; do 2 eexists; (split; [reflexivity|explicit_only]).
Qed.

(** X15: in a run with a snapshot name findVolume is never invoked, and
    createVolume is invoked with a snapshot id exactly when findSnapshot has
    returned that id and no error; this holds for the nil id as well, so a
    name that matches no snapshot leads to a volume created from no
    snapshot. *)
Theorem snapshot_name_decides_the_source :
  forall (St : Type) (impl : AsgEbs St) (cfg : Config) (s : St),
    (cfg_snapshotName cfg =? EmptyString)%string = false ->
    Forall (fun c => operation_of c <> FindVolume) (calls (snd (runAsgEbs cfg s)))
    /\ forall snapshotId : option string,
         In (snapshot_call cfg (Normal (snapshotId, None))) (calls (snd (runAsgEbs cfg s)))
         <-> exists r, In (create_call cfg snapshotId r) (calls (snd (runAsgEbs cfg s))).
Proof.
  intros St impl cfg s Hname.
  pose proof (runAsgEbs_course cfg s) as Hrun.
  destruct (runAsgEbs cfg s) as [[o s'] t]. simpl.
  destruct Hrun as [cs o Hc Ho | cs0 cs1 o1 o Hc Hs Hp
                   | cs0 cs1 vid sid cs2 o2 o Hc Hs Hm Hp
                   | cs0 cs1 vid sid cs2 vid' fs cs3 o Hc Hs Hm He].
  - split; [none_of [CheckDevice; CheckMountPoint]|].
    intros sid. split.
    + intros Hin. exfalso. eapply (none_of_In FindSnapshot); [|exact Hin|reflexivity].
      none_of [CheckDevice; CheckMountPoint].
    + intros [r Hin]. exfalso.
      eapply (none_of_In CreateVolume); [|exact Hin|reflexivity].
      none_of [CheckDevice; CheckMountPoint].
  - destruct (search_by_name _ _ _ Hname Hs) as (r & -> & Hr).
    split; [none_of [CheckDevice; CheckMountPoint; FindSnapshot]|].
    intros sid. split.
    + intros Hin.
      assert (snapshot_call cfg (Normal (sid, None)) = snapshot_call cfg r) as Heq.
      { apply (the_one_of FindSnapshot cs0 []); auto.
        none_of [CheckDevice; CheckMountPoint]. }
      injection Heq as <-. simpl in Hr. subst o1. destruct Hp.
    + intros [r' Hin]. exfalso.
      eapply (none_of_In CreateVolume); [|exact Hin|reflexivity].
      none_of [CheckDevice; CheckMountPoint; FindSnapshot].
  - destruct (search_by_name _ _ _ Hname Hs) as (r & -> & Hr).
    destruct r as [[sid' [e|]]| | |]; try now destruct (Hr vid sid).
    injection Hr as -> <-.
    destruct (creation_starts _ _ _ _ Hm) as (r & rest & -> & Hrest).
    split; [none_of [CheckDevice; CheckMountPoint; FindSnapshot; CreateVolume;
                     WaitUntilVolumeAvailable; AttachVolume]|].
    intros sid'. split.
    + intros Hin.
      assert (snapshot_call cfg (Normal (sid', None))
              = snapshot_call cfg (Normal (sid, None))) as Heq.
      { apply (the_one_of FindSnapshot cs0 (create_call cfg sid r :: rest)); auto.
        - none_of [CheckDevice; CheckMountPoint].
        - constructor; [discriminate|].
          eapply only_not; [exact Hrest|]. simpl. intuition discriminate. }
      injection Heq as ->. exists r. apply in_or_app. right. right. now left.
    + intros [r' Hin].
      assert (create_call cfg sid' r' = create_call cfg sid r) as Heq.
      { apply (the_one_of CreateVolume (cs0 ++ [snapshot_call cfg (Normal (sid, None))])
                 rest); auto.
        - none_of [CheckDevice; CheckMountPoint; FindSnapshot].
        - eapply only_not; [exact Hrest|]. simpl. intuition discriminate.
        - now rewrite <- app_assoc. }
      injection Heq as -> _. apply in_or_app. right. now left.
  - destruct (search_by_name _ _ _ Hname Hs) as (r & -> & Hr).
    destruct r as [[sid' [e|]]| | |]; try now destruct (Hr vid sid).
    injection Hr as -> <-.
    destruct (creation_starts _ _ _ _ Hm) as (r & rest & -> & Hrest).
    pose proof (ending_only _ _ _ _ _ He) as Hend.
    split.
    { apply (only_not [CheckDevice; CheckMountPoint; FindSnapshot; CreateVolume;
                       WaitUntilVolumeAvailable; AttachVolume; MakeFileSystem;
                       MountVolume]); [|simpl; intuition discriminate].
      apply only_app; [kinds|]. apply only_app; [kinds|].
      apply only_app; [|eapply only_more; [exact Hend|intros ?; simpl; tauto]].
      constructor; [simpl; tauto|].
      eapply only_more; [exact Hrest|intros ?; simpl; tauto]. }
    assert (Forall (fun c => operation_of c <> FindSnapshot) (rest ++ cs3)) as Hafter.
    { apply Forall_app. split; (eapply only_not; [eassumption|]); simpl;
        intuition discriminate. }
    assert (Forall (fun c => operation_of c <> CreateVolume) (rest ++ cs3)) as Hafter'.
    { apply Forall_app. split; (eapply only_not; [eassumption|]); simpl;
        intuition discriminate. }
    intros sid'. split.
    + intros Hin.
      assert (snapshot_call cfg (Normal (sid', None))
              = snapshot_call cfg (Normal (sid, None))) as Heq.
      { cbn [app] in Hin.
        apply (the_one_of FindSnapshot cs0 (create_call cfg sid r :: rest ++ cs3) _ _
                 ltac:(none_of [CheckDevice; CheckMountPoint])
                 ltac:(constructor; [discriminate|assumption]) Hin eq_refl). }
      injection Heq as ->. exists r. apply in_or_app. right. right. now left.
    + intros [r' Hin].
      assert (create_call cfg sid' r' = create_call cfg sid r) as Heq.
      { cbn [app] in Hin.
        change (cs0 ++ snapshot_call cfg (Normal (sid, None))
                :: create_call cfg sid r :: rest ++ cs3)
          with (cs0 ++ [snapshot_call cfg (Normal (sid, None))]
                ++ create_call cfg sid r :: rest ++ cs3) in Hin.
        rewrite app_assoc in Hin.
        apply (the_one_of CreateVolume
                 (cs0 ++ [snapshot_call cfg (Normal (sid, None))]) (rest ++ cs3) _ _
                 ltac:(none_of [CheckDevice; CheckMountPoint; FindSnapshot])
                 Hafter' Hin eq_refl). }
      injection Heq as -> _. apply in_or_app. right. now left.
Qed.

Lemma snapshot_name_decides_the_source_witness :
  Forall (fun c => operation_of c <> FindVolume)
    (calls (snd (Fake.run_in Fake.quiet restore_cfg Fake.boot)))
  /\ forall snapshotId : option string,
       In (snapshot_call restore_cfg (Normal (snapshotId, None)))
          (calls (snd (Fake.run_in Fake.quiet restore_cfg Fake.boot)))
       <-> exists r, In (create_call restore_cfg snapshotId r)
                        (calls (snd (Fake.run_in Fake.quiet restore_cfg Fake.boot))).
Proof.
  apply (snapshot_name_decides_the_source _
           (AwsAsgEbs_AsgEbs (E := Fake.env Fake.quiet) (sorter := Fake.sort) 100 Fake.me)
           restore_cfg Fake.boot).
  reflexivity.
Defined.

(** X17: when createVolume returns neither a volume id nor an error, the
    run ends there with a nil-pointer panic: that createVolume is its last
    invocation. *)
Theorem createVolume_without_id_panics :
  forall (St : Type) (impl : AsgEbs St) (cfg : Config) (s : St)
         (createSize : Z) (createName createVolumeType : string)
         (createTags : gmap string string) (snapshotId : option string),
    In (CcreateVolume createSize createName createVolumeType createTags snapshotId
          (Normal (None, None)))
       (calls (snd (runAsgEbs cfg s))) ->
    fst (fst (runAsgEbs cfg s)) = Panicked nil_dereference
    /\ last (calls (snd (runAsgEbs cfg s)))
       = Some (create_call cfg snapshotId (Normal (None, None))).
Proof.
  intros St impl cfg s createSize createName createVolumeType createTags snapshotId.
  pose proof (runAsgEbs_course cfg s) as Hrun.
  destruct (runAsgEbs cfg s) as [[o s'] t]. simpl.
  destruct Hrun as [cs o Hc Ho | cs0 cs1 o1 o Hc Hs Hp
                   | cs0 cs1 vid sid cs2 o2 o Hc Hs Hm Hp
                   | cs0 cs1 vid sid cs2 vid' fs cs3 o Hc Hs Hm He].
  - intros Hin. exfalso. eapply (none_of_In CreateVolume); [|exact Hin|reflexivity].
    none_of [CheckDevice; CheckMountPoint].
  - intros Hin. exfalso. eapply (none_of_In CreateVolume); [|exact Hin|reflexivity].
    none_of [CheckDevice; CheckMountPoint; FindVolume; AttachVolume; FindSnapshot].
  - assert (Forall (fun c => operation_of c <> CreateVolume) (cs0 ++ cs1)) as Hpre
      by none_of [CheckDevice; CheckMountPoint; FindVolume; AttachVolume; FindSnapshot].
    rewrite app_assoc. intros Hin.
    destruct (creation_stopped_inv _ _ _ _ _ _ Hm Hp) as (-> & _ & _).
    destruct (creation_starts _ _ _ _ Hm) as (r & rest & -> & Hrest).
    assert (CcreateVolume createSize createName createVolumeType createTags snapshotId
              (Normal (None, None)) = create_call cfg sid r) as Heq.
    { apply (the_one_of CreateVolume _ rest _ _ Hpre); auto.
      eapply only_not; [exact Hrest|]. simpl. intuition discriminate. }
    injection Heq as -> -> -> -> -> <-.
    inversion Hm as [|r o' Hf| | | |]; subst.
    + destruct Hf.
    + destruct o; try destruct Hp. split; [reflexivity|].
      rewrite last_app. reflexivity.
  - assert (Forall (fun c => operation_of c <> CreateVolume) (cs0 ++ cs1)) as Hpre
      by none_of [CheckDevice; CheckMountPoint; FindVolume; AttachVolume; FindSnapshot].
    pose proof (ending_only _ _ _ _ _ He) as Hend.
    intros Hin. exfalso.
    destruct (creation_done _ _ _ _ _ _ Hm)
      as [(v' & -> & -> & -> & ->)|(v' & -> & -> & -> & ->)].
    + eapply (none_of_In CreateVolume); [|exact Hin|reflexivity].
      rewrite app_assoc. apply Forall_app. split; [exact Hpre|]. simpl.
      eapply only_not; [exact Hend|]. simpl. intuition discriminate.
    + rewrite app_assoc in Hin. cbn [app] in Hin.
      assert (CcreateVolume createSize createName createVolumeType createTags snapshotId
                (Normal (None, None)) = create_call cfg sid (Normal (Some v', None)))
        as Heq; [|discriminate Heq].
      assert (Forall (fun c => operation_of c <> CreateVolume)
                (CwaitUntilVolumeAvailable v' (Normal None)
                 :: attach_call cfg v' (Normal None) :: cs3)) as Hpost.
      { constructor; [discriminate|]. constructor; [discriminate|].
        eapply only_not; [exact Hend|]. simpl. intuition discriminate. }
      exact (the_one_of CreateVolume _ _ _ _ Hpre Hpost Hin eq_refl).
Qed.

Lemma createVolume_without_id_panics_witness :
  fst (fst (runAsgEbs (impl := absent_minded) Fake.cfg tt)) = Panicked nil_dereference
  /\ last (calls (snd (runAsgEbs (impl := absent_minded) Fake.cfg tt)))
     = Some (create_call Fake.cfg None (Normal (None, None))).
Proof.
  apply (createVolume_without_id_panics _ absent_minded Fake.cfg tt 20 "prod-data" "gp2" ∅ None).
  vm_compute. do 3 right. left. reflexivity.
Defined.

(* a loop that invoked nothing has returned what it was given *)
Lemma loop_nothing_invoked (cfg : Config) (n : nat) (volumeId : option string)
    (o : outcome (option string)) :
  loop_course cfg n volumeId [] o -> o = Normal volumeId.
Proof. inversion 1. reflexivity. Qed.

(* the errors of the loop: that of its last invocation, which ends the run,
   or that of an attachment, after which the loop goes on *)
Lemma loop_errors (cfg : Config) (n : nat) (volumeId : option string)
    (cs : list call) (o : outcome (option string)) :
  loop_course cfg n volumeId cs o ->
  forall c, In c cs -> errored c ->
    (last cs = Some c /\ o = Exited 1)
    \/ exists v e before after,
         c = attach_call cfg v (Normal (Some e))
         /\ cs = before ++ [find_call cfg (Normal (Some v, None)); c] ++ after
         /\ (after = [] -> o = Normal (Some v)).
Proof.
  induction 1 as [vid|n vid r o Hf|n vid|n vid v|n vid v r o Hp|n vid v e cs o Hl IH];
    intros c Hin Herr.
  - destruct Hin.
  - destruct Hin as [<-|[]]. left. split; [reflexivity|].
    destruct r as [[w [e|]]| | |]; simpl in *; try tauto.
  - destruct Hin as [<-|[]]. destruct Herr.
  - destruct Hin as [<-|[<-|[]]]; destruct Herr.
  - destruct Hin as [<-|[<-|[]]]; [destruct Herr|].
    destruct r as [[e|]| | |]; simpl in *; tauto.
  - destruct Hin as [<-|[<-|Hin]].
    + destruct Herr.
    + right. exists v, e, [], cs. split; [reflexivity|]. split; [reflexivity|].
      intros ->. now apply loop_nothing_invoked in Hl.
    + destruct (IH c Hin Herr) as [[Hlast ->]|(v' & e' & before & after & -> & -> & Hafter)].
      * left. split; [|reflexivity].
        destruct cs as [|c' cs]; [discriminate Hlast|]. exact Hlast.
      * right.
        exists v', e', (find_call cfg (Normal (Some v, None))
                        :: attach_call cfg v (Normal (Some e)) :: before), after.
        split; [reflexivity|]. split; [reflexivity|assumption].
Qed.

Lemma checks_passed_no_error (cfg : Config) (cs : list call) (c : call) :
  checks_course cfg cs (Normal tt) -> In c cs -> errored c -> False.
Proof.
  intros Hc Hin Herr. apply checks_passed_inv in Hc. subst cs.
  destruct Hin as [<-|[<-|[]]]; destruct Herr.
Qed.

Lemma passes_on_Exited {A B} (o : outcome B) :
  passes_on (@Exited A 1) o -> o = Exited 1.
Proof. destruct o; simpl; try tauto. now intros <-. Qed.

Lemma last_after (cs cs' : list call) (c : call) :
  last cs' = Some c -> last (cs ++ cs') = Some c.
Proof. intros H. rewrite last_app, H. reflexivity. Qed.

(** X16: an error returned by an operation ends the run at once with exit
    status 1, that invocation being the last of the run; the one exception
    is the error of an attachVolume in the reuse loop, on the volume the
    findVolume just before it had found, after which the run goes on. *)
Theorem errors_end_the_run :
  forall (St : Type) (impl : AsgEbs St) (cfg : Config) (s : St) (c : call),
    In c (calls (snd (runAsgEbs cfg s))) ->
    errored c ->
    (last (calls (snd (runAsgEbs cfg s))) = Some c
     /\ fst (fst (runAsgEbs cfg s)) = Exited 1)
    \/ exists v e before after,
         c = attach_call cfg v (Normal (Some e))
         /\ calls (snd (runAsgEbs cfg s))
            = before ++ [find_call cfg (Normal (Some v, None)); c] ++ after
         /\ after <> [].
Proof.
  intros St impl cfg s c.
  pose proof (runAsgEbs_course cfg s) as Hrun.
  destruct (runAsgEbs cfg s) as [[o s'] t]. simpl.
  destruct Hrun as [cs o Hc Ho | cs0 cs1 o1 o Hc Hs Hp
                   | cs0 cs1 vid sid cs2 o2 o Hc Hs Hm Hp
                   | cs0 cs1 vid sid cs2 vid' fs cs3 o Hc Hs Hm He];
    intros Hin Herr.
  - left. destruct Hc as [r o Hf|r o Hf|].
    + destruct Hin as [<-|[]]. split; [reflexivity|].
      destruct r as [[e|]| | |]; simpl in *; tauto.
    + destruct Hin as [<-|[<-|[]]]; [destruct Herr|]. split; [reflexivity|].
      destruct r as [[e|]| | |]; simpl in *; tauto.
    + destruct Hin as [<-|[<-|[]]]; destruct Herr.
  - apply in_app_or in Hin as [Hin|Hin];
      [destruct (checks_passed_no_error _ _ _ Hc Hin Herr)|].
    destruct Hs as [cs' vid _ Hl|cs' o' o'' _ Hl Hp'|sid' _|r o' _ Hf].
    + destruct Hp.
    + destruct (loop_errors _ _ _ _ _ Hl c Hin Herr)
        as [[Hlast ->]|(v & e & before & after & -> & -> & Hafter)].
      * left. split; [now apply last_after|].
        apply passes_on_Exited in Hp'. subst o''. now apply passes_on_Exited in Hp.
      * right. exists v, e, (cs0 ++ before), after.
        split; [reflexivity|]. split; [now rewrite <- app_assoc|].
        intros Hnil. rewrite (Hafter Hnil) in Hp'. destruct Hp'.
    + destruct Hp.
    + destruct Hin as [<-|[]]. left. split; [now apply last_after|].
      destruct r as [[w [e|]]| | |]; simpl in *; try tauto.
      subst o'. now apply passes_on_Exited in Hp.
  - apply in_app_or in Hin as [Hin|Hin];
      [destruct (checks_passed_no_error _ _ _ Hc Hin Herr)|].
    destruct (creation_stopped_inv _ _ _ _ _ _ Hm Hp) as (-> & _ & _).
    apply in_app_or in Hin as [Hin|Hin].
    + (* in the search *)
      inversion Hs as [cs' vid' _ Hl|cs' o' o'' _ Hl Hp'|sid' _|r o' _ Hf]; subst.
      * destruct (loop_errors _ _ _ _ _ Hl c Hin Herr)
          as [[_ [=]]|(v & e & before & after & -> & -> & Hafter)].
        right. exists v, e, (cs0 ++ before), (after ++ cs2).
        split; [reflexivity|]. split; [now rewrite <- !app_assoc|].
        intros Hnil. apply app_eq_nil in Hnil as [Hnil _].
        specialize (Hafter Hnil). discriminate Hafter.
      * now apply passes_on_Normal in Hp'.
      * destruct Hin as [<-|[]]. destruct Herr.
      * now apply fatal_pair_Normal in Hf.
    + (* in the creation *)
      left. rewrite !last_app.
      destruct Hm as [v|r o' Hf| |v r o' Hf|v r o' Hf|v].
      * destruct Hin.
      * destruct Hin as [<-|[]]. split; [reflexivity|].
        destruct r as [[w [e|]]| | |]; simpl in *; try tauto.
        subst o'. now apply passes_on_Exited in Hp.
      * destruct Hin as [<-|[]]. destruct Herr.
      * destruct Hin as [<-|[<-|[]]]; [destruct Herr|]. split; [reflexivity|].
        destruct r as [[e|]| | |]; simpl in *; try tauto.
        subst o'. now apply passes_on_Exited in Hp.
      * destruct Hin as [<-|[<-|[<-|[]]]]; try destruct Herr. split; [reflexivity|].
        destruct r as [[e|]| | |]; simpl in *; try tauto.
        subst o'. now apply passes_on_Exited in Hp.
      * destruct Hp.
  - apply in_app_or in Hin as [Hin|Hin];
      [destruct (checks_passed_no_error _ _ _ Hc Hin Herr)|].
    assert (cs3 <> [] /\ forall c', In c' cs2 -> ~ errored c') as [Hcs3 Hcs2].
    { destruct (creation_done _ _ _ _ _ _ Hm)
        as [(v' & -> & -> & -> & ->)|(v' & -> & -> & -> & ->)].
      - split; [inversion He; discriminate|intros ? []].
      - split; [inversion He; discriminate|].
        intros c' [<-|[<-|[<-|[]]]]; simpl; tauto. }
    apply in_app_or in Hin as [Hin|Hin].
    + inversion Hs as [cs' vid'' _ Hl|cs' o' o'' _ Hl Hp'|sid' _|r o' _ Hf]; subst.
      * destruct (loop_errors _ _ _ _ _ Hl c Hin Herr)
          as [[_ [=]]|(v & e & before & after & -> & -> & Hafter)].
        right. exists v, e, (cs0 ++ before), (after ++ cs2 ++ cs3).
        split; [reflexivity|]. split; [now rewrite <- !app_assoc|].
        intros Hnil. apply app_eq_nil in Hnil as [_ Hnil].
        apply app_eq_nil in Hnil as [_ Hnil]. now apply Hcs3.
      * now apply passes_on_Normal in Hp'.
      * destruct Hin as [<-|[]]. destruct Herr.
      * now apply fatal_pair_Normal in Hf.
    + apply in_app_or in Hin as [Hin|Hin]; [destruct (Hcs2 _ Hin Herr)|].
      left. rewrite !last_app.
      destruct He as [|v r o Hf|v r o Hme|v r o Hme].
      * destruct Hin.
      * destruct Hin as [<-|[]]. split; [reflexivity|].
        destruct r as [[e|]| | |]; simpl in *; tauto.
      * destruct Hin as [<-|[<-|[]]]; [destruct Herr|]. split; [reflexivity|].
        destruct r as [[e|]| | |]; simpl in *; tauto.
      * destruct Hin as [<-|[]]. split; [reflexivity|].
        destruct r as [[e|]| | |]; simpl in *; tauto.
Qed.

Lemma errors_end_the_run_witness :
  let c := attach_call Fake.cfg "vol-new"
             (Normal (Some (awserr "AttachmentLimitExceeded" "Attachment limit exceeded."))) in
  (last (calls (snd (Fake.run_in attach_refused Fake.cfg Fake.boot))) = Some c
   /\ fst (fst (Fake.run_in attach_refused Fake.cfg Fake.boot)) = Exited 1)
  \/ exists v e before after,
       c = attach_call Fake.cfg v (Normal (Some e))
       /\ calls (snd (Fake.run_in attach_refused Fake.cfg Fake.boot))
          = before ++ [find_call Fake.cfg (Normal (Some v, None)); c] ++ after
       /\ after <> [].
Proof.
  intros c.
  apply (errors_end_the_run _
           (AwsAsgEbs_AsgEbs (E := Fake.env attach_refused) (sorter := Fake.sort) 100 Fake.me)
           Fake.cfg Fake.boot c).
  - vm_compute. do 5 right. left. reflexivity.
  - exact I.
Defined.

(** ** What the operations do, seen through a run *)

Section Within.
Context {St : Type}.
Variable P : run_event -> Prop.

Lemma emits_ret {A} (a : A) : emits (St := St) P (ret a).
Proof. intros s. constructor. Qed.

Lemma emits_stop {A} (o : outcome A) : emits (St := St) P (stop o).
Proof. intros s. constructor. Qed.

Lemma emits_emit (e : run_event) : P e -> emits (St := St) P (emit e).
Proof. intros He s. repeat constructor. exact He. Qed.

Lemma emits_bind {A B} (m : M St run_event A) (f : A -> M St run_event B) :
  emits P m -> (forall a, emits P (f a)) -> emits P (bind m f).
Proof.
  intros Hm Hf s. unfold bind. specialize (Hm s).
  destruct (m s) as [[o s1] t1]. simpl in Hm.
  destruct o as [a| | |]; try exact Hm.
  specialize (Hf a s1). destruct (f a s1) as [[o2 s2] t2]. simpl in *.
  apply Forall_app. now split.
Qed.

End Within.

Lemma inside_inner (Q : event -> Prop) (t : list run_event) :
  Forall (inside Q) t -> Forall Q (inner t).
Proof.
  induction 1 as [|e t He _ IH]; simpl; [constructor|].
  destruct e; simpl in *; auto.
Qed.

Lemma emits_invoke {St A} (Q : event -> Prop) (c : outcome A -> call)
    (m : M St event A) :
  emits Q m -> emits (inside Q) (invoke c m).
Proof.
  intros Hm s. unfold invoke. specialize (Hm s). destruct (m s) as [[o s1] t].
  simpl in *. constructor; [exact I|].
  apply Forall_fmap. eapply Forall_impl; [exact Hm|]. auto.
Qed.

(* a property of the events of a run that holds for the log entries and for
   every invocation the run makes holds for the whole run *)
Section RunEmits.
Context {St : Type} {impl : AsgEbs St}.
Variable cfg : Config.
Variable P : run_event -> Prop.

Hypothesis Hlogged : forall l msg, P (Logged l msg).
Hypothesis HcheckDevice :
  emits P (invoke (CcheckDevice (attachAsDevice cfg)) (checkDevice (attachAsDevice cfg))).
Hypothesis HcheckMountPoint :
  emits P (invoke (CcheckMountPoint (cfg_mountPoint cfg))
             (checkMountPoint (cfg_mountPoint cfg))).
Hypothesis HfindVolume :
  emits P (invoke (find_call cfg) (findVolume (cfg_tagKey cfg) (cfg_tagValue cfg))).
Hypothesis HattachVolume :
  forall v,
    emits P (invoke (attach_call cfg v)
               (attachVolume v (cfg_attachAs cfg) (cfg_deleteOnTermination cfg))).
Hypothesis HfindSnapshot :
  emits P (invoke (snapshot_call cfg) (findSnapshot "Name" (cfg_snapshotName cfg))).
Hypothesis HcreateVolume :
  forall snapshotId,
    emits P (invoke (create_call cfg snapshotId)
               (createVolume (cfg_createSize cfg) (cfg_createName cfg)
                  (cfg_createVolumeType cfg) (cfg_createTags cfg) snapshotId)).
Hypothesis HwaitUntilVolumeAvailable :
  forall v, emits P (invoke (CwaitUntilVolumeAvailable v) (waitUntilVolumeAvailable v)).
Hypothesis HmakeFileSystem :
  forall v,
    emits P (invoke (format_call cfg v)
               (makeFileSystem (attachAsDevice cfg) (cfg_mkfsInodeRatio cfg) v)).
Hypothesis HmountVolume :
  emits P (invoke (mount_call cfg) (mountVolume (attachAsDevice cfg) (cfg_mountPoint cfg))).

Lemma fatalIf_emits (err : option error) (msg : string) :
  emits P (fatalIf (St := St) err msg).
Proof.
  destruct err; unfold fatalIf, Log_Fatal; [|apply emits_ret].
  apply emits_bind; [apply emits_emit, Hlogged|]. intros _. apply emits_stop.
Qed.

Lemma deref_emits (p : option string) : emits P (deref (St := St) p).
Proof. destruct p; unfold deref; [apply emits_ret|apply emits_stop]. Qed.

Lemma Log_emits (l : Level) (msg : string) : emits P (Log (St := St) l msg).
Proof. unfold Log. apply emits_emit, Hlogged. Qed.

Lemma reuseLoop_emits (attempts : list Z) (volumeId : option string) :
  emits P (reuseLoop cfg attempts volumeId).
Proof.
  revert volumeId. induction attempts as [|i attempts IH]; intros volumeId.
  - apply emits_ret.
  - cbn [reuseLoop]. apply emits_bind; [apply HfindVolume|].
    intros [found err]. apply emits_bind; [apply fatalIf_emits|]. intros _.
    destruct found as [v|]; [|apply emits_ret].
    apply emits_bind; [apply Log_emits|]. intros _.
    apply emits_bind; [apply HattachVolume|].
    intros [e|]; [|apply emits_ret].
    apply emits_bind; [apply Log_emits|]. intros _. apply IH.
Qed.

Lemma runAsgEbs_emits : emits P (runAsgEbs cfg).
Proof.
  unfold runAsgEbs. apply emits_bind.
  { unfold preconditions. apply emits_bind; [apply HcheckDevice|]. intros err.
    apply emits_bind; [apply fatalIf_emits|]. intros _.
    apply emits_bind; [apply HcheckMountPoint|]. intros err'. apply fatalIf_emits. }
  intros _. apply emits_bind.
  { unfold acquire. destruct (cfg_snapshotName cfg =? EmptyString)%string.
    - apply emits_bind; [apply reuseLoop_emits|]. intros v. apply emits_ret.
    - apply emits_bind; [apply HfindSnapshot|]. intros [sid err].
      apply emits_bind; [apply fatalIf_emits|]. intros _. apply emits_ret. }
  intros [volumeId snapshotId]. apply emits_bind.
  { unfold provision. destruct volumeId as [v|]; [apply emits_ret|].
    apply emits_bind; [apply Log_emits|]. intros _.
    apply emits_bind; [apply HcreateVolume|]. intros [created err].
    apply emits_bind; [apply fatalIf_emits|]. intros _.
    apply emits_bind; [apply deref_emits|]. intros v.
    apply emits_bind; [apply Log_emits|]. intros _.
    apply emits_bind; [apply HwaitUntilVolumeAvailable|]. intros err'.
    apply emits_bind; [apply fatalIf_emits|]. intros _.
    apply emits_bind; [apply Log_emits|]. intros _.
    apply emits_bind; [apply HattachVolume|]. intros err''.
    apply emits_bind; [apply fatalIf_emits|]. intros _. apply emits_ret. }
  intros [volumeId' fs]. unfold finish. apply emits_bind.
  { destruct fs; [|apply emits_ret].
    apply emits_bind; [apply Log_emits|]. intros _.
    apply emits_bind; [apply deref_emits|]. intros v.
    apply emits_bind; [apply HmakeFileSystem|]. intros err. apply fatalIf_emits. }
  intros _. apply emits_bind; [apply Log_emits|]. intros _.
  apply emits_bind; [apply HmountVolume|]. intros err. apply fatalIf_emits.
Qed.

End RunEmits.

Section RunInside.
Context {St : Type} {impl : AsgEbs St}.
Variable cfg : Config.
Variable Q : event -> Prop.

Hypothesis HcheckDevice : emits Q (checkDevice (attachAsDevice cfg)).
Hypothesis HcheckMountPoint : emits Q (checkMountPoint (cfg_mountPoint cfg)).
Hypothesis HfindVolume : emits Q (findVolume (cfg_tagKey cfg) (cfg_tagValue cfg)).
Hypothesis HattachVolume :
  forall v, emits Q (attachVolume v (cfg_attachAs cfg) (cfg_deleteOnTermination cfg)).
Hypothesis HfindSnapshot : emits Q (findSnapshot "Name" (cfg_snapshotName cfg)).
Hypothesis HcreateVolume :
  forall snapshotId,
    emits Q (createVolume (cfg_createSize cfg) (cfg_createName cfg)
               (cfg_createVolumeType cfg) (cfg_createTags cfg) snapshotId).
Hypothesis HwaitUntilVolumeAvailable : forall v, emits Q (waitUntilVolumeAvailable v).
Hypothesis HmakeFileSystem :
  forall v, emits Q (makeFileSystem (attachAsDevice cfg) (cfg_mkfsInodeRatio cfg) v).
Hypothesis HmountVolume :
  emits Q (mountVolume (attachAsDevice cfg) (cfg_mountPoint cfg)).

Lemma runAsgEbs_inside : emits (inside Q) (runAsgEbs cfg).
Proof.
  apply runAsgEbs_emits; intros; try exact I; apply emits_invoke; auto.
Qed.

End RunInside.

(** ** The footprint of a run over AWS *)

Section Footprint.
Context {S : Type} {E : Env S} {sorter : GoSort}.
Variable stack : nat.
Variable a : AwsAsgEbs.
Variable cfg : Config.

Lemma run_footprint (cmd : string) (args : list string) :
  footprint cfg a (ECombinedOutput cmd args (EmptyString, None)) ->
  emits (footprint cfg a) (run (S := S) cmd args).
Proof.
  intros Hcmd s. unfold run. open_prog.
  destruct (exec_CombinedOutput cmd args s) as [[out [e|]] s1]; simpl;
    repeat (constructor; [first [reflexivity | exact Hcmd]|]); constructor.
Qed.

Lemma checkDevice_footprint :
  emits (footprint cfg a) (Aws.checkDevice (S := S) (attachAsDevice cfg)).
Proof.
  intros s. unfold Aws.checkDevice. open_prog.
  destruct (os_Stat _ s) as [err s1]. simpl.
  destruct (negb (os_IsNotExist err)); simpl; repeat constructor.
Qed.

Lemma checkMountPoint_footprint :
  emits (footprint cfg a) (Aws.checkMountPoint (S := S) (cfg_mountPoint cfg)).
Proof.
  intros s. unfold Aws.checkMountPoint, slurpFile. open_prog.
  destruct (ioutil_ReadFile _ s) as [[v [e|]] s1]; simpl;
    destruct (Contains v (cfg_mountPoint cfg)); simpl; repeat constructor.
Qed.

Lemma findVolume_footprint :
  emits (footprint cfg a)
    (Aws.findVolume (S := S) a (cfg_tagKey cfg) (cfg_tagValue cfg)).
Proof. intros s. rewrite findVolume_run. simpl. repeat constructor. Qed.

Lemma findSnapshot_footprint :
  emits (footprint cfg a) (Aws.findSnapshot (S := S) "Name" (cfg_snapshotName cfg)).
Proof. intros s. rewrite findSnapshot_run. simpl. repeat constructor. Qed.

Lemma createVolume_footprint (snapshotId : option string) :
  emits (footprint cfg a)
    (Aws.createVolume (S := S) a (cfg_createSize cfg) (cfg_createName cfg)
       (cfg_createVolumeType cfg) (cfg_createTags cfg) snapshotId).
Proof.
  intros s. rewrite createVolume_run. simpl.
  destruct (ec2_CreateVolume _ s) as [[vol|err] s1]; simpl.
  - destruct (ec2_CreateTags _ s1) as [err s2]. simpl.
    constructor; [now exists snapshotId|].
    constructor; [left; now exists vol, snapshotId|constructor].
  - constructor; [now exists snapshotId|constructor].
Qed.

Lemma waitUntilVolumeAvailable_footprint (v : string) :
  emits (footprint cfg a) (Aws.waitUntilVolumeAvailable (S := S) v).
Proof.
  intros s. unfold Aws.waitUntilVolumeAvailable. open_prog.
  destruct (ec2_WaitUntilVolumeAvailable _ s) as [[e|] s1]; simpl;
    (constructor; [now exists v|constructor]).
Qed.

Lemma polls_footprint (t : list event) :
  Forall (is_poll (attachAsDevice cfg)) t -> Forall (footprint cfg a) t.
Proof.
  intros H. eapply Forall_impl; [exact H|]. intros [] Hp; simpl in *; tauto.
Qed.

Lemma attachVolume_footprint (v : string) :
  emits (footprint cfg a)
    (Aws.attachVolume (S := S) stack a v (cfg_attachAs cfg) (cfg_deleteOnTermination cfg)).
Proof.
  intros s. unfold Aws.attachVolume. open_prog.
  assert (forall s', Forall (footprint cfg a)
                       (snd (waitForFile stack ("/dev/" +:+ cfg_attachAs cfg)
                               (60 * Second) s'))) as Hwait.
  { intros s'. pose proof (waitForFile_events ("/dev/" +:+ cfg_attachAs cfg) stack
                             (60 * Second) s') as Hw.
    destruct (waitForFile stack _ _ s') as [[o s''] t]. destruct Hw as [_ Hall].
    now apply polls_footprint. }
  destruct (ec2_AttachVolume _ s) as [[e|] s1]; simpl;
    [constructor; [now exists v|constructor]|].
  destruct (ec2_WaitUntilVolumeInUse _ s1) as [[e|] s2]; simpl;
    [constructor; [now exists v|]; constructor; [now exists v|constructor]|].
  destruct (cfg_deleteOnTermination cfg) eqn:Hdot.
  - destruct (ec2_ModifyInstanceAttribute _ s2) as [[e|] s3]; simpl.
    + constructor; [now exists v|]. constructor; [now exists v|].
      constructor; [|constructor]. split; [assumption|now exists v].
    + specialize (Hwait s3). destruct (waitForFile stack _ _ s3) as [[o s4] t].
      simpl in Hwait.
      destruct o as [[e|]| | |]; simpl; rewrite ?app_nil_r;
        (constructor; [now exists v|]); (constructor; [now exists v|]);
        (constructor; [split; [assumption|now exists v]|]); assumption.
  - simpl. specialize (Hwait s2). destruct (waitForFile stack _ _ s2) as [[o s4] t].
    simpl in Hwait.
    destruct o as [[e|]| | |]; simpl; rewrite ?app_nil_r;
      (constructor; [now exists v|]); (constructor; [now exists v|]); assumption.
Qed.

Lemma makeFileSystem_footprint (v : string) :
  emits (footprint cfg a)
    (Aws.makeFileSystem (S := S) (attachAsDevice cfg) (cfg_mkfsInodeRatio cfg) v).
Proof.
  intros s. unfold Aws.makeFileSystem.
  assert (emits (footprint cfg a)
            (run (S := S) "/usr/sbin/mkfs.ext4"
               ["-i"%string; pretty (cfg_mkfsInodeRatio cfg); attachAsDevice cfg])) as Hrun.
  { apply run_footprint. left. split; reflexivity. }
  unfold bind. specialize (Hrun s).
  destruct (run _ _ s) as [[o s1] t]. simpl in Hrun.
  destruct o as [[e|]| | |]; simpl; rewrite ?app_nil_r; try assumption.
  unfold ask, ret. destruct (ec2_CreateTags _ s1) as [[e|] s2]; simpl;
    (apply Forall_app; split; [assumption|]);
    (constructor; [right; now exists v|constructor]).
Qed.

Lemma mountVolume_footprint :
  emits (footprint cfg a)
    (Aws.mountVolume (S := S) (attachAsDevice cfg) (cfg_mountPoint cfg)).
Proof.
  intros s. unfold Aws.mountVolume.
  assert (emits (footprint cfg a)
            (run (S := S) "/bin/mount" [attachAsDevice cfg; cfg_mountPoint cfg])) as Hrun.
  { apply run_footprint. right. split; reflexivity. }
  unfold bind, ask, ret. destruct (os_MkdirAll _ _ s) as [[e|] s1]; simpl.
  - constructor; [split; reflexivity|constructor].
  - specialize (Hrun s1). destruct (run _ _ s1) as [[o s2] t].
    constructor; [split; reflexivity|assumption].
Qed.

Lemma runAsgEbs_footprint (s : S) :
  Forall (footprint cfg a)
    (inner (snd (runAsgEbs (impl := AwsAsgEbs_AsgEbs stack a) cfg s))).
Proof.
  apply inside_inner.
  apply (runAsgEbs_inside (impl := AwsAsgEbs_AsgEbs stack a) cfg (footprint cfg a)).
  - apply checkDevice_footprint.
  - apply checkMountPoint_footprint.
  - apply findVolume_footprint.
  - apply attachVolume_footprint.
  - apply findSnapshot_footprint.
  - apply createVolume_footprint.
  - apply waitUntilVolumeAvailable_footprint.
  - apply makeFileSystem_footprint.
  - apply mountVolume_footprint.
Qed.

End Footprint.

Lemma footprint_In {S : Type} {E : Env S} {sorter : GoSort} (stack : nat)
    (a : AwsAsgEbs) (cfg : Config) (s : S) (e : event) :
  In e (inner (snd (runAsgEbs (impl := AwsAsgEbs_AsgEbs stack a) cfg s))) ->
  footprint cfg a e.
Proof.
  intros Hin. pose proof (runAsgEbs_footprint stack a cfg s) as Hall.
  rewrite Forall_forall in Hall. now apply Hall, list_elem_of_In.
Qed.

(** X18: on the machine itself a run over AWS looks for no file but the
    device node, reads no file but /proc/mounts, creates no directory but
    the mount point, with mode 0755, and runs no command but mkfs.ext4 with
    the configured inode ratio on the device and mount of the device on the
    mount point. *)
Theorem run_touches_only_its_device_and_mount_point :
  forall (S : Type) (E : Env S) (sorter : GoSort) (stack : nat) (a : AwsAsgEbs)
         (cfg : Config) (s : S) (e : event),
    In e (inner (snd (runAsgEbs (impl := AwsAsgEbs_AsgEbs stack a) cfg s))) ->
    on_the_machine e = true ->
    (exists r, e = EStat ("/dev/" +:+ cfg_attachAs cfg) r)
    \/ (exists r, e = EReadFile "/proc/mounts" r)
    \/ (exists r, e = EMkdirAll (cfg_mountPoint cfg) 493 r)
    \/ (exists r, e = ECombinedOutput "/usr/sbin/mkfs.ext4"
                        ["-i"%string; pretty (cfg_mkfsInodeRatio cfg);
                         "/dev/" +:+ cfg_attachAs cfg] r)
    \/ (exists r, e = ECombinedOutput "/bin/mount"
                        ["/dev/" +:+ cfg_attachAs cfg; cfg_mountPoint cfg] r).
Proof.
  intros S E sorter stack a cfg s e Hin Hlocal.
  apply footprint_In in Hin.
  destruct e; try discriminate Hlocal; simpl in Hin.
  - left. subst. eauto.
  - right. left. subst. eauto.
  - right. right. left. destruct Hin as [-> ->]. eauto.
  - right. right. right. destruct Hin as [[-> ->]|[-> ->]]; [left|right]; eauto.
Qed.

Lemma run_touches_only_its_device_and_mount_point_witness :
  let e := EMkdirAll "/data" 493 None in
  (exists r, e = EStat ("/dev/" +:+ cfg_attachAs Fake.cfg) r)
  \/ (exists r, e = EReadFile "/proc/mounts" r)
  \/ (exists r, e = EMkdirAll (cfg_mountPoint Fake.cfg) 493 r)
  \/ (exists r, e = ECombinedOutput "/usr/sbin/mkfs.ext4"
                      ["-i"%string; pretty (cfg_mkfsInodeRatio Fake.cfg);
                       "/dev/" +:+ cfg_attachAs Fake.cfg] r)
  \/ (exists r, e = ECombinedOutput "/bin/mount"
                      ["/dev/" +:+ cfg_attachAs Fake.cfg; cfg_mountPoint Fake.cfg] r).
Proof.
  intros e.
  apply (run_touches_only_its_device_and_mount_point _ (Fake.env one_volume) Fake.sort
           100 Fake.me Fake.cfg Fake.boot e).
  - vm_compute. tauto.
  - reflexivity.
Defined.

(** X19: a run over AWS changes the instance's block device mapping only
    when delete-on-termination was asked for, and then only to set that
    flag, for a volume on the device the run attaches as, on this
    instance. *)
Theorem run_sets_only_delete_on_termination :
  forall (S : Type) (E : Env S) (sorter : GoSort) (stack : nat) (a : AwsAsgEbs)
         (cfg : Config) (s : S) (i : ModifyInstanceAttributeInput) (r : option error),
    In (EModifyInstanceAttribute i r)
       (inner (snd (runAsgEbs (impl := AwsAsgEbs_AsgEbs stack a) cfg s))) ->
    cfg_deleteOnTermination cfg = true
    /\ exists v,
         i = {| mia_Attribute := "blockDeviceMapping";
                mia_InstanceId := InstanceId a;
                mia_BlockDeviceMappings :=
                  [ {| bdm_DeviceName := cfg_attachAs cfg;
                       bdm_Ebs := {| ebs_DeleteOnTermination := true;
                                     ebs_VolumeId := v |} |} ] |}.
Proof.
  intros S E sorter stack a cfg s i r Hin.
  apply footprint_In in Hin. exact Hin.
Qed.

Lemma run_sets_only_delete_on_termination_witness :
  cfg_deleteOnTermination restore_cfg = true
  /\ exists v,
       modifyInstanceAttributeInput Fake.me "vol-new" "xvdb"
       = {| mia_Attribute := "blockDeviceMapping";
            mia_InstanceId := InstanceId Fake.me;
            mia_BlockDeviceMappings :=
              [ {| bdm_DeviceName := cfg_attachAs restore_cfg;
                   bdm_Ebs := {| ebs_DeleteOnTermination := true;
                                 ebs_VolumeId := v |} |} ] |}.
Proof.
  apply (run_sets_only_delete_on_termination _ (Fake.env three_snapshots) Fake.sort
           100 Fake.me restore_cfg Fake.boot _ None).
  vm_compute. repeat first [left; reflexivity | right].
Defined.

(** ** How a run over AWS ends *)





Section Returns.
Context {S : Type} {E : Env S} {sorter : GoSort}.
Variable a : AwsAsgEbs.










End Returns.












(** ** Start-up *)

Lemma of_run_app (t1 t2 : list main_event) : of_run (t1 ++ t2) = of_run t1 ++ of_run t2.
Proof.
  induction t1 as [|e t1 IH]; [reflexivity|]. destruct e; simpl; now rewrite IH.
Qed.

Lemma of_run_MRun (t : list run_event) : of_run (map MRun t) = t.
Proof. induction t as [|e t IH]; simpl; now rewrite ?IH. Qed.

Lemma lookups_MRun (t : list run_event) : lookups (map MRun t) = [].
Proof. induction t as [|e t IH]; simpl; now rewrite ?IH. Qed.

Lemma lookups_app (t1 t2 : list main_event) :
  lookups (t1 ++ t2) = lookups t1 ++ lookups t2.
Proof.
  induction t1 as [|e t1 IH]; [reflexivity|]. destruct e; simpl; now rewrite IH.
Qed.

(* the start-up, by the answers of the metadata service *)
Lemma NewAwsAsgEbs_run {S : Type} {metadata : Metadata S} (maxRetries : Z) (s : S) :
  let '(r1, s1) := ec2metadata_Region s in
  let '(r2, s2) := ec2metadata_GetMetadata "placement/availability-zone" s1 in
  let '(r3, s3) := ec2metadata_GetMetadata "instance-id" s2 in
  NewAwsAsgEbs maxRetries s =
  match r1 with
  | Err _ =>
      (Exited 1, s1,
       [MRegion r1; MLog Fatal "Failed to get region from instance metadata"])
  | Ok region =>
      match r2 with
      | Err _ =>
          (Exited 1, s2,
           [MRegion r1; MLog Info "Setting region";
            MGetMetadata "placement/availability-zone" r2;
            MLog Fatal "Failed to get availability zone from instance metadata"])
      | Ok zone =>
          match r3 with
          | Err _ =>
              (Exited 1, s3,
               [MRegion r1; MLog Info "Setting region";
                MGetMetadata "placement/availability-zone" r2;
                MLog Info "Setting availability zone";
                MGetMetadata "instance-id" r3;
                MLog Fatal "Failed to get instance id from instance metadata"])
          | Ok id =>
              (Normal {| Region := region; AvailabilityZone := zone; InstanceId := id |},
               s3,
               [MRegion r1; MLog Info "Setting region";
                MGetMetadata "placement/availability-zone" r2;
                MLog Info "Setting availability zone";
                MGetMetadata "instance-id" r3;
                MLog Info "Setting instance id"])
          end
      end
  end.
Proof.
  unfold NewAwsAsgEbs, fatalUnless, bind, ask, emit, stop, ret.
  destruct (ec2metadata_Region s) as [[region|e1] s1]; simpl.
  - destruct (ec2metadata_GetMetadata "placement/availability-zone" s1) as [[zone|e2] s2];
      simpl.
    + destruct (ec2metadata_GetMetadata "instance-id" s2) as [[id|e3] s3]; reflexivity.
    + destruct (ec2metadata_GetMetadata "instance-id" s2); reflexivity.
  - destruct (ec2metadata_GetMetadata "placement/availability-zone" s1) as [r2 s2].
    destruct (ec2metadata_GetMetadata "instance-id" s2); reflexivity.
Qed.

Lemma In_MRun (t : list run_event) (ev : main_event) :
  In ev (map MRun t) -> exists e, ev = MRun e.
Proof. intros Hin. apply in_map_iff in Hin as (e & <- & _). eauto. Qed.

(** X20: when the metadata service refuses the lookup of the region, of the
    availability zone or of the instance id, main logs the failure and exits
    with status 1 right there: it makes no further lookup and nothing of the
    run happens. *)
Theorem main_stops_without_metadata :
  forall (S : Type) (E : Env S) (sorter : GoSort) (metadata : Metadata S)
         (stack : nat) (cfg : Config) (s : S) (ev : main_event),
    In ev (snd (main stack cfg s)) ->
    lookup_failed ev ->
    fst (fst (main stack cfg s)) = Exited 1
    /\ of_run (snd (main stack cfg s)) = []
    /\ exists before msg,
         snd (main stack cfg s) = before ++ [ev; MLog Fatal msg]
         /\ Forall (fun e => ~ lookup_failed e) before.
Proof.
  intros S E sorter metadata stack cfg s ev. unfold main, bind.
  pose proof (NewAwsAsgEbs_run (cfg_maxRetries cfg) s) as Hnew.
  destruct (ec2metadata_Region s) as [r1 s1].
  destruct (ec2metadata_GetMetadata "placement/availability-zone" s1) as [r2 s2].
  destruct (ec2metadata_GetMetadata "instance-id" s2) as [r3 s3].
  rewrite Hnew. clear Hnew.
  destruct r1 as [region|e1]; [destruct r2 as [zone|e2]; [destruct r3 as [id|e3]|]|].
  - unfold running.
    destruct (runAsgEbs _ s3) as [[o s4] t]. simpl.
    intros [<-|[<-|[<-|[<-|[<-|[<-|Hin]]]]]] Hfail; try destruct Hfail.
    apply In_MRun in Hin as [e ->]. destruct Hfail.
  - simpl. intros [<-|[<-|[<-|[<-|[<-|[<-|[]]]]]]] Hfail; try destruct Hfail.
    split; [reflexivity|]. split; [reflexivity|].
    eexists [_; _; _; _], _. split; [reflexivity|].
    repeat (constructor; [simpl; tauto|]). constructor.
  - simpl. intros [<-|[<-|[<-|[<-|[]]]]] Hfail; try destruct Hfail.
    split; [reflexivity|]. split; [reflexivity|].
    eexists [_; _], _. split; [reflexivity|].
    repeat (constructor; [simpl; tauto|]). constructor.
  - simpl. intros [<-|[<-|[]]] Hfail; try destruct Hfail.
    split; [reflexivity|]. split; [reflexivity|].
    eexists [], _. split; [reflexivity|]. constructor.
Qed.

Lemma main_stops_without_metadata_witness :
  let ev := MGetMetadata "placement/availability-zone"
              (Err (awserr "EC2MetadataRequestError" "failed to make EC2Metadata request")) in
  let run := main (E := Fake.env one_volume) (sorter := Fake.sort)
               (metadata := fake_metadata no_zone) 100 Fake.cfg Fake.boot in
  fst (fst run) = Exited 1
  /\ of_run (snd run) = []
  /\ exists before msg,
       snd run = before ++ [ev; MLog Fatal msg]
       /\ Forall (fun e => ~ lookup_failed e) before.
Proof.
  intros ev run.
  apply (main_stops_without_metadata _ (Fake.env one_volume) Fake.sort
           (fake_metadata no_zone) 100 Fake.cfg Fake.boot ev).
  - vm_compute. do 2 right. left. reflexivity.
  - exact I.
Defined.

(** X21: whatever main does once the start-up is over, it does for the
    instance the metadata service described: each request, file-system call
    and command of the run fits the configuration on the instance whose
    region, availability zone and id are the answers to the three lookups
    of this execution; so volumes are sought and created in that zone and
    attached to that instance. *)
Theorem main_acts_for_the_instance_of_the_metadata :
  forall (S : Type) (E : Env S) (sorter : GoSort) (metadata : Metadata S)
         (stack : nat) (cfg : Config) (s : S) (e : event),
    In e (inner (of_run (snd (main stack cfg s)))) ->
    exists region zone id,
      lookups (snd (main stack cfg s))
      = ["region"%string; "placement/availability-zone"%string; "instance-id"%string]
      /\ In (MRegion (Ok region)) (snd (main stack cfg s))
      /\ In (MGetMetadata "placement/availability-zone" (Ok zone)) (snd (main stack cfg s))
      /\ In (MGetMetadata "instance-id" (Ok id)) (snd (main stack cfg s))
      /\ footprint cfg {| Region := region; AvailabilityZone := zone; InstanceId := id |} e.
Proof.
  intros S E sorter metadata stack cfg s e. unfold main, bind.
  pose proof (NewAwsAsgEbs_run (cfg_maxRetries cfg) s) as Hnew.
  destruct (ec2metadata_Region s) as [r1 s1].
  destruct (ec2metadata_GetMetadata "placement/availability-zone" s1) as [r2 s2].
  destruct (ec2metadata_GetMetadata "instance-id" s2) as [r3 s3].
  rewrite Hnew. clear Hnew.
  destruct r1 as [region|e1]; [destruct r2 as [zone|e2]; [destruct r3 as [id|e3]|]|];
    try (simpl; intros []).
  unfold running.
  pose proof (runAsgEbs_footprint stack
                {| Region := region; AvailabilityZone := zone; InstanceId := id |}
                cfg s3) as Hall.
  destruct (runAsgEbs _ s3) as [[o s4] t]. simpl in Hall. simpl.
  rewrite of_run_MRun, lookups_MRun. intros Hin.
  exists region, zone, id. split; [reflexivity|].
  split; [now left|]. split; [do 2 right; now left|]. split; [do 4 right; now left|].
  rewrite Forall_forall in Hall. now apply Hall, list_elem_of_In.
Qed.

Lemma main_acts_for_the_instance_of_the_metadata_witness :
  let run := main (E := Fake.env one_volume) (sorter := Fake.sort)
               (metadata := fake_metadata Fake.nothing_fails) 100 Fake.cfg Fake.boot in
  exists region zone id,
    lookups (snd run)
    = ["region"%string; "placement/availability-zone"%string; "instance-id"%string]
    /\ In (MRegion (Ok region)) (snd run)
    /\ In (MGetMetadata "placement/availability-zone" (Ok zone)) (snd run)
    /\ In (MGetMetadata "instance-id" (Ok id)) (snd run)
    /\ footprint Fake.cfg {| Region := region; AvailabilityZone := zone; InstanceId := id |}
         (EAttachVolume (attachVolumeInput Fake.me "vol-1" "xvdb") None).
Proof.
  intros run.
  apply (main_acts_for_the_instance_of_the_metadata _ (Fake.env one_volume) Fake.sort
           (fake_metadata Fake.nothing_fails) 100 Fake.cfg Fake.boot
           (EAttachVolume (attachVolumeInput Fake.me "vol-1" "xvdb") None)).
  vm_compute. repeat first [left; reflexivity | right].
Defined.
